(** * MDG-UBO-Tool: ownership resolution and UBO evaluation

    A shallow embedding of the core of the tool:
    - [AresVrClient]  (src/ares_vr_client.py): id normalisation, the
      caching registry client with its retry loop;
    - [AresVrExtract] (src/ares_vr_extract.py): the payload model and the
      extraction of the currently valid owners;
    - [OwnershipResolveOnline] (src/ownership_resolve_online.py): the
      share-text parser and the recursive tree walker;
    - [App] (src/app.py): the aggregation of effective shares per person
      and the UBO decision of the submitted form.

    Modelling conventions.
    - Python [str] is [string], a sequence of bytes holding the UTF-8
      encoding of the text.  Character classes of the regular expressions
      ([\d], [\s], [\D]) are the ASCII ones; case-insensitive matching
      folds ASCII letters and the one accented letter the patterns use.
    - Python [float] is idealised as an exact rational [Q]: every product,
      quotient, sum, comparison and clamp of the source is kept, rounding
      error, infinities and NaN are outside the model.  Results are
      compared with [==] ([Qeq]).  The decision of the submitted form is
      the exception: it compares a sum of shares with a threshold, a
      comparison that rounding decides at the boundary, so there a float
      is the rational it denotes and the quotients by [100.0] and the sum
      of the voting block are rounded to binary64 ([Num.round64]).
    - A JSON object is a record of the keys the code reads; an optional
      key is an [option] ([None] stands for an absent key, a JSON null and
      an empty object alike, which the code never tells apart).
    - A Python [dict] that is iterated is an insertion-ordered association
      list (module [OD]); the SQLite cache table and the override mapping,
      which are only looked up by key, are [gmap]s.
    - Wall-clock effects (rate limiting, back-off sleeps, the fetch
      timestamp) do not influence any value and are left out. *)

From Stdlib Require Import QArith Qabs Lqa ZArith Ascii String DecimalString.
From stdpp Require Import gmap strings list.

(* ================================================================== *)
(** ** Python strings *)

Module Py.

Definition chars (s : string) : list ascii := String.list_ascii_of_string s.
Definition str (l : list ascii) : string := String.string_of_list_ascii l.

Definition code (c : ascii) : nat := nat_of_ascii c.

Definition is_digit (c : ascii) : bool :=
  Nat.leb 48 (code c) && Nat.leb (code c) 57.

(** [str.isspace] on the ASCII range: TAB..CR, FS..US and the blank. *)
Definition is_space (c : ascii) : bool :=
  (Nat.leb 9 (code c) && Nat.leb (code c) 13)
  || (Nat.leb 28 (code c) && Nat.leb (code c) 32).

Definition is_upper (c : ascii) : bool :=
  Nat.leb 65 (code c) && Nat.leb (code c) 90.
Definition is_lower (c : ascii) : bool :=
  Nat.leb 97 (code c) && Nat.leb (code c) 122.

Definition to_lower (c : ascii) : ascii :=
  if is_upper c then ascii_of_nat (code c + 32) else c.
Definition to_upper (c : ascii) : ascii :=
  if is_lower c then ascii_of_nat (code c - 32) else c.

Definition upper (s : string) : string := str (map to_upper (chars s)).

Fixpoint lstrip_l (l : list ascii) : list ascii :=
  match l with
  | c :: l' => if is_space c then lstrip_l l' else l
  | [] => []
  end.
Definition rstrip_l (l : list ascii) : list ascii := rev (lstrip_l (rev l)).
Definition strip_l (l : list ascii) : list ascii := rstrip_l (lstrip_l l).

(** [s.strip()] *)
Definition strip (s : string) : string := str (strip_l (chars s)).

(** Truth value of an optional string: [None] and [""] are falsy. *)
Definition truthy (o : option string) : bool :=
  match o with
  | Some (String _ _) => true
  | _ => false
  end.

(** [o or d] for an optional string [o]. *)
Definition or_str (o : option string) (d : string) : string :=
  match o with
  | Some (String c s) => String c s
  | _ => d
  end.

Definition nonempty (s : string) : bool :=
  match s with
  | EmptyString => false
  | String _ _ => true
  end.

(** [s.zfill(w)]: zeros go after a leading sign. *)
Definition zfill (w : nat) (s : string) : string :=
  let l := chars s in
  let pad := repeat "0"%char (w - length l) in
  match l with
  | c :: l' =>
      if (Ascii.eqb c "+" || Ascii.eqb c "-")%bool
      then str (c :: pad ++ l')
      else str (pad ++ l)
  | [] => str pad
  end.

(** [s.replace(a, b)] for single characters. *)
Definition replace_char (a b : ascii) (l : list ascii) : list ascii :=
  map (fun c => if Ascii.eqb c a then b else c) l.

(** [sep.join(parts)] *)
Fixpoint join (sep : string) (parts : list string) : string :=
  match parts with
  | [] => ""
  | [p] => p
  | p :: ps => p +:+ sep +:+ join sep ps
  end.

Fixpoint ends_with_colon (l : list ascii) : bool :=
  match l with
  | [] => false
  | [c] => Ascii.eqb c ":"
  | _ :: l' => ends_with_colon l'
  end.

End Py.

(* ================================================================== *)
(** ** Numbers *)

Module Num.

Local Open Scope Q_scope.

Definition digit_val (c : ascii) : Z := Z.of_nat (Py.code c) - 48.

Definition digits_val (ds : list ascii) : Z :=
  fold_left (fun a c => 10 * a + digit_val c)%Z ds 0%Z.

Fixpoint span_digits (l : list ascii) : list ascii * list ascii :=
  match l with
  | c :: l' =>
      if Py.is_digit c
      then let '(ds, r) := span_digits l' in (c :: ds, r)
      else ([], l)
  | [] => ([], [])
  end.

Definition decimal (ip fp : list ascii) : Q :=
  Qmake (digits_val (ip ++ fp)) (Z.to_pos (10 ^ Z.of_nat (length fp))).

(** [float(s)] on plain decimal literals: blanks around, an optional
    sign, digits with an optional fractional part.  Exponents, [inf],
    [nan] and digit separators have no rational value and are rejected
    ([None] is the [ValueError]). *)
Definition py_float (s : string) : option Q :=
  let l := Py.strip_l (Py.chars s) in
  let '(neg, l1) :=
    match l with
    | c :: l' =>
        if Ascii.eqb c "-" then (true, l')
        else if Ascii.eqb c "+" then (false, l')
        else (false, l)
    | [] => (false, l)
    end in
  let '(ip, l2) := span_digits l1 in
  let sgn (q : Q) := if neg then - q else q in
  match l2 with
  | [] => match ip with [] => None | _ => Some (sgn (decimal ip [])) end
  | c :: l3 =>
      if Ascii.eqb c "."
      then
        let '(fp, l4) := span_digits l3 in
        match l4, ip ++ fp with
        | [], _ :: _ => Some (sgn (decimal ip fp))
        | _, _ => None
        end
      else None
  end.

(** [max(0.0, min(hi, x))] *)
Definition Qmin' (a b : Q) : Q := if Qlt_le_dec b a then b else a.
Definition Qmax' (a b : Q) : Q := if Qlt_le_dec a b then b else a.
Definition clamp (hi x : Q) : Q := Qmax' 0 (Qmin' hi x).

Definition Qgtb (a b : Q) : bool := if Qlt_le_dec b a then true else false.

(** Rounding of [q] to an integer, ties to even. *)
Definition round_half_even (q : Q) : Z :=
  let n := Qnum q in
  let d := Zpos (Qden q) in
  let fl := (n / d)%Z in
  let r := (2 * (n mod d))%Z in
  if (r <? d)%Z then fl
  else if (d <? r)%Z then (fl + 1)%Z
  else if Z.even fl then fl else (fl + 1)%Z.

(** *** Binary64 arithmetic

    A finite float is the rational it denotes.  An operation of the
    source is the exact operation followed by rounding to the nearest
    binary64 number, ties to even (53 bits of precision, subnormal
    numbers down to [2^-1074]; no overflow: numbers beyond the largest
    binary64 number do not arise from percentages). *)
Definition pow2 (e : Z) : Q :=
  if (0 <=? e)%Z then inject_Z (2 ^ e) else 1 # Z.to_pos (2 ^ (- e)).

(** The integer part of the binary logarithm of a positive rational. *)
Definition ilog2 (a : Q) : Z :=
  let k := (Z.log2 (Qnum a) - Z.log2 (Zpos (Qden a)))%Z in
  if Qle_bool (pow2 k) a then k else (k - 1)%Z.

Definition round64 (x : Q) : Q :=
  if Qeq_bool x 0 then 0
  else
    let a := Qabs x in
    let e := Z.max (-1074) (ilog2 a - 52) in
    let r := Qred (inject_Z (round_half_even (a / pow2 e)) * pow2 e) in
    if Qle_bool 0 x then r else - r.

(** [a + b], [a * b] and [a / b] on floats *)
Definition fadd (a b : Q) : Q := round64 (a + b).
Definition fmul (a b : Q) : Q := round64 (a * b).
Definition fdiv (a b : Q) : Q := round64 (a / b).

Definition string_of_N (n : N) : string :=
  NilZero.string_of_uint (N.to_uint n).

(** [f"{q:.2f}"] *)
Definition fmt2 (q : Q) : string :=
  let c := round_half_even (q * 100) in
  let a := Z.abs_N c in
  let frac := (a mod 100)%N in
  (if Qlt_le_dec q 0 then "-" else "")
    +:+ string_of_N (a / 100)
    +:+ "."
    +:+ (if (frac <? 10)%N then "0" else "")
    +:+ string_of_N frac.

End Num.

(* ================================================================== *)
(** ** Regular expressions

    A backtracking matcher in the style of Python's [re]: alternatives
    and greedy repetitions are tried in order, the first success wins. *)

Module Re.

Inductive regex : Type :=
| Eps
| Cls (p : ascii -> bool)
| Cat (r1 r2 : regex)
| Alt (r1 r2 : regex)
| Star (r : regex)
| Grp (i : nat) (r : regex)
| Eos.

Definition caps := list (nat * list ascii).

Fixpoint run {R : Type} (r : regex) (s : list ascii) (cs : caps)
    (k : list ascii -> caps -> option R) {struct r} : option R :=
  match r with
  | Eps => k s cs
  | Cls p =>
      match s with
      | c :: s' => if p c then k s' cs else None
      | [] => None
      end
  | Cat r1 r2 => run r1 s cs (fun s' cs' => run r2 s' cs' k)
  | Alt r1 r2 =>
      match run r1 s cs k with
      | Some x => Some x
      | None => run r2 s cs k
      end
  | Star r1 =>
      (fix loop (n : nat) (s : list ascii) (cs : caps) : option R :=
         match n with
         | O => k s cs
         | S n' =>
             match run r1 s cs
                     (fun s' cs' =>
                        if Nat.ltb (length s') (length s)
                        then loop n' s' cs' else None) with
             | Some x => Some x
             | None => k s cs
             end
         end) (S (length s)) s cs
  | Grp i r1 =>
      run r1 s cs
        (fun s' cs' => k s' ((i, take (length s - length s') s) :: cs'))
  | Eos =>
      match s with
      | [] => k s cs
      | [c] => if Ascii.eqb c "010" then k s cs else None
      | _ => None
      end
  end.

(** The match of [r] at the start of [s]: the rest and the groups. *)
Definition match_at (r : regex) (s : list ascii) : option (list ascii * caps) :=
  run r s [] (fun s' cs => Some (s', cs)).

(** [m.group(i)] of a group that took part in the match. *)
Fixpoint group (i : nat) (cs : caps) : option string :=
  match cs with
  | [] => None
  | (j, g) :: cs' => if Nat.eqb i j then Some (Py.str g) else group i cs'
  end.

Definition step_past (s rest : list ascii) : list ascii :=
  if Nat.ltb (length rest) (length s) then rest else drop 1 s.

(** [r.finditer(s)]: the groups of the successive matches, left to right,
    not overlapping. *)
Fixpoint finditer_from (fuel : nat) (r : regex) (s : list ascii) : list caps :=
  match fuel with
  | O => []
  | S fuel' =>
      match match_at r s with
      | Some (rest, cs) =>
          cs :: match s with
                | [] => []
                | _ :: _ => finditer_from fuel' r (step_past s rest)
                end
      | None =>
          match s with
          | [] => []
          | _ :: s' => finditer_from fuel' r s'
          end
      end
  end.

Definition finditer (r : regex) (s : string) : list caps :=
  finditer_from (S (String.length s)) r (Py.chars s).

(** [r.search(s)]: text before the first match, its groups, text after. *)
Fixpoint search_from (r : regex) (pre s : list ascii)
    : option (list ascii * caps * list ascii) :=
  match match_at r s with
  | Some (rest, cs) => Some (rev pre, cs, rest)
  | None =>
      match s with
      | [] => None
      | c :: s' => search_from r (c :: pre) s'
      end
  end.

Definition search (r : regex) (s : string) : option (list ascii * caps * list ascii) :=
  search_from r [] (Py.chars s).

(** [r.sub("", s)] *)
Fixpoint sub_empty_from (fuel : nat) (r : regex) (s : list ascii) : list ascii :=
  match fuel with
  | O => s
  | S fuel' =>
      match match_at r s with
      | Some (rest, _) =>
          if Nat.ltb (length rest) (length s)
          then sub_empty_from fuel' r rest
          else match s with
               | [] => []
               | c :: s' => c :: sub_empty_from fuel' r s'
               end
      | None =>
          match s with
          | [] => []
          | c :: s' => c :: sub_empty_from fuel' r s'
          end
      end
  end.

Definition sub_empty (r : regex) (s : string) : string :=
  Py.str (sub_empty_from (S (String.length s)) r (Py.chars s)).

(** Pattern combinators. *)
Definition chr (c : ascii) : regex := Cls (Ascii.eqb c).
Definition chr_ci (c : ascii) : regex :=
  Cls (fun x => Ascii.eqb (Py.to_lower x) (Py.to_lower c)).
Definition plus (r : regex) : regex := Cat r (Star r).
Definition opt (r : regex) : regex := Alt r Eps.
Definition seq (rs : list regex) : regex := foldr Cat Eps rs.
Definition lit (s : string) : regex := seq (map chr (Py.chars s)).
Definition lit_ci (s : string) : regex := seq (map chr_ci (Py.chars s)).
Definition one_of (s : string) : regex :=
  Cls (fun x => existsb (Ascii.eqb x) (Py.chars s)).
Definition d : regex := Cls Py.is_digit.
Definition ws : regex := Cls Py.is_space.
Definition dot : regex := Cls (fun x => negb (Ascii.eqb x "010")).
Fixpoint times (n : nat) (r : regex) : regex :=
  match n with
  | O => Eps
  | S n' => Cat r (times n' r)
  end.

End Re.

(* ================================================================== *)
(** ** Insertion-ordered dictionaries *)

Module OD.
Section Dict.
Context {K V : Type} `{EqDecision K}.

Fixpoint get (k : K) (d : list (K * V)) : option V :=
  match d with
  | [] => None
  | (k', v) :: d' => if decide (k = k') then Some v else get k d'
  end.

(** [d[k] = v]: an existing key keeps its place. *)
Fixpoint set (k : K) (v : V) (d : list (K * V)) : list (K * V) :=
  match d with
  | [] => [(k, v)]
  | (k', v') :: d' =>
      if decide (k = k') then (k, v) :: d' else (k', v') :: set k v d'
  end.

Definition mem (k : K) (d : list (K * V)) : bool :=
  match get k d with Some _ => true | None => false end.

End Dict.
End OD.

(* ================================================================== *)
(** ** The patterns shared by the three modules of the source *)

Module Pat.
Import Re.

(** [\d+(?:[.,;]\d+)?] *)
Definition number : regex := Cat (plus d) (opt (Cat (one_of ".,;") (plus d))).

(** [(?:%|PROCENTA)] *)
Definition pct_sign : regex := Alt (chr "%") (lit_ci "PROCENTA").

(** [(\d+(?:[.,;]\d+)?)\s*%] *)
Definition PCT_RE : regex := seq [Grp 1 number; Star ws; chr "%"].

(** [(\d+(?:[.,;]\d+)?)\s*PROCENTA], ignoring case *)
Definition PROCENTA_RE : regex := seq [Grp 1 number; Star ws; lit_ci "PROCENTA"].

(** [(\d+)\s*/\s*(\d+)] *)
Definition FRAC_SLASH_RE : regex :=
  seq [Grp 1 (plus d); Star ws; chr "/"; Star ws; Grp 2 (plus d)].

(** [(\d+)\s*;\s*(\d+)\s*(ZLOMEK|TEXT)?], ignoring case *)
Definition FRAC_SEMI_RE : regex :=
  seq [Grp 1 (plus d); Star ws; chr ";"; Star ws; Grp 2 (plus d); Star ws;
       opt (Grp 3 (Alt (lit_ci "ZLOMEK") (lit_ci "TEXT")))].

(** [obchodni[_ ]?podil\s*:\s*] *)
Definition obchodni_podil : regex :=
  seq [lit_ci "obchodni"; opt (one_of "_ "); lit_ci "podil"; Star ws; chr ":"; Star ws].

(** [obchodni[_ ]?podil\s*:\s*(\d+)\s*[/;]\s*(\d+)], ignoring case *)
Definition OBCHODNI_PODIL_FRAC_RE : regex :=
  seq [obchodni_podil; Grp 1 (plus d); Star ws; one_of "/;"; Star ws; Grp 2 (plus d)].

(** [obchodni[_ ]?podil\s*:\s*(\d+(?:[.,;]\d+)?)\s*(?:%|PROCENTA)], ignoring case *)
Definition OBCHODNI_PODIL_PCT_RE : regex :=
  seq [obchodni_podil; Grp 1 number; Star ws; pct_sign].

(** [hlasovaci[_ ]?prava\s*:\s*(\d+(?:[.,;]\d+)?)\s*(?:%|PROCENTA)], ignoring case *)
Definition HLASOVACI_PRAVA_PCT_RE : regex :=
  seq [lit_ci "hlasovaci"; opt (one_of "_ "); lit_ci "prava"; Star ws; chr ":"; Star ws;
       Grp 1 number; Star ws; pct_sign].

(** [splaceno\s*:\s*\d+(?:[.,;]\d+)?\s*PROCENTA], ignoring case *)
Definition SPLACENO_FIELD_RE : regex :=
  seq [lit_ci "splaceno"; Star ws; chr ":"; Star ws; number; Star ws; lit_ci "PROCENTA"].

(** [efektivně\s+(\d+(?:[.,;]\d+)?)\s*%], ignoring case: the last letter
    is U+011B, whose capital is U+011A. *)
Definition EFEKTIVNE_RE : regex :=
  seq [lit_ci "efektivn"; Alt (lit "ě") (lit "Ě"); plus ws; Grp 1 number; Star ws; chr "%"].

(** [\(IČO\s+(?P<ico>\d{7,8})\)]; the named group is group 2. *)
Definition ICO_IN_LINE : regex :=
  seq [lit "(IČO"; plus ws; Grp 2 (Cat (times 7 d) (opt d)); chr ")"].

(** [^(?P<name>.+)\s+\(IČO\s+(?P<ico>\d{7,8})\)\s*$] *)
Definition RE_COMPANY_HEADER : regex :=
  seq [Grp 1 (plus dot); plus ws; ICO_IN_LINE; Star ws; Eos].

(** [\s+[—–-]\s+]: an em dash, an en dash or a hyphen between blanks. *)
Definition DASH_SPLIT : regex :=
  seq [plus ws; Alt (lit "—") (Alt (lit "–") (lit "-")); plus ws].

(** [m.group(i)] as a string. *)
Definition grp (i : nat) (cs : caps) : string := default "" (group i cs).

End Pat.

(** [_to_float]: [,] and [;] are read as the decimal point. *)
Definition _to_float (s : string) : option Q :=
  Num.py_float
    (Py.str (Py.replace_char ";" "." (Py.replace_char "," "." (Py.chars s)))).

(** One turn of the loops [for m in RE.finditer(s)] of the share parsers:
    [term a b] is what a fraction adds and [pterm v] what a percentage
    adds to the running total. *)
Definition add_fraction (term : Q -> Q -> Q) (acc : Q * bool) (m : Re.caps) : Q * bool :=
  match _to_float (Pat.grp 1 m), _to_float (Pat.grp 2 m) with
  | Some a, Some b =>
      if Qeq_bool b 0 then acc else ((fst acc + term a b)%Q, true)
  | _, _ => acc
  end.

Definition add_percent (pterm : Q -> Q) (acc : Q * bool) (m : Re.caps) : Q * bool :=
  match _to_float (Pat.grp 1 m) with
  | Some v => ((fst acc + pterm v)%Q, true)
  | None => acc
  end.

(** The four layers of the share-text parser, which the source has in
    three copies: two that return a fraction of one and one that returns
    per cent.  They differ in [term], [pterm] and the cap [hi] only. *)
Definition parse_layers (term : Q -> Q -> Q) (pterm : Q -> Q) (hi : Q)
    (s : string) : option Q :=
  let s := Py.strip s in
  if negb (Py.nonempty s) then None else
  let s := Re.sub_empty Pat.SPLACENO_FIELD_RE s in
  (* 1) obchodni_podil *)
  let l1 := fold_left (add_fraction term) (Re.finditer Pat.OBCHODNI_PODIL_FRAC_RE s) (0%Q, false) in
  let l1 := fold_left (add_percent pterm) (Re.finditer Pat.OBCHODNI_PODIL_PCT_RE s) l1 in
  if snd l1 then Some (Num.clamp hi (fst l1)) else
  (* 2) hlasovaci_prava *)
  let l2 := fold_left (add_percent pterm) (Re.finditer Pat.HLASOVACI_PRAVA_PCT_RE s) (0%Q, false) in
  if snd l2 then Some (Num.clamp hi (fst l2)) else
  (* 3) a/b, a;b *)
  let l3 := fold_left (add_fraction term) (Re.finditer Pat.FRAC_SLASH_RE s) (0%Q, false) in
  let l3 := fold_left (add_fraction term) (Re.finditer Pat.FRAC_SEMI_RE s) l3 in
  if snd l3 then Some (Num.clamp hi (fst l3)) else
  (* 4) X %, X PROCENTA *)
  let l4 := fold_left (add_percent pterm) (Re.finditer Pat.PCT_RE s) (0%Q, false) in
  let l4 := fold_left (add_percent pterm) (Re.finditer Pat.PROCENTA_RE s) l4 in
  if snd l4 then Some (Num.clamp hi (fst l4)) else
  None.

(* ================================================================== *)
(** ** src/ares_vr_extract.py *)

Module AresVrExtract.

(** *** The registry payload (the keys the code reads) *)

Record Amount : Type := {
  typObnos : option string;
  hodnota : option string }.

Record Podil : Type := {
  podil_datumVymazu : option string;
  vklad : option Amount;
  velikostPodilu : option Amount;
  splaceni : option Amount }.

Record FyzickaOsoba : Type := {
  titulPredJmenem : option string;
  jmeno : option string;
  prijmeni : option string }.

Record PravnickaOsoba : Type := {
  po_ico : option string;
  po_obchodniJmeno : option string;
  po_nazev : option string }.

Record Osoba : Type := {
  fyzickaOsoba : option FyzickaOsoba;
  pravnickaOsoba : option PravnickaOsoba }.

Record Spolecnik : Type := {
  sp_datumVymazu : option string;
  sp_datumZapisu : option string;
  sp_osoba : option Osoba;
  sp_podil : list Podil }.

Record SpolecniciBlok : Type := {
  blok_datumVymazu : option string;
  blok_nazevOrganu : option string;
  blok_spolecnik : list Spolecnik }.

(** A member of a shareholder section; [clen_podil] is its explicit
    share entry list (the sections have the shape of the member blocks). *)
Record ClenOrganu : Type := {
  clen_datumVymazu : option string;
  clen_fyzickaOsoba : option FyzickaOsoba;
  clen_pravnickaOsoba : option PravnickaOsoba;
  clen_podil : list Podil }.

Record AkcionariOrgan : Type := {
  org_datumVymazu : option string;
  org_nazevOrganu : option string;
  org_clenoveOrganu : list ClenOrganu }.

Record ObchodniJmeno : Type := {
  oj_hodnota : option string;
  oj_datumVymazu : option string }.

Record Zaznam : Type := {
  primarniZaznam : bool;
  obchodniJmeno : list ObchodniJmeno;
  spolecnici : list SpolecniciBlok;
  akcionari : list AkcionariOrgan }.

(** A payload as the client returns it: a registry answer, or the
    error record [{"_error": ..., "_url": ...}] of a 400/404. *)
Record Payload : Type := {
  p_error : option string;
  p_url : option string;
  icoId : option string;
  zaznamy : list Zaznam }.

(** *** Helpers *)

Definition _pick_primary_or_record (zs : list Zaznam) : option Zaznam :=
  match zs with
  | [] => None
  | z0 :: _ =>
      match List.filter primarniZaznam zs with
      | p :: _ => Some p
      | [] => Some z0
      end
  end.

(** [_is_active_item], on the item's [datumVymazu] *)
Definition _is_active_item (datumVymazu : option string) : bool :=
  negb (Py.truthy datumVymazu).

(** [re.sub(r"\D", "", s)]: the digits of [s] *)
Definition digits_of (l : list ascii) : list ascii := List.filter Py.is_digit l.

Definition _normalize_ico (ico : option string) : option string :=
  match ico with
  | Some (String c s) =>
      let ds := Py.str (digits_of (Py.strip_l (Py.chars (String c s)))) in
      if Py.nonempty ds then Some (Py.zfill 8 ds) else None
  | _ => None
  end.

(** Calendar dates are compared through [10000*y + 100*m + d]. *)
Definition is_leap (y : Z) : bool :=
  ((y mod 4 =? 0) && negb (y mod 100 =? 0) || (y mod 400 =? 0))%Z.

Definition days_in_month (y m : Z) : Z :=
  if (m =? 2)%Z then (if is_leap y then 29 else 28)%Z
  else if ((m =? 4) || (m =? 6) || (m =? 9) || (m =? 11))%Z then 30%Z
  else 31%Z.

Definition datetime_min : Z := 10101.

(** [datetime.fromisoformat] on calendar dates [YYYY-MM-DD], the form of
    the registry's [datumZapisu]; anything else is [None]. *)
Definition fromisoformat (s : string) : option Z :=
  match Py.chars s with
  | [y1; y2; y3; y4; h1; m1; m2; h2; d1; d2] =>
      if forallb Py.is_digit [y1; y2; y3; y4; m1; m2; d1; d2]
         && Ascii.eqb h1 "-" && Ascii.eqb h2 "-"
      then
        let y := Num.digits_val [y1; y2; y3; y4] in
        let m := Num.digits_val [m1; m2] in
        let d := Num.digits_val [d1; d2] in
        if ((1 <=? y) && (1 <=? m) && (m <=? 12) && (1 <=? d)
            && (d <=? days_in_month y m))%Z
        then Some (10000 * y + 100 * m + d)%Z
        else None
      else None
  | _ => None
  end.

Definition _parse_date (s : option string) : option Z :=
  match s with
  | Some (String c r) => fromisoformat (String c r)
  | _ => None
  end.

(** The parser of share texts that returns per cent (0..100). *)
Definition _parse_pct_from_text (s : string) : option Q :=
  parse_layers (fun a b => (a / b) * 100)%Q (fun v => v) 100%Q s.

(** One part [f"{key}:{h} {t or ''}".strip()] of the compound text *)
Definition raw_part (key : string) (a : option Amount) : list string :=
  match a with
  | Some a =>
      match hodnota a with
      | Some h => [Py.strip (key +:+ ":" +:+ h +:+ " " +:+ Py.or_str (typObnos a) "")]
      | None => []
      end
  | None => []
  end.

Definition _compose_share_raw (p : Podil) : string :=
  Py.join "; "
    (raw_part "vklad" (vklad p) ++ raw_part "velikost" (velikostPodilu p)
       ++ raw_part "splaceno" (splaceni p)).

(** What one active share entry adds to [(pct_sum, pct_found)] *)
Definition podil_value (p : Podil) : option Q :=
  match velikostPodilu p with
  | Some vp =>
      match hodnota vp with
      | Some text_val =>
          if String.eqb (Py.upper (Py.or_str (typObnos vp) "")) "PROCENTA"
          then match _to_float text_val with
               | Some v => Some v
               | None => _parse_pct_from_text text_val
               end
          else _parse_pct_from_text text_val
      | None => None
      end
  | None => None
  end.

Definition _parse_share_from_podil_list (podily : list Podil) : option Q * string :=
  let active := List.filter (fun p => _is_active_item (podil_datumVymazu p)) podily in
  let raw_parts := map _compose_share_raw active in
  let '(pct_sum, pct_found) :=
    fold_left
      (fun acc p =>
         match podil_value p with
         | Some v => ((fst acc + v)%Q, true)
         | None => acc
         end)
      active (0%Q, false) in
  let raw := Py.str (take 1000 (Py.chars (Py.join "; " (List.filter Py.nonempty raw_parts)))) in
  ((if pct_found then Some (Num.clamp 100 pct_sum) else None), raw).

Definition _person_name (fos : FyzickaOsoba) : string :=
  let part (o : option string) := if Py.truthy o then [Py.or_str o ""] else [] in
  let parts := part (titulPredJmenem fos) ++ part (jmeno fos) ++ part (prijmeni fos) in
  let n := Py.strip (Py.join " " parts) in
  if Py.nonempty n then n else "Fyzická osoba (neznámá)".

Inductive Kind : Type := PERSON | COMPANY.

#[global] Instance Kind_eq_dec : EqDecision Kind.
Proof. solve_decision. Defined.

Definition kind_str (k : Kind) : string :=
  match k with PERSON => "PERSON" | COMPANY => "COMPANY" end.

Record Owner : Type := {
  kind : Kind;
  name : string;
  ico : option string;
  share_pct : option Q;
  share_raw : option string;
  label : string }.

(** The name and id of a legal person, as both loops compute them *)
Definition company_of (pos : PravnickaOsoba) : string * option string :=
  let o_ico := _normalize_ico (po_ico pos) in
  let o_name :=
    Py.strip
      (Py.or_str (po_obchodniJmeno pos)
         (Py.or_str (po_nazev pos)
            ("Společnost (IČO " +:+ Py.or_str o_ico "?" +:+ ")"))) in
  (o_name, o_ico).

(** The value stored in [latest] for a member *)
Record Latest : Type := {
  rec_label : string;
  rec_kind : Kind;
  rec_name : string;
  rec_ico : option string;
  rec_spolecnik : Spolecnik;
  rec_datumZapisu : option string }.

(** The body of the loop over the members of one block *)
Definition scan_spolecnik (label : string)
    (latest : list ((string * string) * Latest)) (sp : Spolecnik)
    : list ((string * string) * Latest) :=
  if negb (_is_active_item (sp_datumVymazu sp)) then latest else
  let fos := sp_osoba sp ≫= fyzickaOsoba in
  let pos := sp_osoba sp ≫= pravnickaOsoba in
  let who :=
    match pos, fos with
    | Some pos, _ =>
        let '(o_name, o_ico) := company_of pos in
        Some (COMPANY, o_name, o_ico, "COMPANY:" +:+ Py.or_str o_ico o_name)
    | None, Some fos =>
        let o_name := _person_name fos in
        Some (PERSON, o_name, None, "PERSON:" +:+ o_name)
    | None, None => None
    end in
  match who with
  | None => latest
  | Some (kind, o_name, o_ico, ident) =>
      let dz := _parse_date (sp_datumZapisu sp) in
      let key := (label, ident) in
      let prev := OD.get key latest in
      let prev_dz := prev ≫= (fun r => _parse_date (rec_datumZapisu r)) in
      let newer :=
        match prev with
        | None => true
        | Some _ => (default datetime_min prev_dz <? default datetime_min dz)%Z
        end in
      if newer
      then OD.set key
             {| rec_label := label; rec_kind := kind; rec_name := o_name;
                rec_ico := o_ico; rec_spolecnik := sp;
                rec_datumZapisu := sp_datumZapisu sp |} latest
      else latest
  end.

Definition scan_blok (latest : list ((string * string) * Latest)) (blok : SpolecniciBlok)
    : list ((string * string) * Latest) :=
  if negb (_is_active_item (blok_datumVymazu blok)) then latest else
  let label := Py.or_str (blok_nazevOrganu blok) "Společníci" in
  fold_left (scan_spolecnik label) (blok_spolecnik blok) latest.

Definition owner_of_latest (rec : Latest) : Owner :=
  let '(share_pct, raw) := _parse_share_from_podil_list (sp_podil (rec_spolecnik rec)) in
  {| kind := rec_kind rec; name := rec_name rec; ico := rec_ico rec;
     share_pct := share_pct;
     share_raw := if Py.nonempty raw then Some raw else None;
     label := rec_label rec |}.

(** The body of the loop over the members of one shareholder section *)
Definition scan_clen (label : string) (a : ClenOrganu) : list Owner :=
  if negb (_is_active_item (clen_datumVymazu a)) then [] else
  match clen_pravnickaOsoba a, clen_fyzickaOsoba a with
  | Some pos, _ =>
      let '(o_name, o_ico) := company_of pos in
      [ {| kind := COMPANY; name := o_name; ico := o_ico;
           share_pct := Some 100%Q; share_raw := None; label := label |} ]
  | None, Some fos =>
      [ {| kind := PERSON; name := _person_name fos; ico := None;
           share_pct := Some 100%Q; share_raw := None; label := label |} ]
  | None, None => []
  end.

Definition scan_org (org : AkcionariOrgan) : list Owner :=
  if negb (_is_active_item (org_datumVymazu org)) then [] else
  let label := Py.or_str (org_nazevOrganu org) "Akcionáři" in
  flat_map (scan_clen label) (org_clenoveOrganu org).

Definition extract_current_owners (vr_payload : Payload) : string * string * list Owner :=
  let company_ico := _normalize_ico (Some (Py.strip (Py.or_str (icoId vr_payload) ""))) in
  match _pick_primary_or_record (zaznamy vr_payload) with
  | None => (Py.or_str company_ico "", "Neznámý subjekt", [])
  | Some zaznam =>
      let oj := obchodniJmeno zaznam in
      let oj_active := List.filter (fun x => _is_active_item (oj_datumVymazu x)) oj in
      let name :=
        match last oj_active, last oj with
        | Some x, _ => Py.or_str (oj_hodnota x) "Neznámý subjekt"
        | None, Some x => Py.or_str (oj_hodnota x) "Neznámý subjekt"
        | None, None => "Neznámý subjekt"
        end in
      let latest := fold_left scan_blok (spolecnici zaznam) [] in
      let owners :=
        map (fun kv => owner_of_latest (snd kv)) latest
          ++ flat_map scan_org (akcionari zaznam) in
      (Py.or_str company_ico "", name, owners)
  end.

End AresVrExtract.

(* ================================================================== *)
(** ** src/ares_vr_client.py *)

Module AresVrClient.
Import AresVrExtract.

Definition norm_ico (s : string) : string :=
  let digits := digits_of (Py.chars s) in
  if Nat.eqb (length digits) 7 then Py.str ("0"%char :: digits) else Py.str digits.

Definition ARES_VR_URL (ico : string) : string :=
  "https://ares.gov.cz/ekonomicke-subjekty-v-be/rest/ekonomicke-subjekty-vr/" +:+ ico.

(** What one [requests.get] does: an HTTP answer with its status and its
    JSON body ([None] when [r.json()] raises), or a transport error. *)
Inductive Response : Type :=
| Http (status_code : N) (json : option Payload)
| TransportError.

(** The registry as the client sees it: the answer to the [n]-th request
    sent since the beginning, for a given URL. *)
Definition Server : Type := nat -> string -> Response.

Record AresClientConfig : Type := { max_retries : nat }.

(** The client's world: the cache table, and the log of the URLs
    requested so far (oldest first). *)
Record Client : Type := {
  cache : gmap string Payload;
  sent : list string }.

Inductive Reply : Type :=
| Returned (payload : Payload)
| RuntimeError.

Definition _cache_get (ico : string) (c : Client) : option Payload :=
  cache c !! ico.

(** [INSERT ... ON CONFLICT(ico) DO UPDATE] *)
Definition _cache_put (ico : string) (payload : Payload) (c : Client) : Client :=
  {| cache := <[ico := payload]> (cache c); sent := sent c |}.

Definition request (url : string) (c : Client) : Client :=
  {| cache := cache c; sent := sent c ++ [url] |}.

Definition error_record (status_code : N) (url : string) : Payload :=
  {| p_error := Some ("ARES HTTP " +:+ Num.string_of_N status_code);
     p_url := Some url; icoId := None; zaznamy := [] |}.

Section Client.
Variable server : Server.
Variable cfg : AresClientConfig.

(** The loop [for attempt in range(max_retries + 1)], [n] turns left *)
Fixpoint attempts (n : nat) (ico : string) (c : Client) : Reply * Client :=
  match n with
  | O => (RuntimeError, c)
  | S n' =>
      let url := ARES_VR_URL ico in
      let r := server (length (sent c)) url in
      let c := request url c in
      match r with
      | Http status_code json =>
          if (status_code =? 200)%N then
            match json with
            | Some payload => (Returned payload, _cache_put ico payload c)
            | None => attempts n' ico c
            end
          else if ((status_code =? 400) || (status_code =? 404))%N then
            let payload := error_record status_code url in
            (Returned payload, _cache_put ico payload c)
          else attempts n' ico c
      | TransportError => attempts n' ico c
      end
  end.

Definition get_vr (ico : string) (force_refresh : bool) (c : Client) : Reply * Client :=
  let ico := norm_ico ico in
  match (if force_refresh then None else _cache_get ico c) with
  | Some cached => (Returned cached, c)
  | None => attempts (S (max_retries cfg)) ico c
  end.

End Client.
End AresVrClient.

(* ================================================================== *)
(** ** src/ownership_resolve_online.py *)

Module OwnershipResolveOnline.
Module E := AresVrExtract.
Import AresVrClient.

Record NodeLine : Type := {
  depth : Z;
  label : string;
  text : string;
  effective_pct : option Q }.

(** A structured warning [{"kind", "ico", "name", "text"}] *)
Record Warning : Type := {
  w_kind : string;
  w_ico : string;
  w_name : string;
  w_text : string }.

(** The parser of share texts that returns a fraction of one. *)
Definition parse_pct_from_text (s : string) : option Q :=
  parse_layers (fun a b => a / b)%Q (fun v => v / 100)%Q 1%Q s.

Definition parse_effective_from_text (s : string) : option Q :=
  match Re.search Pat.EFEKTIVNE_RE (Py.strip s) with
  | Some (_, m, _) =>
      match _to_float (Pat.grp 1 m) with
      | Some v => Some (Num.clamp 1 (v / 100))
      | None => None
      end
  | None => None
  end.

(** *** The walker's effects

    A run of (a part of) the walk appends lines and warnings and uses the
    client; it ends normally, or with the [RuntimeError] of a fetch, or
    the model ran out of fuel. *)
Inductive Run : Type :=
| Done (ls : list NodeLine) (ws : list Warning) (c : Client)
| Failed (c : Client)
| NoFuel.

Definition then_run (r : Run) (k : Client -> Run) : Run :=
  match r with
  | Done ls ws c =>
      match k c with
      | Done ls' ws' c' => Done (ls ++ ls') (ws ++ ws') c'
      | Failed c' => Failed c'
      | NoFuel => NoFuel
      end
  | Failed c => Failed c
  | NoFuel => NoFuel
  end.

Fixpoint for_each {A : Type} (xs : list A) (body : A -> Client -> Run) (c : Client) : Run :=
  match xs with
  | [] => Done [] [] c
  | x :: xs' => then_run (body x c) (for_each xs' body)
  end.

Definition emit (ln : NodeLine) (c : Client) : Run := Done [ln] [] c.

(** *** The pieces of [walk] *)

Definition truncation_line (depth : Z) : NodeLine :=
  {| depth := depth; label := ""; text := "⚠️ Překročena max hloubka";
     effective_pct := None |}.

Definition error_text (ico : string) (payload : E.Payload) : string :=
  "⚠️ Nelze načíst ARES VR pro " +:+ ico +:+ ": " +:+ Py.or_str (E.p_error payload) "None".

Definition header_line (depth : Z) (parent_multiplier : Q) (c_name c_ico : string) : NodeLine :=
  {| depth := depth; label := "";
     text := c_name +:+ " (IČO " +:+ c_ico +:+ ")";
     effective_pct := if (depth =? 0)%Z then Some (parent_multiplier * 100)%Q else None |}.

Definition unresolved_warning (c_name c_ico : string) : Warning :=
  {| w_kind := "unresolved"; w_ico := c_ico; w_name := c_name;
     w_text := "⚠️ Nepodařilo se dohledat vlastníka v OR pro " +:+ c_name
               +:+ " (IČO " +:+ c_ico +:+ ")" |}.

(** [by_label.setdefault(o.label, []).append(o)] over the owners *)
Definition group_by_label (owners : list E.Owner) : list (string * list E.Owner) :=
  fold_left
    (fun by_label o =>
       OD.set (E.label o) (default [] (OD.get (E.label o) by_label) ++ [o]) by_label)
    owners [].

(** The local share of an owner (0..1) *)
Definition local_share (o : E.Owner) : option Q :=
  match E.share_pct o with
  | Some p => Some (p / 100)%Q
  | None =>
      if Py.truthy (E.share_raw o)
      then parse_pct_from_text (Py.or_str (E.share_raw o) "")
      else None
  end.

(** The share of an [efektivně X %] marker in the raw text *)
Definition eff_share (o : E.Owner) : option Q :=
  parse_effective_from_text (Py.or_str (E.share_raw o) "").

(** The branch [kind == "COMPANY" and ico] *)
Definition is_company (o : E.Owner) : bool :=
  bool_decide (E.kind o = E.COMPANY) && Py.truthy (E.ico o).

Definition raw_or_unknown (o : E.Owner) : string := Py.or_str (E.share_raw o) "?".

Definition owner_line (depth : Z) (label : string) (parent_multiplier : Q) (o : E.Owner)
    : NodeLine :=
  if is_company o then
    let '(pct_txt, eff_pct) :=
      match local_share o, eff_share o with
      | Some ls, _ =>
          (Num.fmt2 (ls * 100) +:+ "%", Some (parent_multiplier * ls * 100)%Q)
      | None, Some es => (raw_or_unknown o, Some (es * 100)%Q)
      | None, None => (raw_or_unknown o, None)
      end in
    {| depth := depth + 2; label := label;
       text := E.name o +:+ " — " +:+ pct_txt +:+ " (IČO " +:+ Py.or_str (E.ico o) "" +:+ ")";
       effective_pct := eff_pct |}
  else
    match local_share o, eff_share o with
    | Some ls, _ =>
        let eff_pct := (parent_multiplier * ls * 100)%Q in
        {| depth := depth + 2; label := label;
           text := E.name o +:+ " — " +:+ Num.fmt2 (ls * 100) +:+ "% (efektivně "
                   +:+ Num.fmt2 eff_pct +:+ "%)";
           effective_pct := Some eff_pct |}
    | None, Some es =>
        let base_txt :=
          match E.share_pct o with
          | Some p => Num.fmt2 p +:+ "%"
          | None => raw_or_unknown o
          end in
        {| depth := depth + 2; label := label;
           text := E.name o +:+ " — " +:+ base_txt +:+ " (efektivně "
                   +:+ Num.fmt2 (es * 100) +:+ "%)";
           effective_pct := Some (es * 100)%Q |}
    | None, None =>
        let raw :=
          if Py.truthy (E.share_raw o)
          then " — " +:+ Py.or_str (E.share_raw o) "" else "" in
        {| depth := depth + 2; label := label;
           text := E.name o +:+ raw; effective_pct := None |}
    end.

(** The multiplier handed to the header of a company owner *)
Definition next_mult (parent_multiplier : Q) (o : E.Owner) : Q :=
  match local_share o, eff_share o with
  | Some ls, _ => (parent_multiplier * ls)%Q
  | None, Some es => es
  | None, None => parent_multiplier
  end.

Section Resolve.
Variable server : Server.
Variable cfg : AresClientConfig.
Variable max_depth : Z.
Variable manual_overrides : gmap string (list (string * Q)).

(** One turn of the loop that builds [manual_owners]; a failing name
    lookup is swallowed by the [try] and keeps the fallback name. *)
Definition manual_owner (entry : string * Q) (c : Client) : E.Owner * Client :=
  let '(owner_ico, owner_share) := entry in
  let fallback := "Společnost (IČO " +:+ Py.zfill 8 owner_ico +:+ ")" in
  let '(reply, c) := get_vr server cfg owner_ico false c in
  let o_name_final :=
    match reply with
    | Returned p2 =>
        let '(_, _name2, _) := E.extract_current_owners p2 in
        if Py.nonempty _name2 then _name2 else fallback
    | RuntimeError => fallback
    end in
  ({| E.kind := E.COMPANY; E.name := o_name_final;
      E.ico := Some (Py.zfill 8 owner_ico);
      E.share_pct := Some (owner_share * 100)%Q;
      E.share_raw := Some ("velikost:" +:+ Num.fmt2 (owner_share * 100) +:+ " PROCENTA");
      E.label := "Manuálně doplněno" |}, c).

Fixpoint manual_owners (entries : list (string * Q)) (c : Client) : list E.Owner * Client :=
  match entries with
  | [] => ([], c)
  | e :: es =>
      let '(o, c) := manual_owner e c in
      let '(os, c) := manual_owners es c in
      (o :: os, c)
  end.

(** The owners of a node after the merge (registry, then manual) *)
Definition merged_owners (c_ico : string) (owners : list E.Owner) (c : Client)
    : list E.Owner * Client :=
  let '(manual, c) := manual_owners (default [] (manual_overrides !! c_ico)) c in
  (match manual with [] => owners | _ => owners ++ manual end, c).

(** The body of [for o in lst]; [walk] is the recursive call. *)
Definition visit_owner (walk : string -> Z -> Q -> Client -> Run)
    (depth : Z) (label : string) (parent_multiplier : Q) (o : E.Owner) (c : Client) : Run :=
  then_run (emit (owner_line depth label parent_multiplier o) c)
    (fun c =>
       if is_company o
       then walk (Py.or_str (E.ico o) "") (depth + 3)%Z (next_mult parent_multiplier o) c
       else Done [] [] c).

(** The body of [for label, lst in by_label.items()] *)
Definition visit_group (walk : string -> Z -> Q -> Client -> Run)
    (depth : Z) (parent_multiplier : Q) (g : string * list E.Owner) (c : Client) : Run :=
  then_run
    (emit {| depth := depth + 1; label := fst g; text := fst g +:+ ":";
             effective_pct := None |} c)
    (for_each (snd g) (visit_owner walk depth (fst g) parent_multiplier)).

(** [walk] after its depth guard: fetch, header, merge, warning, descent *)
Definition expand (walk : string -> Z -> Q -> Client -> Run)
    (ico : string) (depth : Z) (parent_multiplier : Q) (c : Client) : Run :=
  match get_vr server cfg ico false c with
  | (RuntimeError, c) => Failed c
  | (Returned payload, c) =>
      if Py.truthy (E.p_error payload) then
        let err_txt := error_text ico payload in
        Done [ {| depth := depth; label := ""; text := err_txt; effective_pct := None |} ]
             [ {| w_kind := "error"; w_ico := ico; w_name := ""; w_text := err_txt |} ] c
      else
        let '(c_ico, c_name, owners) := E.extract_current_owners payload in
        let '(owners, c) := merged_owners c_ico owners c in
        then_run
          (Done [header_line depth parent_multiplier c_name c_ico]
                (match owners with [] => [unresolved_warning c_name c_ico] | _ => [] end) c)
          (for_each (group_by_label owners) (visit_group walk depth parent_multiplier))
  end.

(** The body of [walk], the recursive calls being [walk] *)
Definition visit (walk : string -> Z -> Q -> Client -> Run)
    (ico : string) (depth : Z) (parent_multiplier : Q) (c : Client) : Run :=
  if (depth >? max_depth)%Z
  then Done [truncation_line depth] [] c
  else expand walk ico depth parent_multiplier c.

(** [walk], with the number of nested calls bounded by [fuel] *)
Fixpoint walk (fuel : nat) (ico : string) (depth : Z) (parent_multiplier : Q) (c : Client) : Run :=
  match fuel with
  | O => NoFuel
  | S fuel' => visit (walk fuel') ico depth parent_multiplier c
  end.

(** Nested calls are three levels apart and stop past [max_depth]. *)
Definition enough_fuel : nat := Z.to_nat max_depth + 2.

Definition resolve_tree_online (root_ico : string) (c : Client) : Run :=
  walk enough_fuel root_ico 0 1 c.

End Resolve.
End OwnershipResolveOnline.

(* ================================================================== *)
(** ** src/app.py *)

Module App.
Import OwnershipResolveOnline.

(** The copy of the share-text parser in this file *)
Definition parse_pct_from_text (s : string) : option Q :=
  parse_layers (fun a b => a / b)%Q (fun v => v / 100)%Q 1%Q s.

(** [f"{(x * 100.0):.2f}%"]; it serves the decision of the form, where the
    product is a float. *)
Definition fmt_pct (x : Q) : string := Num.fmt2 (Num.fmul x 100) +:+ "%".

(** *** [compute_effective_persons] *)

Record DebugPath : Type := {
  dp_parent_depth : Z;
  dp_parent_mult : Q;
  dp_local_share : option Q;
  dp_eff : option Q;
  dp_source : string;
  dp_text : string }.

Record Entry : Type := {
  ownership : Q;
  voting : Q;
  paths : list (Z * option Q * string);
  debug_paths : list DebugPath }.

(** The loop state; the top of [header_stack] is the head of the list. *)
Record Scan : Type := {
  persons : list (string * Entry);
  header_stack : list (Z * Q);
  pending_next_header_mult : option Q }.

(** [while header_stack and keep(header_stack[-1][0]): header_stack.pop()] *)
Fixpoint pop_while (drop : Z -> bool) (stack : list (Z * Q)) : list (Z * Q) :=
  match stack with
  | (d, m) :: rest => if drop d then pop_while drop rest else stack
  | [] => []
  end.

Definition top_mult (stack : list (Z * Q)) : Q :=
  match stack with (_, m) :: _ => m | [] => 1%Q end.
Definition top_depth (stack : list (Z * Q)) : Z :=
  match stack with (d, _) :: _ => d | [] => 0%Z end.

(** The value of an [efektivně X %] marker in a line, in per cent *)
Definition efektivne_pct (t : string) : option Q :=
  match Re.search Pat.EFEKTIVNE_RE t with
  | Some (_, m, _) => _to_float (Pat.grp 1 m)
  | None => None
  end.

(** [DASH_SPLIT.split(t, maxsplit=1)[0].strip()] *)
Definition owner_name (t : string) : string :=
  match Re.search Pat.DASH_SPLIT t with
  | Some (before, _, _) => Py.str (Py.strip_l before)
  | None => Py.strip t
  end.

Definition is_header (t : string) : bool :=
  match Re.match_at Pat.RE_COMPANY_HEADER (Py.chars t) with
  | Some _ => true
  | None => false
  end.

Definition is_label (t : string) : bool := Py.ends_with_colon (Py.chars t).

Definition is_company_line (t : string) : bool :=
  match Re.search Pat.ICO_IN_LINE t with
  | Some _ => true
  | None => false
  end.

Inductive LineClass : Type := Blank | Header | Label | CompanyOwner | PersonOwner.

(** The order of the tests in the loop *)
Definition classify (t : string) : LineClass :=
  if negb (Py.nonempty t) then Blank
  else if is_header t then Header
  else if is_label t then Label
  else if is_company_line t then CompanyOwner
  else PersonOwner.

Definition new_entry : Entry :=
  {| ownership := 0; voting := 0; paths := []; debug_paths := [] |}.

(** What a person line contributes: [(local_share, eff, src)] *)
Definition person_contribution (node_eff : option Q) (parent_mult : Q) (t : string)
    : option Q * option Q * option string :=
  match node_eff with
  | Some e => (None, Some e, Some "node_eff(person)")
  | None =>
      match parse_pct_from_text t with
      | Some ls => (Some ls, Some (parent_mult * ls)%Q, Some "text(person)")
      | None =>
          match efektivne_pct t with
          | Some eff_pct => (None, Some (eff_pct / 100)%Q, Some "efektivně_text(person)")
          | None => (None, None, None)
          end
      end
  end.

(** The local share of a company owner line *)
Definition company_local_share (node_eff : option Q) (parent_mult : Q) (t : string)
    : option Q :=
  let from_text :=
    match parse_pct_from_text t with
    | Some ls => Some ls
    | None =>
        match efektivne_pct t with
        | Some eff_pct =>
            if Num.Qgtb parent_mult 0
            then Some ((eff_pct / 100) / parent_mult)%Q else None
        | None => None
        end
    end in
  match node_eff with
  | Some e => if Num.Qgtb parent_mult 0 then Some (e / parent_mult)%Q else from_text
  | None => from_text
  end.

(** The entry of a person after one of its lines *)
Definition add_path (entry : Entry) (parent_depth : Z) (parent_mult : Q)
    (contribution : option Q * option Q * option string) (t : string) : Entry :=
  let '(local_share, eff, src) := contribution in
  {| ownership := match eff with Some e => (ownership entry + e)%Q | None => ownership entry end;
     voting := match eff with Some e => (voting entry + e)%Q | None => voting entry end;
     paths := paths entry ++ [(parent_depth, eff, t)];
     debug_paths :=
       debug_paths entry ++
       [ {| dp_parent_depth := parent_depth; dp_parent_mult := parent_mult;
            dp_local_share := local_share; dp_eff := eff;
            dp_source := default "unknown" src; dp_text := t |} ] |}.

(** The body of the loop over the lines *)
Definition scan_line (st : Scan) (ln : NodeLine) : Scan :=
  let depth := depth ln in
  let t := text ln in
  match classify t with
  | Blank | Label => st
  | Header =>
      let stack := pop_while (fun d => (d >=? depth)%Z) (header_stack st) in
      let parent_mult := top_mult stack in
      let this_mult := default parent_mult (pending_next_header_mult st) in
      {| persons := persons st;
         header_stack := (depth, this_mult) :: stack;
         pending_next_header_mult := None |}
  | CompanyOwner | PersonOwner =>
      let expected_parent_header_depth := Z.max 0 (depth - 2) in
      let stack :=
        pop_while (fun d => (d >? expected_parent_header_depth)%Z) (header_stack st) in
      let parent_mult := top_mult stack in
      let parent_depth := top_depth stack in
      let node_eff :=
        match effective_pct ln with
        | Some e => Some (e / 100)%Q
        | None => None
        end in
      match classify t with
      | CompanyOwner =>
          let local_share := company_local_share node_eff parent_mult t in
          {| persons := persons st;
             header_stack := stack;
             pending_next_header_mult :=
               match local_share with
               | Some ls => Some (parent_mult * ls)%Q
               | None => None
               end |}
      | _ =>
          let name := owner_name t in
          let entry := default new_entry (OD.get name (persons st)) in
          {| persons :=
               OD.set name
                 (add_path entry parent_depth parent_mult
                    (person_contribution node_eff parent_mult t) t)
                 (persons st);
             header_stack := stack;
             pending_next_header_mult := pending_next_header_mult st |}
      end
  end.

Definition clamp_entry (v : Entry) : Entry :=
  {| ownership := Num.clamp 1 (ownership v);
     voting := Num.clamp 1 (voting v);
     paths := paths v; debug_paths := debug_paths v |}.

Definition scan_lines (lines : list NodeLine) : Scan :=
  fold_left scan_line lines
    {| persons := []; header_stack := []; pending_next_header_mult := None |}.

Definition compute_effective_persons (lines : list NodeLine) : list (string * Entry) :=
  map (fun kv => (fst kv, clamp_entry (snd kv))) (persons (scan_lines lines)).

(** *** The decision of the submitted form *)

Record Vals : Type := {
  cap : Q;
  vote : Q;
  veto : bool;
  org_majority : bool;
  substitute_ubo : bool }.

(** The record stored for a person added by hand, and for the shares
    edited in the form: the percentages entered are divided by [100.0]. *)
Definition manual_person (manual_cap manual_vote : Q)
    (manual_veto manual_org_majority manual_substitute_ubo : bool) : Vals :=
  {| cap := Num.fdiv manual_cap 100;
     vote := Num.fdiv manual_vote 100;
     veto := manual_veto;
     org_majority := manual_org_majority;
     substitute_ubo := manual_substitute_ubo |}.

(** [reasons.get(n, [])] *)
Definition reasons_of (n : string) (reasons : list (string * list string)) : list string :=
  default [] (OD.get n reasons).

(** [reasons.setdefault(n, []).append(r)] *)
Definition add_reason (n r : string) (reasons : list (string * list string))
    : list (string * list string) :=
  OD.set n (reasons_of n reasons ++ [r]) reasons.

Definition add_reason_if (b : bool) (n r : string) (reasons : list (string * list string))
    : list (string * list string) :=
  if b then add_reason n r reasons else reasons.

Section Decision.
Variable final_persons : list (string * Vals).
Variable block_members : list string.
Variable block_name : string.
Variable threshold_pct : Q.

(** [sum(final_persons.get(n, {"vote": 0.0})["vote"] for n in block_members)
    if block_members else 0.0]: the votes are added from left to right,
    starting from 0, each sum a float. *)
Definition block_total : Q :=
  fold_left (fun acc n => Num.fadd acc match OD.get n final_persons with
                                       | Some v => vote v
                                       | None => 0
                                       end) block_members 0%Q.

(** [thr = (threshold_pct / 100.0)] *)
Definition thr : Q := Num.fdiv threshold_pct 100.

Definition is_ubo (vals : Vals) : bool :=
  Num.Qgtb (cap vals) thr || Num.Qgtb (vote vals) thr
  || veto vals || org_majority vals || substitute_ubo vals.

(** The body of [for n, vals in final_persons.items()] *)
Definition judge (acc : list (string * Vals) * list (string * list string))
    (nv : string * Vals) : list (string * Vals) * list (string * list string) :=
  let '(ubo, reasons) := acc in
  let '(n, vals) := nv in
  let reasons :=
    add_reason_if (Num.Qgtb (cap vals) thr) n
      ("podíl na kapitálu " +:+ fmt_pct (cap vals) +:+ " > " +:+ Num.fmt2 threshold_pct +:+ "%")
      reasons in
  let reasons :=
    add_reason_if (Num.Qgtb (vote vals) thr) n
      ("hlasovací práva " +:+ fmt_pct (vote vals) +:+ " > " +:+ Num.fmt2 threshold_pct +:+ "%")
      reasons in
  let reasons := add_reason_if (veto vals) n "právo veta → rozhodující vliv" reasons in
  let reasons :=
    add_reason_if (org_majority vals) n
      "jmenuje/odvolává většinu orgánu → rozhodující vliv" reasons in
  let reasons :=
    add_reason_if (substitute_ubo vals) n "náhradní skutečný majitel (§ 5 ZESM)" reasons in
  ((if is_ubo vals then OD.set n vals ubo else ubo), reasons).

Definition block_reason : string :=
  "účast v voting blocku „" +:+ block_name +:+ "“ s " +:+ fmt_pct block_total
    +:+ " > " +:+ Num.fmt2 threshold_pct +:+ "%".

(** The body of [for n in block_members] *)
Definition promote (acc : list (string * Vals) * list (string * list string)) (n : string)
    : list (string * Vals) * list (string * list string) :=
  let '(ubo, reasons) := acc in
  match OD.get n final_persons with
  | Some vals => (OD.set n vals ubo, add_reason n block_reason reasons)
  | None => acc
  end.

(** [if block_members and block_total > thr] *)
Definition block_applies : bool :=
  match block_members with
  | [] => false
  | _ :: _ => Num.Qgtb block_total thr
  end.

Definition voting_block (acc : list (string * Vals) * list (string * list string))
    : list (string * Vals) * list (string * list string) :=
  if block_applies then fold_left promote block_members acc else acc.

Definition individual_criteria : list (string * Vals) * list (string * list string) :=
  fold_left judge final_persons ([], []).

(** [(ubo, reasons)] at the end of the submitted branch *)
Definition evaluate : list (string * Vals) * list (string * list string) :=
  voting_block individual_criteria.

End Decision.
End App.

(* ================================================================== *)
(** ** Sample registry data *)

Module Examples.
Import AresVrExtract AresVrClient.

Definition person (first last : string) : FyzickaOsoba :=
  {| titulPredJmenem := None; jmeno := Some first; prijmeni := Some last |}.

Definition company (id nm : string) : PravnickaOsoba :=
  {| po_ico := Some id; po_obchodniJmeno := Some nm; po_nazev := None |}.

Definition percent (h : string) : Podil :=
  {| podil_datumVymazu := None; vklad := None;
     velikostPodilu := Some {| typObnos := Some "PROCENTA"; hodnota := Some h |};
     splaceni := None |}.

Definition member_person (fo : FyzickaOsoba) (podil : list Podil) : Spolecnik :=
  {| sp_datumVymazu := None; sp_datumZapisu := Some "2020-01-01";
     sp_osoba := Some {| fyzickaOsoba := Some fo; pravnickaOsoba := None |};
     sp_podil := podil |}.

Definition member_company (po : PravnickaOsoba) (podil : list Podil) : Spolecnik :=
  {| sp_datumVymazu := None; sp_datumZapisu := Some "2020-01-01";
     sp_osoba := Some {| fyzickaOsoba := None; pravnickaOsoba := Some po |};
     sp_podil := podil |}.

Definition shareholder (fo : FyzickaOsoba) (podil : list Podil) : ClenOrganu :=
  {| clen_datumVymazu := None; clen_fyzickaOsoba := Some fo;
     clen_pravnickaOsoba := None; clen_podil := podil |}.

Definition record (id nm : string) (members : list Spolecnik)
    (sections : list AkcionariOrgan) : Payload :=
  {| p_error := None; p_url := None; icoId := Some id;
     zaznamy :=
       [ {| primarniZaznam := true;
            obchodniJmeno := [ {| oj_hodnota := Some nm; oj_datumVymazu := None |} ];
            spolecnici :=
              match members with
              | [] => []
              | _ => [ {| blok_datumVymazu := None; blok_nazevOrganu := Some "Společníci";
                          blok_spolecnik := members |} ]
              end;
            akcionari := sections |} ] |}.

(** A joint-stock company whose section "Akcionáři" lists two
    shareholders with explicit shares of 30 % and 70 %. *)
Definition two_shareholders : Payload :=
  record "01234567" "Firma a.s." []
    [ {| org_datumVymazu := None; org_nazevOrganu := Some "Akcionáři";
         org_clenoveOrganu :=
           [ shareholder (person "Jan" "Horák") [percent "30"];
             shareholder (person "Eva" "Dvořák") [percent "70"] ] |} ].

(** Scenario 1 of the specification: one person owning 50 %. *)
Definition root_novak : Payload :=
  record "00000001" "Root" [ member_person (person "Jan" "Novák") [percent "50"] ] [].

(** A chain: the root is owned 100 % by a company that a person owns at 40 %. *)
Definition root_chain : Payload :=
  record "00000001" "A" [ member_company (company "00000002" "B") [percent "100"] ] [].
Definition child_chain : Payload :=
  record "00000002" "B" [ member_person (person "Petr" "Svoboda") [percent "40"] ] [].

(** A company without any owner in the registry *)
Definition no_owner : Payload := record "00000001" "Root" [] [].

Definition cfg4 : AresClientConfig := {| max_retries := 4 |}.

Definition fresh : Client := {| cache := ∅; sent := [] |}.

Definition cached (rows : list (string * Payload)) : Client :=
  {| cache := list_to_map rows; sent := [] |}.

(** A registry that is never reached *)
Definition offline : Server := fun _ _ => TransportError.

(** A registry that answers 500 once and 200 afterwards *)
Definition flaky (p : Payload) : Server :=
  fun n _ => match n with O => Http 500 None | S _ => Http 200 (Some p) end.

(** The chain, fully cached, and its trace *)
Definition chain_cache : Client :=
  cached [("00000001", root_chain); ("00000002", child_chain)].

Definition chain_lines : list OwnershipResolveOnline.NodeLine :=
  match OwnershipResolveOnline.resolve_tree_online offline cfg4 25 ∅ "00000001" chain_cache with
  | OwnershipResolveOnline.Done ls _ _ => ls
  | _ => []
  end.

(** The last line of that trace, the person at the end of the chain *)
Definition svoboda_line : OwnershipResolveOnline.NodeLine :=
  nth 5 chain_lines (OwnershipResolveOnline.truncation_line 0).

(** The [flaky] registry as seen by a client that has already sent one
    request elsewhere *)
Definition flaky_later (p : Payload) : Server := fun n url => flaky p (pred n) url.

Definition busy : Client := {| cache := ∅; sent := ["https://ares.gov.cz/"] |}.

End Examples.

(* ================================================================== *)
(** ** Vocabulary of the statements *)

Module Spec.
Import AresVrExtract AresVrClient OwnershipResolveOnline.

(** The payload with which an answer ends the retry loop, if it does:
    a 200 with a JSON body, or the error record of a 400 or 404. *)
Definition definitive (url : string) (r : Response) : option Payload :=
  match r with
  | Http status_code json =>
      if (status_code =? 200)%N then json
      else if ((status_code =? 400) || (status_code =? 404))%N
           then Some (error_record status_code url)
           else None
  | TransportError => None
  end.

Definition product (shares : list Q) : Q := fold_right Qmult 1%Q shares.

(** The text of the line of the node a warning was raised at: the error
    line itself, or the header of the company without owners. *)
Definition warning_line (w : Warning) : string :=
  if String.eqb (w_kind w) "error" then w_text w
  else w_name w +:+ " (IČO " +:+ w_ico w +:+ ")".

(** Two clients in front of two registries that answer alike from now on *)
Definition agree (s1 s2 : Server) (c1 c2 : Client) : Prop :=
  cache c1 = cache c2
  /\ forall n url, s1 (length (sent c1) + n)%nat url = s2 (length (sent c2) + n)%nat url.

Definition same_outcome (s1 s2 : Server) (r1 r2 : Run) : Prop :=
  match r1, r2 with
  | Done ls1 ws1 c1, Done ls2 ws2 c2 => ls1 = ls2 /\ ws1 = ws2 /\ agree s1 s2 c1 c2
  | Failed c1, Failed c2 => agree s1 s2 c1 c2
  | NoFuel, NoFuel => True
  | _, _ => False
  end.


End Spec.

Module UboExamples.
Import App.

(** A person with the voting share [v], as the float nearest to it *)
Definition holder (v : Q) : Vals :=
  {| cap := 0; vote := Num.round64 v; veto := false; org_majority := false;
     substitute_ubo := false |}.

(** Scenario 6 of the specification: three persons at 10 % of the votes. *)
Definition three_at_ten : list (string * Vals) :=
  [ ("Adam", holder (10 # 100)); ("Bára", holder (10 # 100)); ("Cyril", holder (10 # 100)) ].

(** Two persons whose votes add up to the threshold of 25 %. *)
Definition exactly_at_threshold : list (string * Vals) :=
  [ ("Adam", holder (10 # 100)); ("Bára", holder (15 # 100)) ].

(** The voting shares, in percent, typed into the form for three persons
    added by hand, and the records the form stores for them *)
Definition entered_votes : list (string * Q) :=
  [ ("Adam", 10); ("Bára", 10); ("Cyril", 10) ]%Q.

Definition entered (votes : list (string * Q)) : list (string * Vals) :=
  map (fun nv => (fst nv, manual_person 0 (snd nv) false false false)) votes.

End UboExamples.

(* ================================================================== *)
(** ** src/app.py: the rendered trace *)

Module AppLines.
Import OwnershipResolveOnline.

(** [INDENT_RE]: a line start, one or more spaces (group 1), the rest of
    the line (group 2), the end *)
Definition INDENT_RE : Re.regex :=
  Re.seq [Re.Grp 1 (Re.plus (Re.chr " ")); Re.Grp 2 (Re.Star Re.dot); Re.Eos].

(** [rstrip] of the newline character *)
Fixpoint lstrip_newlines (l : list ascii) : list ascii :=
  match l with
  | c :: l' => if Ascii.eqb c "010" then lstrip_newlines l' else l
  | [] => []
  end.
Definition rstrip_newlines (s : string) : string :=
  Py.str (rev (lstrip_newlines (rev (Py.chars s)))).

(** [_line_depth_text] on a line of the trace *)
Definition _line_depth_text (ln : NodeLine) : Z * string := (depth ln, text ln).

(** [_line_depth_text] on a line of rendered text *)
Definition _line_depth_text_str (ln : string) : Z * string :=
  let s := rstrip_newlines ln in
  match Re.match_at INDENT_RE (Py.chars s) with
  | Some (_, m) =>
      let spaces := String.length (Pat.grp 1 m) in
      (Z.of_nat (spaces / 4), Py.strip (Pat.grp 2 m))
  | None => (0%Z, s)
  end.

(** One turn of [render_lines]: [f"{indent}{text}"] with
    [indent = "    " * max(0, depth)] *)
Definition render_line (ln : NodeLine) : string :=
  let '(depth, text) := _line_depth_text ln in
  Py.str (repeat " "%char (4 * Z.to_nat (Z.max 0 depth))) +:+ text.

Definition render_lines (lines : list NodeLine) : list string := map render_line lines.

(** A text that [strip] and the pattern's [.] leave as it is: no white space
    at either end and no newline inside. *)
Definition plain (t : string) : bool :=
  String.eqb (Py.strip t) t
  && forallb (fun c => negb (Ascii.eqb c "010")) (Py.chars t).

(** The loop of [Re.run] at a starred pattern, with its fuel made a
    parameter. *)
Section StarLoop.
Context {R : Type} (r : Re.regex) (k : list ascii -> Re.caps -> option R).

Fixpoint star_loop (n : nat) (s : list ascii) (cs : Re.caps) : option R :=
  match n with
  | O => k s cs
  | S n' =>
      match Re.run r s cs
              (fun s' cs' =>
                 if Nat.ltb (length s') (length s)
                 then star_loop n' s' cs' else None) with
      | Some x => Some x
      | None => k s cs
      end
  end.

End StarLoop.

End AppLines.

(* ================================================================== *)
(** ** Further vocabulary of the statements *)

Module Notions.
Import AresVrExtract AresVrClient.

(** The identity under which the member loop files a member: the text
    [f"{kind}:{o_ico or o_name}"], when the member names a person. *)
Definition member_ident (sp : Spolecnik) : option string :=
  match sp_osoba sp ≫= pravnickaOsoba, sp_osoba sp ≫= fyzickaOsoba with
  | Some pos, _ =>
      let '(o_name, o_ico) := company_of pos in
      Some ("COMPANY:" +:+ Py.or_str o_ico o_name)
  | None, Some fos => Some ("PERSON:" +:+ _person_name fos)
  | None, None => None
  end.

(** The registration date the loop compares: [dz or datetime.min] *)
Definition member_date (datumZapisu : option string) : Z :=
  default datetime_min (_parse_date datumZapisu).

(** The key of an owner: label, kind and registry id or, without one,
    name *)
Definition owner_key (o : Owner) : string * Kind * string :=
  (label o, kind o, Py.or_str (ico o) (name o)).

Definition is_deleted (datumVymazu : option string) : Prop :=
  _is_active_item datumVymazu = false.

(** What the extractor promises of an owner record: a label, a name for
    a person, and a registry id for companies only, of digits and at least
    eight characters long. *)
Definition well_formed_owner (o : Owner) : Prop :=
  AresVrExtract.label o <> ""
  /\ (kind o = PERSON -> ico o = None /\ name o <> "")
  /\ (forall i, ico o = Some i ->
        kind o = COMPANY /\ forallb Py.is_digit (Py.chars i) = true
        /\ (8 <= String.length i)%nat).

(** The same promise for a record filed in [latest] *)
Definition filed_well (kv : (string * string) * Latest) : Prop :=
  rec_label (snd kv) <> ""
  /\ (rec_kind (snd kv) = PERSON -> rec_ico (snd kv) = None /\ rec_name (snd kv) <> "")
  /\ (forall i, rec_ico (snd kv) = Some i ->
        rec_kind (snd kv) = COMPANY /\ forallb Py.is_digit (Py.chars i) = true
        /\ (8 <= String.length i)%nat).

(** The key under which a record is filed in [latest] *)
Definition filed_key (rec : Latest) : string * string :=
  (rec_label rec,
   kind_str (rec_kind rec) +:+ ":" +:+ Py.or_str (rec_ico rec) (rec_name rec)).

(** The invariant of [latest]: keys are distinct, and each record is
    filed under its own key with the date of its member. *)
Definition tidy (latest : list ((string * string) * Latest)) : Prop :=
  List.NoDup (map fst latest)
  /\ Forall (fun kv => fst kv = filed_key (snd kv)
                       /\ rec_datumZapisu (snd kv) = sp_datumZapisu (rec_spolecnik (snd kv)))
       latest.

(** A member block, or a shareholder section, without a current member *)
Definition blok_dead (b : SpolecniciBlok) : Prop :=
  is_deleted (blok_datumVymazu b)
  \/ Forall (fun sp => is_deleted (sp_datumVymazu sp)) (blok_spolecnik b).

Definition org_dead (g : AkcionariOrgan) : Prop :=
  is_deleted (org_datumVymazu g)
  \/ Forall (fun a => is_deleted (clen_datumVymazu a)) (org_clenoveOrganu g).

(** The client at the end of a run that ended *)
Definition final_client (r : OwnershipResolveOnline.Run) : option Client :=
  match r with
  | OwnershipResolveOnline.Done _ _ c => Some c
  | OwnershipResolveOnline.Failed c => Some c
  | OwnershipResolveOnline.NoFuel => None
  end.

(** The world of a client only grows: cached rows stay as they are,
    requests are added to the log. *)
Definition grows (c c' : Client) : Prop :=
  cache c ⊆ cache c' /\ sent c `prefix_of` sent c'.

(** The sum of the effective values of recorded paths, null counting
    for nothing *)
Definition paths_total (ps : list (Z * option Q * string)) : Q :=
  fold_right (fun p acc => default 0%Q (snd (fst p)) + acc)%Q 0%Q ps.

(** The lines of a trace that the aggregation files under a name *)
Definition named (name : string) (ln : OwnershipResolveOnline.NodeLine) : bool :=
  match App.classify (OwnershipResolveOnline.text ln) with
  | App.PersonOwner => bool_decide (App.owner_name (OwnershipResolveOnline.text ln) = name)
  | _ => false
  end.

(** What the aggregation keeps of every entry before the final clamp *)
Definition balanced (e : App.Entry) : Prop :=
  App.voting e = App.ownership e
  /\ (App.ownership e == paths_total (App.paths e))%Q
  /\ length (App.paths e) = length (App.debug_paths e).

(** What the decision keeps of its result: a person in [ubo] has a
    reason. *)
Definition justified (acc : list (string * App.Vals) * list (string * list string)) : Prop :=
  forall n, OD.mem n (fst acc) = true -> App.reasons_of n (snd acc) <> [].

End Notions.

(* ================================================================== *)
(** ** Further sample data *)

Module MoreExamples.
Import AresVrExtract AresVrClient.

(** A member entry with a date of deletion *)
Definition deleted_member : Spolecnik :=
  {| sp_datumVymazu := Some "2021-05-01"; sp_datumZapisu := Some "2019-01-01";
     sp_osoba := Some {| fyzickaOsoba := Some (Examples.person "Jan" "Novák");
                         pravnickaOsoba := None |};
     sp_podil := [Examples.percent "50"] |}.

(** A company all of whose entries are deleted *)
Definition all_deleted : Payload :=
  Examples.record "00000001" "Root" [deleted_member]
    [ {| org_datumVymazu := Some "2021-05-01"; org_nazevOrganu := Some "Akcionáři";
         org_clenoveOrganu := [Examples.shareholder (Examples.person "Eva" "Dvořák") []] |} ].

(** Two registrations of the same member, the older one listed last *)
Definition registered (date share : string) : Spolecnik :=
  {| sp_datumVymazu := None; sp_datumZapisu := Some date;
     sp_osoba := Some {| fyzickaOsoba := Some (Examples.person "Jan" "Novák");
                         pravnickaOsoba := None |};
     sp_podil := [Examples.percent share] |}.

Definition twice_registered : Payload :=
  Examples.record "00000001" "Root"
    [registered "2022-06-01" "60"; registered "2020-01-01" "40"] [].

(** A person holding exactly the threshold of 25 % and one holding more *)
Definition at_and_above : list (string * App.Vals) :=
  [ ("Adam", App.manual_person 25 25 false false false);
    ("Bára", App.manual_person 30 10 false false false) ].

(** A registry that knows no id *)
Definition unknown : Server := fun _ _ => Http 404 None.

End MoreExamples.


(* ================================================================== *)
(** ** Sample traces for the aggregation *)

Module TraceExamples.
Import OwnershipResolveOnline.

(** The person at the end of the chain once more, on a line without any
    share information *)
Definition bare_svoboda_line : NodeLine :=
  {| depth := 5; label := "Společníci"; text := "Petr Svoboda"; effective_pct := None |}.

End TraceExamples.

(* ================================================================== *)
(** ** The recursive calls below a node *)

Module Descent.
Import AresVrExtract AresVrClient OwnershipResolveOnline.

(** The calls of [w] for the companies [companies], in turn, three levels
    below [depth]: each call starts with the client that the previous one
    left, and [ws] are the warnings of the calls, in their order. *)
Inductive calls (w : string -> Z -> Q -> Client -> Run) (depth : Z) (pm : Q)
    : list Owner -> Client -> list Warning -> Client -> Prop :=
| calls_nil (c : Client) : calls w depth pm [] c [] c
| calls_cons (o : Owner) (os : list Owner) (c c1 c2 : Client)
    (ls : list NodeLine) (ws ws' : list Warning) :
    w (Py.or_str (ico o) "") (depth + 3)%Z (next_mult pm o) c = Done ls ws c1 ->
    calls w depth pm os c1 ws' c2 ->
    calls w depth pm (o :: os) c (ws ++ ws') c2.

(** The company owners of a node, in the order of their lines *)
Definition companies (owners : list Owner) : list Owner :=
  List.filter is_company (concat (map snd (group_by_label owners))).

End Descent.

(* ================================================================== *)
(** ** Sample data with a manual override *)

Module OverrideExamples.
Import AresVrExtract AresVrClient.

(** Scenario 5 of the specification with its override: the root has no
    owner in the registry, and company B is declared by hand to hold one
    half of it. *)
Definition overrides : gmap string (list (string * Q)) :=
  {[ "00000001" := [("00000002", 1 # 2)] ]}.

Definition rows : Client :=
  Examples.cached [("00000001", Examples.no_owner); ("00000002", Examples.child_chain)].

End OverrideExamples.

(* ================================================================== *)
(** ** The ancestors of a line in the trace *)

Module Lineage.
Import AresVrExtract AresVrClient OwnershipResolveOnline.

(** The ancestors of a line among the lines before it, nearest first:
    going back from the line, the first line three levels above it, then
    the first line before that one three levels higher again, and so on.
    [before] holds the lines before the line, latest first, and [target]
    is the depth looked for. *)
Fixpoint ancestors (target : Z) (before : list NodeLine) : list NodeLine :=
  match before with
  | [] => []
  | a :: rest =>
      if (depth a =? target)%Z
      then a :: ancestors (target - 3) rest
      else ancestors target rest
  end.

(** The multiplier that the trace shows above a line with the ancestors
    [anc], in a walk that starts under [pm]: the percentage carried by the
    nearest ancestor that carries one, as a fraction. *)
Fixpoint multiplier (pm : Q) (anc : list NodeLine) : Q :=
  match anc with
  | [] => pm
  | a :: rest =>
      match effective_pct a with
      | Some e => (e / 100)%Q
      | None => multiplier pm rest
      end
  end.

(** The company a path of owners ends at (the path is given nearest
    first): that of its nearest owner, [top] for the empty path. *)
Definition node_of (top : string) (path : list Owner) : string :=
  match path with
  | [] => top
  | o :: _ => Py.or_str (ico o) ""
  end.

Section Registry.
Variable server : Server.
Variable cfg : AresClientConfig.
Variable manual_overrides : gmap string (list (string * Q)).

(** [o] is an owner of the company [id]: the client has returned a record
    for [id], and [o] is among the owners extracted from it and merged
    with the overrides. *)
Definition reported (id : string) (o : Owner) : Prop :=
  exists (c : Client) (payload : Payload) (c1 : Client),
    get_vr server cfg id false c = (Returned payload, c1)
    /\ Py.truthy (p_error payload) = false
    /\ In o (fst (merged_owners server cfg manual_overrides
                    (fst (fst (extract_current_owners payload)))
                    (snd (extract_current_owners payload)) c1)).

(** In a walk from the company [top] at depth [d] under [pm], the lines
    [anc] (nearest first) are the owner lines of the companies [path]
    (nearest first): each company is an owner of the company before it,
    and its line is written under the multiplier that the trace shows
    above it. *)
Inductive lineage (top : string) (d : Z) (pm : Q) : list NodeLine -> list Owner -> Prop :=
| lineage_nil : lineage top d pm [] []
| lineage_cons (a : NodeLine) (anc : list NodeLine) (o : Owner) (path : list Owner) (m : Q) :
    lineage top d pm anc path ->
    is_company o = true ->
    reported (node_of top path) o ->
    (m == multiplier pm anc)%Q ->
    a = owner_line (d + 3 * Z.of_nat (length anc)) (label a) m o ->
    lineage top d pm (a :: anc) (o :: path).

(** What the walk keeps of its lines: none is above the depth [d] of the
    walk, and every line two levels below a header is the line of an
    owner of the company that its ancestors in the trace lead to, written
    under the multiplier that the trace shows above it. *)
Definition explained (top : string) (d : Z) (pm : Q) (ls : list NodeLine) : Prop :=
  List.Forall (fun ln => (d <= depth ln)%Z) ls
  /\ forall pre ln post,
       ls = pre ++ ln :: post ->
       ((depth ln - d) mod 3 = 2)%Z ->
       exists path o m,
         lineage top d pm (ancestors (depth ln - 3) (rev pre)) path
         /\ reported (node_of top path) o
         /\ (m == multiplier pm (ancestors (depth ln - 3) (rev pre)))%Q
         /\ ln = owner_line (d + 3 * Z.of_nat (length (ancestors (depth ln - 3) (rev pre))))
                   (label ln) m o.

End Registry.

(** A chain with a parent that holds one half: the root is owned at 50 %
    by company B, which a person owns at 40 %. *)
Definition half_root : Payload :=
  Examples.record "00000001" "A"
    [ Examples.member_company (Examples.company "00000002" "B") [Examples.percent "50"] ] [].

Definition half_cache : Client :=
  Examples.cached [("00000001", half_root); ("00000002", Examples.child_chain)].

Definition half_lines : list NodeLine :=
  match resolve_tree_online Examples.offline Examples.cfg4 25 ∅ "00000001" half_cache with
  | Done ls _ _ => ls
  | _ => []
  end.

(** The last line of that trace, the person at the end of the chain, and
    the lines before it *)
Definition half_before : list NodeLine := take 5 half_lines.
Definition half_person : NodeLine := nth 5 half_lines (truncation_line 0).

End Lineage.
(* ================================================================== *)
(** * Properties *)

(** ** Strings and dictionaries *)

Lemma chars_str (l : list ascii) : Py.chars (Py.str l) = l.
Proof. apply String.list_ascii_of_string_of_list_ascii. Qed.

Lemma str_chars (s : string) : Py.str (Py.chars s) = s.
Proof. apply String.string_of_list_ascii_of_string. Qed.

Lemma length_str (l : list ascii) : String.length (Py.str l) = length l.
Proof. induction l as [|c l IH]; simpl; [reflexivity | now rewrite IH]. Qed.

Lemma digits_of_all_digits (l : list ascii) :
  forallb Py.is_digit (AresVrExtract.digits_of l) = true.
Proof.
  induction l as [|c l IH]; simpl; [reflexivity |].
  destruct (Py.is_digit c) eqn:Hc; simpl; [now rewrite Hc | exact IH].
Qed.

Lemma forallb_app_true {A} (p : A -> bool) (l1 l2 : list A) :
  forallb p l1 = true -> forallb p l2 = true -> forallb p (l1 ++ l2) = true.
Proof. intros H1 H2. rewrite forallb_app, H1, H2. reflexivity. Qed.

Lemma forallb_repeat_zero (n : nat) : forallb Py.is_digit (repeat "0"%char n) = true.
Proof. induction n; simpl; [reflexivity | exact IHn]. Qed.

(** [zfill] on a string of digits: padding only, no sign to step over. *)
Lemma zfill_digits (w : nat) (l : list ascii) :
  forallb Py.is_digit l = true ->
  Py.zfill w (Py.str l) = Py.str (repeat "0"%char (w - length l) ++ l).
Proof.
  intros Hd. unfold Py.zfill. rewrite chars_str.
  destruct l as [|c l']; [now rewrite app_nil_r |].
  simpl in Hd. apply andb_true_iff in Hd as [Hc _].
  destruct (Ascii.eqb c "+") eqn:E1.
  { apply Ascii.eqb_eq in E1. subst c. discriminate Hc. }
  destruct (Ascii.eqb c "-") eqn:E2.
  { apply Ascii.eqb_eq in E2. subst c. discriminate Hc. }
  reflexivity.
Qed.

Section DictFacts.
Context {K V : Type} `{EqDecision K}.

Lemma od_get_set_eq (k : K) (v : V) (d : list (K * V)) :
  OD.get k (OD.set k v d) = Some v.
Proof.
  induction d as [|[k' v'] d IH]; simpl.
  - destruct (decide (k = k)); [reflexivity | contradiction].
  - destruct (decide (k = k')) as [->|Hne]; simpl.
    + destruct (decide (k' = k')); [reflexivity | contradiction].
    + destruct (decide (k = k')); [contradiction | exact IH].
Qed.

Lemma od_get_set_ne (k k' : K) (v : V) (d : list (K * V)) :
  k <> k' -> OD.get k' (OD.set k v d) = OD.get k' d.
Proof.
  intros Hne. induction d as [|[k0 v0] d IH]; simpl.
  - destruct (decide (k' = k)); [congruence | reflexivity].
  - destruct (decide (k = k0)) as [->|Hk]; simpl.
    + destruct (decide (k' = k0)); [congruence | reflexivity].
    + destruct (decide (k' = k0)); [reflexivity | exact IH].
Qed.

Lemma od_mem_set (k k' : K) (v : V) (d : list (K * V)) :
  OD.mem k' d = true -> OD.mem k' (OD.set k v d) = true.
Proof.
  unfold OD.mem. intros H. destruct (decide (k = k')) as [->|Hne].
  - now rewrite od_get_set_eq.
  - now rewrite od_get_set_ne.
Qed.

Lemma od_get_In (k : K) (v : V) (d : list (K * V)) :
  OD.get k d = Some v -> In (k, v) d.
Proof.
  induction d as [|[k' v'] d IH]; simpl; [discriminate |].
  destruct (decide (k = k')) as [->|Hne].
  - intros [= ->]. now left.
  - intros H. right. now apply IH.
Qed.

Lemma od_get_map (f : V -> V) (k : K) (d : list (K * V)) :
  OD.get k (map (fun kv => (fst kv, f (snd kv))) d) = option_map f (OD.get k d).
Proof.
  induction d as [|[k' v'] d IH]; simpl; [reflexivity |].
  destruct (decide (k = k')); [reflexivity | exact IH].
Qed.

End DictFacts.

(* ================================================================== *)
(** ** Registry ids (C4) *)

Lemma space_not_digit (c : ascii) : Py.is_space c = true -> Py.is_digit c = false.
Proof. destruct c as [[] [] [] [] [] [] [] []]; vm_compute; congruence. Qed.

Lemma digits_of_lstrip (l : list ascii) :
  AresVrExtract.digits_of (Py.lstrip_l l) = AresVrExtract.digits_of l.
Proof.
  induction l as [|c l IH]; simpl; [reflexivity |].
  destruct (Py.is_space c) eqn:Hs; [| reflexivity].
  now rewrite (space_not_digit c Hs).
Qed.

Lemma digits_of_rev (l : list ascii) :
  AresVrExtract.digits_of (rev l) = rev (AresVrExtract.digits_of l).
Proof.
  unfold AresVrExtract.digits_of. induction l as [|c l IH]; simpl; [reflexivity |].
  rewrite List.filter_app, IH. simpl.
  destruct (Py.is_digit c); simpl; [reflexivity | now rewrite app_nil_r].
Qed.

Lemma digits_of_strip (l : list ascii) :
  AresVrExtract.digits_of (Py.strip_l l) = AresVrExtract.digits_of l.
Proof.
  unfold Py.strip_l, Py.rstrip_l.
  rewrite digits_of_rev, digits_of_lstrip, digits_of_rev, rev_involutive.
  apply digits_of_lstrip.
Qed.

(** C4, as stated, fails: a three-digit input is kept three digits long. *)
Lemma norm_ico_short_counterexample :
  ~ (String.length (AresVrClient.norm_ico "123") = 8%nat
     /\ forallb Py.is_digit (Py.chars (AresVrClient.norm_ico "123")) = true).
Proof. vm_compute. intros [H _]. discriminate H. Qed.

(** Whatever the input, [norm_ico] returns digits only; its length is the
    number of digits of the input, plus one when that number is seven. *)
Lemma norm_ico_digits (s : string) :
  forallb Py.is_digit (Py.chars (AresVrClient.norm_ico s)) = true.
Proof.
  unfold AresVrClient.norm_ico.
  destruct (Nat.eqb _ 7); rewrite chars_str; simpl; apply digits_of_all_digits.
Qed.

Lemma norm_ico_other_length (s : string) :
  length (AresVrExtract.digits_of (Py.chars s)) <> 7%nat ->
  AresVrClient.norm_ico s = Py.str (AresVrExtract.digits_of (Py.chars s)).
Proof.
  intros H. unfold AresVrClient.norm_ico.
  destruct (Nat.eqb_spec (length (AresVrExtract.digits_of (Py.chars s))) 7);
    [contradiction | reflexivity].
Qed.

(** C4 (amended): when the input holds seven or eight digits, both
    normalisers return the same id, exactly eight characters long and all
    digits, a seven-digit value being left-padded with one zero. *)
Theorem norm_ico_eight_digits (s : string) :
  (length (AresVrExtract.digits_of (Py.chars s)) = 7%nat
   \/ length (AresVrExtract.digits_of (Py.chars s)) = 8%nat) ->
  String.length (AresVrClient.norm_ico s) = 8%nat
  /\ forallb Py.is_digit (Py.chars (AresVrClient.norm_ico s)) = true
  /\ AresVrExtract._normalize_ico (Some s) = Some (AresVrClient.norm_ico s)
  /\ (length (AresVrExtract.digits_of (Py.chars s)) = 7%nat ->
      AresVrClient.norm_ico s = String "0" (Py.str (AresVrExtract.digits_of (Py.chars s)))).
Proof.
  intros Hn.
  assert (Hne : s <> EmptyString) by (intros ->; destruct Hn as [H|H]; discriminate H).
  split; [| split; [apply norm_ico_digits | split]].
  - unfold AresVrClient.norm_ico.
    destruct Hn as [H|H]; rewrite H; simpl; rewrite length_str; simpl; lia.
  - unfold AresVrExtract._normalize_ico.
    destruct s as [|c s']; [contradiction |].
    rewrite digits_of_strip.
    set (ds := AresVrExtract.digits_of (Py.chars (String c s'))) in *.
    assert (Hds : Py.nonempty (Py.str ds) = true).
    { destruct ds; [destruct Hn as [H|H]; discriminate H | reflexivity]. }
    rewrite Hds, zfill_digits by apply digits_of_all_digits.
    unfold AresVrClient.norm_ico. fold ds.
    destruct Hn as [H|H]; rewrite H; reflexivity.
  - intros H. unfold AresVrClient.norm_ico. rewrite H. reflexivity.
Qed.

(** A seven-digit id behind a prefix is padded to eight digits. *)
Lemma norm_ico_eight_digits_witness :
  (length (AresVrExtract.digits_of (Py.chars "IČO 1234567")) = 7%nat
   \/ length (AresVrExtract.digits_of (Py.chars "IČO 1234567")) = 8%nat)
  /\ AresVrClient.norm_ico "IČO 1234567" = "01234567".
Proof.
  split; [left; reflexivity |].
  destruct (norm_ico_eight_digits "IČO 1234567" (or_introl eq_refl)) as (_ & _ & _ & H).
  rewrite (H eq_refl). reflexivity.
Defined.

(* ================================================================== *)
(** ** Shareholder sections (C1) *)

(** Every member the shareholder loop emits carries 100 %, whatever the
    header of its section and whatever its own share entries. *)
Lemma scan_clen_share (lbl : string) (a : AresVrExtract.ClenOrganu) (o : AresVrExtract.Owner) :
  In o (AresVrExtract.scan_clen lbl a) ->
  AresVrExtract.share_pct o = Some 100%Q /\ AresVrExtract.label o = lbl.
Proof.
  unfold AresVrExtract.scan_clen.
  destruct (negb _); [intros [] |].
  destruct (AresVrExtract.clen_pravnickaOsoba a) as [pos|].
  - destruct (AresVrExtract.company_of pos) as [nm i].
    intros [<-|[]]. now split.
  - destruct (AresVrExtract.clen_fyzickaOsoba a) as [fos|]; [| intros []].
    intros [<-|[]]. now split.
Qed.

(** C1 on the code: in a section headed "Akcionáři", two shareholders with
    explicit shares of 30 % and 70 % are each reported with 100 %. *)
Theorem shareholders_all_get_100 :
  let '(_, _, owners) := AresVrExtract.extract_current_owners Examples.two_shareholders in
  map (fun o => (AresVrExtract.name o, AresVrExtract.label o, AresVrExtract.share_pct o)) owners
  = [ ("Jan Horák", "Akcionáři", Some 100%Q); ("Eva Dvořák", "Akcionáři", Some 100%Q) ].
Proof. vm_compute. reflexivity. Qed.

(* ================================================================== *)
(** ** The share-text parser (C3) *)

(** C3 on the code: the third layer reads [2;25] as the fraction 2/25
    before the fourth layer can read [2;25 PROCENTA] as 2.25 per cent. *)
Theorem parse_pct_semicolon_percent :
  exists q, OwnershipResolveOnline.parse_pct_from_text "velikost:2;25 PROCENTA" = Some q
            /\ (q == 8 # 100)%Q /\ ~ (q == 225 # 10000)%Q.
Proof.
  eexists. split; [vm_compute; reflexivity |].
  split; [reflexivity | intros H; discriminate H].
Qed.

(** The other sample values of the specification are as it says. *)
Example parse_pct_samples :
  OwnershipResolveOnline.parse_pct_from_text "" = None
  /\ (exists q, OwnershipResolveOnline.parse_pct_from_text "50 %" = Some q /\ (q == 1 # 2)%Q)
  /\ (exists q, OwnershipResolveOnline.parse_pct_from_text "1/3" = Some q /\ (q == 1 # 3)%Q)
  /\ (exists q, OwnershipResolveOnline.parse_pct_from_text
                  "obchodni_podil: 1/2; splaceno:100 PROCENTA" = Some q
                /\ (q == 1 # 2)%Q)
  /\ (exists q, OwnershipResolveOnline.parse_pct_from_text "velikost:2,25 PROCENTA" = Some q
                /\ (q == 225 # 10000)%Q).
Proof.
  split; [vm_compute; reflexivity |].
  repeat split; eexists; (split; [vm_compute; reflexivity | reflexivity]).
Qed.

(** The extractor, on the registry entry that this text comes from,
    reads the same value as 2.25 per cent. *)
Lemma extractor_reads_semicolon_as_decimal :
  exists q raw,
    AresVrExtract._parse_share_from_podil_list [Examples.percent "2;25"] = (Some q, raw)
    /\ (q == 225 # 100)%Q /\ raw = "velikost:2;25 PROCENTA".
Proof.
  eexists; eexists. split; [vm_compute; reflexivity |].
  split; reflexivity.
Qed.

(* ================================================================== *)
(** ** The registry client (C7) *)

Section ClientFacts.
Import AresVrExtract AresVrClient.
Variable server : Server.
Variable cfg : AresClientConfig.

(** A row of the cache answers the call: no request, no change. *)
Lemma get_vr_hit (ico : string) (c : Client) (p : Payload) :
  cache c !! norm_ico ico = Some p ->
  get_vr server cfg ico false c = (Returned p, c).
Proof. intros H. unfold get_vr, _cache_get. now rewrite H. Qed.

(** The retry loop sends between one and [n] requests to the same URL;
    it stores what it returns and stores nothing when it gives up. *)
Lemma attempts_spec (n : nat) (ico : string) (c : Client) (r : Reply) (c' : Client) :
  attempts server n ico c = (r, c') ->
  exists k, (k <= n)%nat
    /\ sent c' = sent c ++ repeat (ARES_VR_URL ico) k
    /\ match r with
       | Returned p => (1 <= k)%nat /\ cache c' = <[ico := p]> (cache c)
       | RuntimeError => k = n /\ cache c' = cache c
       end.
Proof.
  revert c. induction n as [|n IH]; intros c; simpl.
  - intros [= <- <-]. exists 0%nat. simpl. rewrite app_nil_r. auto.
  - set (url := ARES_VR_URL ico).
    assert (Hretry : attempts server n ico (request url c) = (r, c') ->
            exists k, (k <= S n)%nat
              /\ sent c' = sent c ++ repeat url k
              /\ match r with
                 | Returned p => (1 <= k)%nat /\ cache c' = <[ico := p]> (cache c)
                 | RuntimeError => k = S n /\ cache c' = cache c
                 end).
    { intros H. apply IH in H as (k & Hk & Hs & Hr). exists (S k).
      split; [lia |]. split.
      - rewrite Hs. simpl. now rewrite <- app_assoc.
      - destruct r; simpl in Hr |- *; destruct Hr as [H1 H2]; split; auto; lia. }
    assert (Hstop : forall p, (Returned p, _cache_put ico p (request url c)) = (r, c') ->
            exists k, (k <= S n)%nat
              /\ sent c' = sent c ++ repeat url k
              /\ match r with
                 | Returned p => (1 <= k)%nat /\ cache c' = <[ico := p]> (cache c)
                 | RuntimeError => k = S n /\ cache c' = cache c
                 end).
    { intros p [= <- <-]. exists 1%nat. simpl. split; [lia |]. auto. }
    destruct (server (length (sent c)) url) as [code json|]; [| exact Hretry].
    destruct (code =? 200)%N.
    + destruct json as [p|]; [apply Hstop | exact Hretry].
    + destruct ((code =? 400) || (code =? 404))%N; [apply Hstop | exact Hretry].
Qed.

(** An answer that ends the loop at once costs exactly one request. *)
Lemma attempts_first_definitive (n : nat) (ico : string) (c : Client) (p : Payload) :
  Spec.definitive (ARES_VR_URL ico) (server (length (sent c)) (ARES_VR_URL ico)) = Some p ->
  attempts server (S n) ico c
  = (Returned p, _cache_put ico p (request (ARES_VR_URL ico) c)).
Proof.
  simpl. unfold Spec.definitive.
  destruct (server (length (sent c)) (ARES_VR_URL ico)) as [code json|]; [| discriminate].
  destruct (code =? 200)%N.
  - intros ->. reflexivity.
  - destruct ((code =? 400) || (code =? 404))%N; [| discriminate].
    intros [= <-]. reflexivity.
Qed.

(** C7 (amended): a call that returns a payload leaves it in the cached
    row of the id, so that the next unforced call returns it again without
    any request (error records included); a call sends no request on a
    cache hit and otherwise between one and [max_retries + 1], exactly one
    when the first answer is a 200, 400 or 404; a forced call always sends
    at least one; a call that gives up raises and leaves the cache as it
    was. *)
Theorem get_vr_cache_contract (ico : string) (force : bool) (c : Client)
    (r : Reply) (c' : Client) :
  get_vr server cfg ico force c = (r, c') ->
  exists k,
    sent c' = sent c ++ repeat (ARES_VR_URL (norm_ico ico)) k
    /\ (k <= S (max_retries cfg))%nat
    /\ (force = true -> (1 <= k)%nat)
    /\ (force = false -> is_Some (cache c !! norm_ico ico) -> k = 0%nat)
    /\ (forall p, (force = true \/ cache c !! norm_ico ico = None) ->
          Spec.definitive (ARES_VR_URL (norm_ico ico))
            (server (length (sent c)) (ARES_VR_URL (norm_ico ico))) = Some p ->
          k = 1%nat /\ r = Returned p)
    /\ match r with
       | Returned p =>
           cache c' !! norm_ico ico = Some p
           /\ ((1 <= k)%nat -> cache c' = <[norm_ico ico := p]> (cache c))
           /\ (k = 0%nat -> c' = c)
           /\ get_vr server cfg ico false c' = (Returned p, c')
       | RuntimeError => k = S (max_retries cfg) /\ cache c' = cache c
       end.
Proof.
  unfold get_vr, _cache_get. set (i := norm_ico ico).
  destruct (if force then None else cache c !! i) as [p|] eqn:Hlook.
  - (* served from the cache *)
    intros [= <- <-]. exists 0%nat. simpl. rewrite app_nil_r.
    destruct force; [discriminate |].
    split; [reflexivity |]. split; [lia |]. split; [discriminate |].
    split; [reflexivity |].
    split; [intros q [Hf|Hn] _; [discriminate | congruence] |].
    split; [exact Hlook |]. split; [lia |]. split; [reflexivity |].
    now rewrite Hlook.
  - intros Hrun.
    assert (Hmiss : force = true \/ cache c !! i = None)
      by (destruct force; [now left | now right]).
    destruct (attempts_spec _ _ _ _ _ Hrun) as (k & Hk & Hs & Hr).
    exists k. split; [exact Hs |]. split; [exact Hk |].
    assert (Hk1 : match r with Returned _ => (1 <= k)%nat | RuntimeError => k = S (max_retries cfg) end)
      by (destruct r; tauto).
    split; [intros _; destruct r; lia |].
    split.
    { intros -> [q Hq]. simpl in Hlook. congruence. }
    split.
    { intros q _ Hdef. rewrite (attempts_first_definitive _ _ _ _ Hdef) in Hrun.
      injection Hrun as <- <-. split; [| reflexivity].
      simpl in Hs. apply app_inv_head in Hs. destruct k as [|[|k]]; [discriminate | reflexivity |].
      simpl in Hs. discriminate. }
    destruct r as [p|]; [| exact Hr].
    destruct Hr as [Hk' Hc].
    assert (Hrow : cache c' !! i = Some p) by (rewrite Hc; apply lookup_insert_eq).
    repeat split; auto.
    + intros ->. lia.
    + now rewrite Hrow.
Qed.

End ClientFacts.

(** A forced call to a registry that answers 500 and then 200 sends two
    requests and leaves the payload in the row of the id. *)
Lemma get_vr_cache_contract_witness :
  let run := AresVrClient.get_vr (Examples.flaky Examples.root_novak) Examples.cfg4
               "1" true Examples.fresh in
  run = (AresVrClient.Returned Examples.root_novak, snd run)
  /\ exists k, (1 <= k)%nat /\ (k <= 5)%nat
       /\ AresVrClient.sent (snd run) = repeat (AresVrClient.ARES_VR_URL "1") k
       /\ AresVrClient.cache (snd run) !! "1" = Some Examples.root_novak.
Proof.
  intros run.
  assert (Hrun : run = (AresVrClient.Returned Examples.root_novak, snd run))
    by (vm_compute; reflexivity).
  split; [exact Hrun |].
  destruct (get_vr_cache_contract (Examples.flaky Examples.root_novak) Examples.cfg4
              "1" true Examples.fresh _ _ Hrun) as (k & Hs & Hk & H1 & _ & _ & Hrow & _).
  exists k. split; [apply H1; reflexivity |]. split; [exact Hk |].
  split; [exact Hs | exact Hrow].
Defined.

(** C7, as stated, fails: when the registry answers 500 and then 200, two
    successive calls for the same id send two requests, not one. *)
Lemma two_calls_two_requests_counterexample :
  let srv := Examples.flaky Examples.root_novak in
  let '(_, c1) := AresVrClient.get_vr srv Examples.cfg4 "00000001" false Examples.fresh in
  let '(_, c2) := AresVrClient.get_vr srv Examples.cfg4 "00000001" false c1 in
  length (AresVrClient.sent c2) = 2%nat /\ length (AresVrClient.sent c2) <> 1%nat.
Proof. vm_compute. split; [reflexivity | discriminate]. Qed.

(** A forced call that never gets an answer updates nothing. *)
Lemma forced_call_can_fail :
  AresVrClient.get_vr Examples.offline Examples.cfg4 "00000001" true
    (Examples.cached [("00000001", Examples.root_novak)])
  = (AresVrClient.RuntimeError,
     {| AresVrClient.cache := AresVrClient.cache (Examples.cached [("00000001", Examples.root_novak)]);
        AresVrClient.sent := repeat (AresVrClient.ARES_VR_URL "00000001") 5 |}).
Proof. vm_compute. reflexivity. Qed.

(* ================================================================== *)
(** ** Runs of the walker *)

Section RunFacts.
Import AresVrClient OwnershipResolveOnline.

Lemma then_run_done (r : Run) (k : Client -> Run) ls ws c :
  then_run r k = Done ls ws c ->
  exists ls1 ws1 c1 ls2 ws2,
    r = Done ls1 ws1 c1 /\ k c1 = Done ls2 ws2 c
    /\ ls = ls1 ++ ls2 /\ ws = ws1 ++ ws2.
Proof.
  unfold then_run. destruct r as [ls1 ws1 c1| |]; try discriminate.
  destruct (k c1) as [ls2 ws2 c2| |] eqn:Hk; try discriminate.
  intros [= <- <- <-]. now exists ls1, ws1, c1, ls2, ws2.
Qed.

Lemma then_run_no_fuel (r : Run) (k : Client -> Run) :
  then_run r k = NoFuel ->
  r = NoFuel \/ exists ls ws c, r = Done ls ws c /\ k c = NoFuel.
Proof.
  unfold then_run. destruct r as [ls1 ws1 c1| |]; try discriminate; [| now left].
  destruct (k c1) eqn:Hk; try discriminate. intros _. right. now exists ls1, ws1, c1.
Qed.

Lemma then_run_ext (r : Run) (k1 k2 : Client -> Run) :
  (forall c, k1 c = k2 c) -> then_run r k1 = then_run r k2.
Proof. intros H. destruct r; simpl; [now rewrite H | reflexivity | reflexivity]. Qed.

(** What holds of the output of every turn, holds of the loop's. *)
Lemma for_each_inv {A : Type} (J : list NodeLine -> list Warning -> Prop)
    (xs : list A) (body : A -> Client -> Run) :
  J [] [] ->
  (forall l1 w1 l2 w2, J l1 w1 -> J l2 w2 -> J (l1 ++ l2) (w1 ++ w2)) ->
  (forall x c ls ws c', In x xs -> body x c = Done ls ws c' -> J ls ws) ->
  forall c ls ws c', for_each xs body c = Done ls ws c' -> J ls ws.
Proof.
  intros Hnil Happ. induction xs as [|x xs IH]; intros Hbody c ls ws c'; simpl.
  - intros [= <- <- <-]. exact Hnil.
  - intros H. apply then_run_done in H as (l1 & w1 & c1 & l2 & w2 & H1 & H2 & -> & ->).
    apply Happ.
    + eapply Hbody; [now left | exact H1].
    + eapply IH; [| exact H2]. intros y c0 l w c0' Hy. apply Hbody. now right.
Qed.

Lemma for_each_fuel {A : Type} (xs : list A) (body : A -> Client -> Run) :
  (forall x c, In x xs -> body x c <> NoFuel) ->
  forall c, for_each xs body c <> NoFuel.
Proof.
  induction xs as [|x xs IH]; intros Hbody c; simpl; [discriminate |].
  intros H. apply then_run_no_fuel in H as [H|(ls & ws & c1 & _ & H)].
  - now apply (Hbody x c (or_introl eq_refl)).
  - revert H. apply IH. intros y c0 Hy. apply Hbody. now right.
Qed.

(** Two loops whose turns agree produce the same run. *)
Lemma for_each_ext {A : Type} (xs : list A) (body1 body2 : A -> Client -> Run) :
  (forall x c, In x xs -> body1 x c = body2 x c) ->
  forall c, for_each xs body1 c = for_each xs body2 c.
Proof.
  induction xs as [|x xs IH]; intros Hbody c; simpl; [reflexivity |].
  rewrite (Hbody x c (or_introl eq_refl)). unfold then_run.
  destruct (body2 x c) as [ls ws c1| |]; try reflexivity.
  rewrite IH; [reflexivity |]. intros y c0 Hy. apply Hbody. now right.
Qed.

Lemma depth_owner_line (d : Z) (lbl : string) (pm : Q) (o : AresVrExtract.Owner) :
  depth (owner_line d lbl pm o) = (d + 2)%Z.
Proof.
  unfold owner_line.
  destruct (is_company o), (local_share o), (eff_share o); reflexivity.
Qed.

Lemma label_owner_line (d : Z) (lbl : string) (pm : Q) (o : AresVrExtract.Owner) :
  label (owner_line d lbl pm o) = lbl.
Proof.
  unfold owner_line.
  destruct (is_company o), (local_share o), (eff_share o); reflexivity.
Qed.

(** At one owner: with a known local share [s] under the multiplier
    [m], the line carries [m * s * 100] and a company hands [m * s] down. *)
Lemma owner_line_known_share (d : Z) (lbl : string) (m s : Q) (o : AresVrExtract.Owner) :
  local_share o = Some s ->
  effective_pct (owner_line d lbl m o) = Some (m * s * 100)%Q
  /\ next_mult m o = (m * s)%Q.
Proof.
  intros Hs. unfold owner_line, next_mult. rewrite Hs.
  destruct (is_company o); split; reflexivity.
Qed.

End RunFacts.

Section WalkFacts.
Import AresVrExtract AresVrClient OwnershipResolveOnline.
Variable server : Server.
Variable cfg : AresClientConfig.
Variable max_depth : Z.
Variable manual_overrides : gmap string (list (string * Q)).

Local Abbreviation walk := (walk server cfg max_depth manual_overrides).
Local Abbreviation visit := (visit server cfg max_depth manual_overrides).
Local Abbreviation expand := (expand server cfg manual_overrides).
Local Abbreviation merged_owners := (merged_owners server cfg manual_overrides).

(** The depth guard, and what follows it. *)
Lemma walk_guard (fuel : nat) (ico : string) (d : Z) (pm : Q) (c : Client) :
  (d > max_depth)%Z ->
  walk (S fuel) ico d pm c = Done [truncation_line d] [] c.
Proof.
  intros H. simpl. unfold OwnershipResolveOnline.visit.
  destruct (Z.gtb_spec d max_depth); [reflexivity | lia].
Qed.

Lemma walk_no_guard (fuel : nat) (ico : string) (d : Z) (pm : Q) (c : Client) :
  (d <= max_depth)%Z ->
  walk (S fuel) ico d pm c = expand (walk fuel) ico d pm c.
Proof.
  intros H. simpl. unfold OwnershipResolveOnline.visit.
  destruct (Z.gtb_spec d max_depth); [lia | reflexivity].
Qed.

(** The descent below a node uses the recursive call three levels down
    only. *)
Lemma expand_ext (w1 w2 : string -> Z -> Q -> Client -> Run)
    (ico : string) (d : Z) (pm : Q) (c : Client) :
  (forall i m c0, w1 i (d + 3)%Z m c0 = w2 i (d + 3)%Z m c0) ->
  expand w1 ico d pm c = expand w2 ico d pm c.
Proof.
  intros Hw. unfold OwnershipResolveOnline.expand.
  destruct (get_vr server cfg ico false c) as [[payload|] c1]; [| reflexivity].
  destruct (Py.truthy (p_error payload)); [reflexivity |].
  destruct (extract_current_owners payload) as [[c_ico c_name] owners0].
  destruct (merged_owners c_ico owners0 c1) as [owners c2].
  apply then_run_ext. intros c3. apply for_each_ext. intros g c0 _.
  unfold visit_group. apply then_run_ext. intros c4. apply for_each_ext. intros o c5 _.
  unfold visit_owner. apply then_run_ext. intros c6.
  destruct (is_company o); [apply Hw | reflexivity].
Qed.

(** The fuel of [resolve_tree_online] is never used up. *)
Lemma walk_fuel (fuel : nat) (ico : string) (d : Z) (pm : Q) (c : Client) :
  (Z.max 1 (max_depth - d + 2) <= Z.of_nat fuel)%Z ->
  walk fuel ico d pm c <> NoFuel.
Proof.
  revert ico d pm c. induction fuel as [|fuel IH]; intros ico d pm c Hf; [lia |].
  destruct (Z_gt_le_dec d max_depth) as [Hd|Hd].
  - rewrite walk_guard by exact Hd. discriminate.
  - rewrite walk_no_guard by exact Hd. unfold OwnershipResolveOnline.expand.
    destruct (get_vr server cfg ico false c) as [[payload|] c1]; [| discriminate].
    destruct (Py.truthy (p_error payload)); [discriminate |].
    destruct (extract_current_owners payload) as [[c_ico c_name] owners0].
    destruct (merged_owners c_ico owners0 c1) as [owners c2].
    intros H. apply then_run_no_fuel in H as [H|(ls & ws & c3 & _ & H)]; [discriminate |].
    revert H. apply for_each_fuel. intros g c4 _ H.
    apply then_run_no_fuel in H as [H|(ls' & ws' & c5 & _ & H)]; [discriminate |].
    revert H. apply for_each_fuel. intros o c6 _ H.
    apply then_run_no_fuel in H as [H|(ls'' & ws'' & c7 & _ & H)]; [discriminate |].
    destruct (is_company o); [| discriminate].
    revert H. apply IH. lia.
Qed.

Lemma resolve_has_fuel (root_ico : string) (c : Client) :
  resolve_tree_online server cfg max_depth manual_overrides root_ico c <> NoFuel.
Proof. apply walk_fuel. unfold enough_fuel. lia. Qed.

(** An induction principle for the output of the walk: a property of
    lines and warnings that holds of each emission, is kept by
    concatenation, and is carried from a child's walk to its parent's. *)
Lemma walk_invariant (I : Z -> Q -> list NodeLine -> list Warning -> Prop) :
  (forall d pm, I d pm [] []) ->
  (forall d pm l1 w1 l2 w2, I d pm l1 w1 -> I d pm l2 w2 -> I d pm (l1 ++ l2) (w1 ++ w2)) ->
  (forall d pm, I d pm [truncation_line d] []) ->
  (forall d pm ico payload,
     I d pm [ {| depth := d; label := ""; text := error_text ico payload; effective_pct := None |} ]
            [ {| w_kind := "error"; w_ico := ico; w_name := ""; w_text := error_text ico payload |} ]) ->
  (forall d pm c_name c_ico, I d pm [header_line d pm c_name c_ico] []) ->
  (forall d pm c_name c_ico,
     I d pm [header_line d pm c_name c_ico] [unresolved_warning c_name c_ico]) ->
  (forall d pm lbl,
     I d pm [ {| depth := d + 1; label := lbl; text := lbl +:+ ":"; effective_pct := None |} ] []) ->
  (forall d pm lbl o, I d pm [owner_line d lbl pm o] []) ->
  (forall d pm o ls ws, is_company o = true ->
     I (d + 3)%Z (next_mult pm o) ls ws -> I d pm ls ws) ->
  forall fuel ico d pm c ls ws c',
    walk fuel ico d pm c = Done ls ws c' -> I d pm ls ws.
Proof.
  intros Hnil Happ Htrunc Herr Hhead Hunres Hlabel Howner Hdown.
  induction fuel as [|fuel IH]; intros ico d pm c ls ws c'; [discriminate |].
  destruct (Z_gt_le_dec d max_depth) as [Hd|Hd].
  { rewrite walk_guard by exact Hd. intros [= <- <- <-]. apply Htrunc. }
  rewrite walk_no_guard by exact Hd. unfold OwnershipResolveOnline.expand.
  destruct (get_vr server cfg ico false c) as [[payload|] c1]; [| discriminate].
  destruct (Py.truthy (p_error payload)).
  { intros [= <- <- <-]. apply Herr. }
  destruct (extract_current_owners payload) as [[c_ico c_name] owners0].
  destruct (merged_owners c_ico owners0 c1) as [owners c2].
  intros H. apply then_run_done in H as (l1 & w1 & c3 & l2 & w2 & H1 & H2 & -> & ->).
  apply Happ.
  { injection H1 as <- <- <-. destruct owners; [apply Hunres | apply Hhead]. }
  revert H2. apply (for_each_inv (I d pm)); [apply Hnil | apply Happ |].
  intros g c4 ls ws c4' _ H.
  apply then_run_done in H as (l3 & w3 & c5 & l4 & w4 & H3 & H4 & -> & ->).
  apply Happ.
  { injection H3 as <- <- <-. apply Hlabel. }
  revert H4. apply (for_each_inv (I d pm)); [apply Hnil | apply Happ |].
  intros o c6 ls ws c6' _ H.
  apply then_run_done in H as (l5 & w5 & c7 & l6 & w6 & H5 & H6 & -> & ->).
  apply Happ.
  { injection H5 as <- <- <-. apply Howner. }
  destruct (is_company o) eqn:Hco.
  - apply (Hdown d pm o); [exact Hco |]. eapply IH. exact H6.
  - injection H6 as <- <- <-. apply Hnil.
Qed.

End WalkFacts.

(* ================================================================== *)
(** ** Depths three levels apart *)

Section EffectivePct.
Import AresVrExtract AresVrClient OwnershipResolveOnline.

Lemma mod3_shift (x d : Z) : ((x - (d + 3)) mod 3 = (x - d) mod 3)%Z.
Proof.
  replace (x - (d + 3))%Z with (x - d + (-1) * 3)%Z by lia.
  apply Z_mod_plus_full.
Qed.

End EffectivePct.

(* ================================================================== *)
(** ** The depth guard (C5) *)

Section DepthGuard.
Import AresVrExtract AresVrClient OwnershipResolveOnline.




End DepthGuard.

(* ================================================================== *)
(** ** Determinism (C9) *)

Section Determinism.
Import AresVrExtract AresVrClient OwnershipResolveOnline.
Variables s1 s2 : Server.
Variable cfg : AresClientConfig.
Variable max_depth : Z.
Variable manual_overrides : gmap string (list (string * Q)).

Local Abbreviation agree := (Spec.agree s1 s2).
Local Abbreviation same := (Spec.same_outcome s1 s2).

Lemma agree_request (url : string) (c1 c2 : Client) :
  agree c1 c2 -> agree (request url c1) (request url c2).
Proof.
  intros [Hc Hs]. split; [exact Hc |]. intros n u. simpl.
  rewrite !length_app. simpl.
  replace (length (sent c1) + 1 + n)%nat with (length (sent c1) + S n)%nat by lia.
  replace (length (sent c2) + 1 + n)%nat with (length (sent c2) + S n)%nat by lia.
  apply Hs.
Qed.

Lemma agree_put (ico : string) (p : Payload) (c1 c2 : Client) :
  agree c1 c2 -> agree (_cache_put ico p c1) (_cache_put ico p c2).
Proof. intros [Hc Hs]. split; [simpl; now rewrite Hc | exact Hs]. Qed.

Lemma attempts_agree (n : nat) (ico : string) (c1 c2 : Client) :
  agree c1 c2 ->
  fst (attempts s1 n ico c1) = fst (attempts s2 n ico c2)
  /\ agree (snd (attempts s1 n ico c1)) (snd (attempts s2 n ico c2)).
Proof.
  revert c1 c2. induction n as [|n IH]; intros c1 c2 Ha; simpl; [now split |].
  assert (Hr : s1 (length (sent c1)) (ARES_VR_URL ico) = s2 (length (sent c2)) (ARES_VR_URL ico)).
  { destruct Ha as [_ Hs]. specialize (Hs 0%nat (ARES_VR_URL ico)).
    now rewrite !Nat.add_0_r in Hs. }
  rewrite Hr.
  pose proof (agree_request (ARES_VR_URL ico) _ _ Ha) as Ha'.
  destruct (s2 (length (sent c2)) (ARES_VR_URL ico)) as [code json|]; [| now apply IH].
  destruct (code =? 200)%N.
  - destruct json as [p|]; [| now apply IH]. simpl. split; [reflexivity | now apply agree_put].
  - destruct ((code =? 400) || (code =? 404))%N; [| now apply IH].
    simpl. split; [reflexivity | now apply agree_put].
Qed.

Lemma get_vr_agree (ico : string) (force : bool) (c1 c2 : Client) :
  agree c1 c2 ->
  fst (get_vr s1 cfg ico force c1) = fst (get_vr s2 cfg ico force c2)
  /\ agree (snd (get_vr s1 cfg ico force c1)) (snd (get_vr s2 cfg ico force c2)).
Proof.
  intros Ha. unfold get_vr, _cache_get. rewrite (proj1 Ha).
  destruct (if force then None else cache c2 !! norm_ico ico); [now split |].
  now apply attempts_agree.
Qed.

Lemma manual_owners_agree (entries : list (string * Q)) (c1 c2 : Client) :
  agree c1 c2 ->
  fst (manual_owners s1 cfg entries c1) = fst (manual_owners s2 cfg entries c2)
  /\ agree (snd (manual_owners s1 cfg entries c1)) (snd (manual_owners s2 cfg entries c2)).
Proof.
  revert c1 c2. induction entries as [|[oi sh] es IH]; intros c1 c2 Ha; simpl; [now split |].
  unfold manual_owner.
  destruct (get_vr_agree oi false c1 c2 Ha) as [Hr Ha'].
  destruct (get_vr s1 cfg oi false c1) as [r1 c1'].
  destruct (get_vr s2 cfg oi false c2) as [r2 c2']. simpl in Hr, Ha'. subst r2.
  destruct (IH _ _ Ha') as [Hos Ha''].
  destruct (manual_owners s1 cfg es c1') as [os1 c1''].
  destruct (manual_owners s2 cfg es c2') as [os2 c2'']. simpl in Hos, Ha'' |- *.
  subst os2. now split.
Qed.

(** Closes [same (Done ls ws c1) (Done ls ws c2)] from [agree c1 c2]. *)
Ltac same_done := split; [reflexivity | split; [reflexivity | assumption]].

Lemma then_run_agree (r1 r2 : Run) (k1 k2 : Client -> Run) :
  same r1 r2 ->
  (forall c1 c2, agree c1 c2 -> same (k1 c1) (k2 c2)) ->
  same (then_run r1 k1) (then_run r2 k2).
Proof.
  intros Hr Hk. destruct r1 as [l1 w1 c1| |], r2 as [l2 w2 c2| |]; simpl in Hr |- *;
    try contradiction; try exact Hr.
  destruct Hr as (-> & -> & Ha). specialize (Hk _ _ Ha).
  destruct (k1 c1) as [l3 w3 c3| |], (k2 c2) as [l4 w4 c4| |]; simpl in Hk |- *;
    try contradiction; try exact Hk.
  destruct Hk as (-> & -> & Ha'). same_done.
Qed.

Lemma for_each_agree {A : Type} (xs : list A) (b1 b2 : A -> Client -> Run) :
  (forall x c1 c2, agree c1 c2 -> same (b1 x c1) (b2 x c2)) ->
  forall c1 c2, agree c1 c2 -> same (for_each xs b1 c1) (for_each xs b2 c2).
Proof.
  intros Hb. induction xs as [|x xs IH]; intros c1 c2 Ha; simpl.
  - same_done.
  - apply then_run_agree; [now apply Hb | exact IH].
Qed.

(** Two walks over equal caches, in front of registries that answer
    alike, run alike. *)
Lemma walk_agree (fuel : nat) (ico : string) (d : Z) (pm : Q) (c1 c2 : Client) :
  agree c1 c2 ->
  same (walk s1 cfg max_depth manual_overrides fuel ico d pm c1)
       (walk s2 cfg max_depth manual_overrides fuel ico d pm c2).
Proof.
  revert ico d pm c1 c2. induction fuel as [|fuel IH]; intros ico d pm c1 c2 Ha;
    [exact I |].
  simpl. unfold visit. destruct (d >? max_depth)%Z; [same_done |].
  unfold expand.
  destruct (get_vr_agree ico false c1 c2 Ha) as [Hr Ha1].
  destruct (get_vr s1 cfg ico false c1) as [r1 c1'].
  destruct (get_vr s2 cfg ico false c2) as [r2 c2']. simpl in Hr, Ha1. subst r2.
  destruct r1 as [payload|]; [| exact Ha1].
  destruct (Py.truthy (p_error payload)); [same_done |].
  destruct (extract_current_owners payload) as [[c_ico c_name] owners0].
  unfold merged_owners.
  destruct (manual_owners_agree (default [] (manual_overrides !! c_ico)) _ _ Ha1) as [Hm Ha2].
  destruct (manual_owners s1 cfg _ c1') as [m1 c1''].
  destruct (manual_owners s2 cfg _ c2') as [m2 c2'']. simpl in Hm, Ha2. subst m2.
  apply then_run_agree; [same_done |].
  apply for_each_agree. intros g c3 c4 Ha3.
  apply then_run_agree; [same_done |].
  apply for_each_agree. intros o c5 c6 Ha5.
  apply then_run_agree; [same_done |].
  intros c7 c8 Ha7. destruct (is_company o); [now apply IH | same_done].
Qed.

(** Warnings follow the order of the lines of their nodes. *)
Lemma warnings_in_walk_order (s : Server) (fuel : nat) (ico : string) (d : Z) (pm : Q)
    (c : Client) ls ws c' :
  walk s cfg max_depth manual_overrides fuel ico d pm c = Done ls ws c' ->
  sublist (map Spec.warning_line ws) (map text ls).
Proof.
  apply (walk_invariant s cfg max_depth manual_overrides
           (fun _ _ ls ws => sublist (map Spec.warning_line ws) (map text ls))).
  - intros. constructor.
  - intros _ _ l1 w1 l2 w2 H1 H2. rewrite !map_app. now apply sublist_app.
  - intros. apply sublist_nil_l.
  - intros. reflexivity.
  - intros. apply sublist_nil_l.
  - intros. reflexivity.
  - intros. apply sublist_nil_l.
  - intros. apply sublist_nil_l.
  - intros _ _ _ l w _ H. exact H.
Qed.

(** C9: two resolve calls with the same root, depth limit and overrides,
    over equal cache contents and with every fetch answered alike, either
    both raise the error of a fetch, or return the same trace, line for
    line, and the same warning list, the warnings being in the order in
    which the walk meets the lines of their nodes. *)
Theorem resolve_deterministic (root_ico : string) (c1 c2 : Client) :
  cache c1 = cache c2 ->
  (forall n url, s1 (length (sent c1) + n)%nat url = s2 (length (sent c2) + n)%nat url) ->
  (exists ls ws c1' c2',
     resolve_tree_online s1 cfg max_depth manual_overrides root_ico c1 = Done ls ws c1'
     /\ resolve_tree_online s2 cfg max_depth manual_overrides root_ico c2 = Done ls ws c2'
     /\ cache c1' = cache c2'
     /\ sublist (map Spec.warning_line ws) (map text ls))
  \/ (exists c1' c2',
        resolve_tree_online s1 cfg max_depth manual_overrides root_ico c1 = Failed c1'
        /\ resolve_tree_online s2 cfg max_depth manual_overrides root_ico c2 = Failed c2').
Proof.
  intros Hc Hs.
  pose proof (walk_agree (enough_fuel max_depth) root_ico 0 1 c1 c2 (conj Hc Hs)) as H.
  pose proof (resolve_has_fuel s1 cfg max_depth manual_overrides root_ico c1) as Hf1.
  pose proof (warnings_in_walk_order s1 (enough_fuel max_depth) root_ico 0 1 c1) as Hord.
  unfold resolve_tree_online in *.
  destruct (walk s1 cfg max_depth manual_overrides (enough_fuel max_depth) root_ico 0 1 c1)
    as [l1 w1 c1'| c1' |];
    destruct (walk s2 cfg max_depth manual_overrides (enough_fuel max_depth) root_ico 0 1 c2)
    as [l2 w2 c2'| c2' |]; simpl in H; try contradiction.
  - destruct H as (<- & <- & Ha). left. exists l1, w1, c1', c2'.
    repeat split; [exact (proj1 Ha) | now eapply Hord].
  - right. now exists c1', c2'.
Qed.

End Determinism.

(* ================================================================== *)
(** ** Aggregation per person *)

Section Aggregation.
Import OwnershipResolveOnline App.

Lemma clamp_range (x : Q) : (0 <= Num.clamp 1 x /\ Num.clamp 1 x <= 1)%Q.
Proof.
  unfold Num.clamp, Num.Qmax', Num.Qmin'.
  destruct (Qlt_le_dec x 1) as [H1|H1].
  - destruct (Qlt_le_dec 0 x) as [H0|H0]; split; lra.
  - destruct (Qlt_le_dec 0 1) as [H0|H0]; split; lra.
Qed.

(** A person line always leaves an entry under the person's name. *)
Lemma scan_line_person (st : Scan) (ln : NodeLine) :
  classify (text ln) = PersonOwner ->
  OD.get (owner_name (text ln)) (persons (scan_line st ln))
  = Some (add_path (default new_entry (OD.get (owner_name (text ln)) (persons st)))
            (top_depth (pop_while (fun d => (d >? Z.max 0 (depth ln - 2))%Z) (header_stack st)))
            (top_mult (pop_while (fun d => (d >? Z.max 0 (depth ln - 2))%Z) (header_stack st)))
            (person_contribution
               (match effective_pct ln with Some e => Some (e / 100)%Q | None => None end)
               (top_mult (pop_while (fun d => (d >? Z.max 0 (depth ln - 2))%Z) (header_stack st)))
               (text ln))
            (text ln)).
Proof.
  intros Hc. unfold scan_line. rewrite Hc. simpl. apply od_get_set_eq.
Qed.

End Aggregation.

(* ================================================================== *)
(** ** The voting block on its computed sum *)

Section VotingBlock.
Import App.
Variable final_persons : list (string * Vals).
Variable block_members : list string.
Variable block_name : string.
Variable threshold_pct : Q.

Local Abbreviation total := (block_total final_persons block_members).
Local Abbreviation T := (thr threshold_pct).
Local Abbreviation reason := (block_reason final_persons block_members block_name threshold_pct).
Local Abbreviation promote := (promote final_persons block_members block_name threshold_pct).

Lemma Qgtb_true (a b : Q) : Num.Qgtb a b = true <-> (b < a)%Q.
Proof. unfold Num.Qgtb. destruct (Qlt_le_dec b a); split; intros; try easy; lra. Qed.

Lemma reasons_of_add (n m r : string) (reasons : list (string * list string)) :
  reasons_of n (add_reason m r reasons)
  = if decide (m = n) then reasons_of n reasons ++ [r] else reasons_of n reasons.
Proof.
  unfold reasons_of, add_reason. destruct (decide (m = n)) as [->|Hne].
  - now rewrite od_get_set_eq.
  - now rewrite od_get_set_ne.
Qed.

(** The block is not applied unless the sum exceeds the threshold. *)
Lemma voting_block_not_applied (acc : list (string * Vals) * list (string * list string)) :
  (total <= T)%Q ->
  voting_block final_persons block_members block_name threshold_pct acc = acc.
Proof.
  intros H. unfold voting_block, block_applies.
  destruct block_members; [reflexivity |].
  destruct (Num.Qgtb _ _) eqn:Hg; [| reflexivity].
  apply Qgtb_true in Hg. lra.
Qed.

Lemma voting_block_applied (acc : list (string * Vals) * list (string * list string)) (n : string) :
  (T < total)%Q -> In n block_members ->
  voting_block final_persons block_members block_name threshold_pct acc
  = fold_left promote block_members acc.
Proof.
  intros H Hin. unfold voting_block, block_applies.
  destruct block_members; [destruct Hin |].
  apply Qgtb_true in H. now rewrite H.
Qed.

(** What the loop over the members does to one name *)
Lemma promote_loop (ms : list string) (acc : list (string * Vals) * list (string * list string))
    (n : string) :
  (forall v, In n ms -> OD.get n final_persons = Some v ->
     OD.get n (fst (fold_left promote ms acc)) = Some v
     /\ In reason (reasons_of n (snd (fold_left promote ms acc))))
  /\ (In reason (reasons_of n (snd (fold_left promote ms acc))) ->
      In reason (reasons_of n (snd acc))
      \/ (In n ms /\ OD.mem n final_persons = true))
  /\ (forall v, OD.get n (fst acc) = Some v -> OD.get n final_persons = Some v ->
        OD.get n (fst (fold_left promote ms acc)) = Some v)
  /\ (In reason (reasons_of n (snd acc)) ->
      In reason (reasons_of n (snd (fold_left promote ms acc)))).
Proof.
  revert acc. induction ms as [|m ms IH]; intros [ubo reasons].
  - simpl. split; [intros v [] |]. split; [now left |]. split; [now intros v Hv _ | easy].
  - simpl fold_left. destruct (IH (promote (ubo, reasons) m)) as (IH1 & IH2 & IH3 & IH4).
    assert (Hstep_ubo : forall v, OD.get n final_persons = Some v ->
              (m = n \/ OD.get n ubo = Some v) ->
              OD.get n (fst (promote (ubo, reasons) m)) = Some v).
    { intros v Hv Hor. unfold App.promote.
      destruct (OD.get m final_persons) as [vm|] eqn:Hm; simpl.
      - destruct (decide (m = n)) as [->|Hne].
        + rewrite od_get_set_eq. congruence.
        + rewrite od_get_set_ne by exact Hne. destruct Hor; [contradiction | assumption].
      - destruct Hor as [->|Hu]; [congruence | exact Hu]. }
    assert (Hstep_reason : (m = n /\ OD.mem n final_persons = true)
              \/ In reason (reasons_of n reasons) ->
              In reason (reasons_of n (snd (promote (ubo, reasons) m)))).
    { intros Hor. unfold App.promote.
      destruct (OD.get m final_persons) as [vm|] eqn:Hm; simpl.
      - rewrite reasons_of_add. destruct (decide (m = n)) as [->|Hne].
        + apply in_or_app. right. now left.
        + destruct Hor as [[? _]|Hr]; [contradiction | exact Hr].
      - destruct Hor as [[-> Hmem]|Hr]; [| exact Hr].
        unfold OD.mem in Hmem. rewrite Hm in Hmem. discriminate. }
    assert (Hback : In reason (reasons_of n (snd (promote (ubo, reasons) m))) ->
              In reason (reasons_of n reasons)
              \/ (m = n /\ OD.mem n final_persons = true)).
    { unfold App.promote.
      destruct (OD.get m final_persons) as [vm|] eqn:Hm; simpl; [| now left].
      rewrite reasons_of_add. destruct (decide (m = n)) as [->|Hne]; [| now left].
      intros _. right. split; [reflexivity |]. unfold OD.mem. now rewrite Hm. }
    split; [| split; [| split]].
    + intros v [->|Hin] Hv.
      * split.
        -- apply IH3; [| exact Hv]. apply Hstep_ubo; [exact Hv | now left].
        -- apply IH4. apply Hstep_reason. left. split; [reflexivity |].
           unfold OD.mem. now rewrite Hv.
      * now apply IH1.
    + intros H. apply IH2 in H as [H|[Hin Hmem]].
      * apply Hback in H as [H|[-> Hmem]]; [now left |].
        right. split; [now left | exact Hmem].
      * right. split; [now right | exact Hmem].
    + intros v Hu Hv. apply IH3; [| exact Hv]. apply Hstep_ubo; [exact Hv | now right].
    + intros H. apply IH4. apply Hstep_reason. now right.
Qed.

(** No reason of the individual criteria is the reason of the block. *)
Lemma individual_reasons (fp : list (string * Vals))
    (acc : list (string * Vals) * list (string * list string)) (n : string) :
  ~ In reason (reasons_of n (snd acc)) ->
  ~ In reason (reasons_of n (snd (fold_left (judge threshold_pct) fp acc))).
Proof.
  revert acc. induction fp as [|[m vals] fp IH]; intros [ubo reasons] H; [exact H |].
  simpl fold_left. apply IH. unfold judge. simpl snd.
  assert (Hadd : forall b r rs, r <> reason -> ~ In reason (reasons_of n rs) ->
                   ~ In reason (reasons_of n (add_reason_if b m r rs))).
  { intros b r rs Hr Hrs. unfold add_reason_if. destruct b; [| exact Hrs].
    rewrite reasons_of_add. destruct (decide (m = n)); [| exact Hrs].
    intros Hin. apply in_app_or in Hin as [Hin|[Hin|[]]]; [now apply Hrs | now apply Hr]. }
  repeat apply Hadd; try exact H; unfold App.block_reason; simpl; discriminate.
Qed.

(** The block rule on the computed values: it is applied exactly when
    the computed sum of the block is strictly greater than the computed
    threshold.  At a computed sum equal to the threshold (or below it)
    the result is that of the individual criteria alone; above it, every
    block member that is in the final person set is in the UBO set with
    the block's reason; and a person carries the block's reason if and
    only if the computed sum exceeds the threshold and the person is a
    block member present in the final person set. *)
Lemma voting_block_on_computed_sum :
  let result := evaluate final_persons block_members block_name threshold_pct in
  ((total == T)%Q -> result = individual_criteria final_persons threshold_pct)
  /\ ((total <= T)%Q -> result = individual_criteria final_persons threshold_pct)
  /\ ((T < total)%Q ->
      forall n v, In n block_members -> OD.get n final_persons = Some v ->
        OD.get n (fst result) = Some v /\ In reason (reasons_of n (snd result)))
  /\ (forall n, In reason (reasons_of n (snd result))
        <-> (T < total)%Q /\ In n block_members /\ OD.mem n final_persons = true).
Proof.
  intros result. unfold result, evaluate.
  assert (Hle : (total <= T)%Q ->
            voting_block final_persons block_members block_name threshold_pct
              (individual_criteria final_persons threshold_pct)
            = individual_criteria final_persons threshold_pct)
    by apply voting_block_not_applied.
  assert (Hind : forall n, ~ In reason (reasons_of n
                   (snd (individual_criteria final_persons threshold_pct)))).
  { intros n. unfold individual_criteria. apply individual_reasons. simpl. intros []. }
  split; [intros H; apply Hle; lra |]. split; [exact Hle |]. split.
  - intros Hgt n v Hin Hv. rewrite (voting_block_applied _ n Hgt Hin).
    now apply promote_loop.
  - intros n. split.
    + intros H. destruct (Qlt_le_dec T total) as [Hgt|Hle'].
      * split; [exact Hgt |].
        destruct block_members as [|m ms] eqn:Hbm.
        { exfalso. unfold voting_block, block_applies in H. simpl in H. now apply (Hind n). }
        rewrite <- Hbm in *.
        assert (Hm : In m block_members) by (rewrite Hbm; now left).
        rewrite (voting_block_applied _ m Hgt Hm) in H.
        apply promote_loop in H as [H|H]; [now apply Hind in H | exact H].
      * rewrite (Hle Hle') in H. now apply Hind in H.
    + intros (Hgt & Hin & Hmem). rewrite (voting_block_applied _ n Hgt Hin).
      unfold OD.mem in Hmem.
      destruct (OD.get n final_persons) as [v|] eqn:Hv; [| discriminate].
      exact (proj2 (proj1 (promote_loop block_members _ n) v Hin Hv)).
Qed.

End VotingBlock.


(** Two persons whose votes add up to exactly 25 % are not promoted at a
    threshold of 25 %. *)
Example block_at_threshold_not_promoted :
  (App.block_total UboExamples.exactly_at_threshold ["Adam"; "Bára"] == App.thr 25)%Q
  /\ App.evaluate UboExamples.exactly_at_threshold ["Adam"; "Bára"] "Voting Block 1" 25
     = ([], []).
Proof. split; vm_compute; reflexivity. Qed.

(* ================================================================== *)
(** ** The theorems at work on the sample data *)

(* ================================================================== *)
(** ** The walker on the sample data *)

Section Witnesses.
Import AresVrExtract AresVrClient OwnershipResolveOnline.

(** Scenario 1 of the specification: the trace of a company owned at
    50 % by one person. *)
Example trace_direct_person :
  exists ls c',
    resolve_tree_online Examples.offline Examples.cfg4 25 ∅ "00000001"
      (Examples.cached [("00000001", Examples.root_novak)]) = Done ls [] c'
    /\ map text ls = [ "Root (IČO 00000001)"; "Společníci:";
                       "Jan Novák — 50.00% (efektivně 50.00%)" ]
    /\ map depth ls = [0; 1; 2]%Z.
Proof. eexists; eexists. split; [vm_compute; reflexivity |]. split; reflexivity. Qed.

(** Two clients with empty caches in front of the same flaky registry,
    one of which has already sent a request elsewhere, resolve alike. *)
Lemma resolve_deterministic_witness :
  cache Examples.fresh = cache Examples.busy
  /\ (forall n url,
        Examples.flaky Examples.root_novak (length (sent Examples.fresh) + n)%nat url
        = Examples.flaky_later Examples.root_novak (length (sent Examples.busy) + n)%nat url)
  /\ exists ls ws c1' c2',
       resolve_tree_online (Examples.flaky Examples.root_novak) Examples.cfg4 25 ∅
         "00000001" Examples.fresh = Done ls ws c1'
       /\ resolve_tree_online (Examples.flaky_later Examples.root_novak) Examples.cfg4 25 ∅
            "00000001" Examples.busy = Done ls ws c2'
       /\ length ls = 3%nat.
Proof.
  assert (Hc : cache Examples.fresh = cache Examples.busy) by reflexivity.
  assert (Hs : forall n url,
             Examples.flaky Examples.root_novak (length (sent Examples.fresh) + n)%nat url
             = Examples.flaky_later Examples.root_novak (length (sent Examples.busy) + n)%nat url)
    by (intros n url; reflexivity).
  split; [exact Hc |]. split; [exact Hs |].
  destruct (resolve_deterministic (Examples.flaky Examples.root_novak)
              (Examples.flaky_later Examples.root_novak) Examples.cfg4 25 ∅
              "00000001" Examples.fresh Examples.busy Hc Hs)
    as [(ls & ws & c1' & c2' & H1 & H2 & _)|(c1' & c2' & H1 & _)].
  - exists ls, ws, c1', c2'. split; [exact H1 |]. split; [exact H2 |].
    vm_compute in H1. injection H1 as <- _ _. reflexivity.
  - vm_compute in H1. discriminate H1.
Defined.

End Witnesses.

(* ================================================================== *)
(** * Further properties of the code *)

(** ** Ranges of the share parsers *)

Section ParserRanges.
Import AresVrExtract OwnershipResolveOnline.

Lemma clamp_range_hi (hi x : Q) :
  (0 <= hi)%Q -> (0 <= Num.clamp hi x /\ Num.clamp hi x <= hi)%Q.
Proof.
  intros Hhi. unfold Num.clamp, Num.Qmax', Num.Qmin'.
  destruct (Qlt_le_dec x hi) as [H1|H1].
  - destruct (Qlt_le_dec 0 x) as [H0|H0]; split; lra.
  - destruct (Qlt_le_dec 0 hi) as [H0|H0]; split; lra.
Qed.

Lemma parse_layers_range (term : Q -> Q -> Q) (pterm : Q -> Q) (hi : Q) (s : string) (q : Q) :
  (0 <= hi)%Q -> parse_layers term pterm hi s = Some q -> (0 <= q <= hi)%Q.
Proof.
  intros Hhi. unfold parse_layers.
  destruct (negb _); [discriminate |].
  repeat (match goal with
          | |- (if snd ?x then _ else _) = _ -> _ =>
              destruct (snd x); [intros [= <-]; now apply clamp_range_hi |]
          end).
  discriminate.
Qed.

(** X1: whatever the text, a share read by a parser that returns a
    fraction lies in [0,1]: the layered parser of the resolver, its copy
    in the application and the reader of the [efektivně X %] marker. *)
Theorem fraction_parsers_in_unit_interval (s : string) (q : Q) :
  OwnershipResolveOnline.parse_pct_from_text s = Some q
  \/ App.parse_pct_from_text s = Some q
  \/ parse_effective_from_text s = Some q ->
  (0 <= q <= 1)%Q.
Proof.
  intros [H|[H|H]].
  - eapply (parse_layers_range _ _ 1 s q); [lra | exact H].
  - eapply (parse_layers_range _ _ 1 s q); [lra | exact H].
  - unfold parse_effective_from_text in H.
    destruct (Re.search _ _) as [[[pre m] rest]|]; [| discriminate].
    destruct (_to_float _); [| discriminate].
    injection H as <-. apply clamp_range_hi. lra.
Qed.

(** A text full of percentages is capped at one. *)
Lemma fraction_parsers_in_unit_interval_witness :
  (exists q, OwnershipResolveOnline.parse_pct_from_text "60 % a 70 %" = Some q
             /\ (0 <= q <= 1)%Q).
Proof.
  eexists. split; [vm_compute; reflexivity |].
  apply (fraction_parsers_in_unit_interval "60 % a 70 %").
  left. vm_compute. reflexivity.
Defined.

(** The share entries of a member *)

Lemma filter_all_deleted (ps : list Podil) :
  Forall (fun p => Notions.is_deleted (podil_datumVymazu p)) ps ->
  List.filter (fun p => _is_active_item (podil_datumVymazu p)) ps = [].
Proof.
  induction 1 as [|p ps Hp _ IH]; simpl; [reflexivity |].
  unfold Notions.is_deleted in Hp. now rewrite Hp.
Qed.

Lemma length_take_le {A} (n : nat) (l : list A) : (length (take n l) <= n)%nat.
Proof. rewrite length_take. lia. Qed.

(** X2: the share of a list of share entries, when there is one, lies in
    [0,100]; the raw text is at most 1000 characters long; and entries
    that are all deleted give no share and an empty text. *)
Theorem share_of_podil_list (podily : list Podil) :
  (forall q, fst (_parse_share_from_podil_list podily) = Some q -> (0 <= q <= 100)%Q)
  /\ (String.length (snd (_parse_share_from_podil_list podily)) <= 1000)%nat
  /\ (Forall (fun p => Notions.is_deleted (podil_datumVymazu p)) podily ->
      _parse_share_from_podil_list podily = (None, "")).
Proof.
  unfold _parse_share_from_podil_list.
  split; [| split].
  - destruct (fold_left _ _ _) as [pct_sum pct_found]. simpl.
    destruct pct_found; [| discriminate].
    intros q [= <-]. apply clamp_range_hi. lra.
  - destruct (fold_left _ _ _) as [pct_sum pct_found]. simpl.
    rewrite length_str. apply length_take_le.
  - intros H. rewrite (filter_all_deleted _ H). reflexivity.
Qed.

Lemma share_of_podil_list_witness :
  Forall (fun p => Notions.is_deleted (podil_datumVymazu p))
    [ {| podil_datumVymazu := Some "2021-05-01"; vklad := None;
         velikostPodilu := Some {| typObnos := Some "PROCENTA"; hodnota := Some "50" |};
         splaceni := None |} ]
  /\ _parse_share_from_podil_list
       [ {| podil_datumVymazu := Some "2021-05-01"; vklad := None;
            velikostPodilu := Some {| typObnos := Some "PROCENTA"; hodnota := Some "50" |};
            splaceni := None |} ] = (None, "").
Proof.
  assert (H : Forall (fun p => Notions.is_deleted (podil_datumVymazu p))
                [ {| podil_datumVymazu := Some "2021-05-01"; vklad := None;
                     velikostPodilu := Some {| typObnos := Some "PROCENTA"; hodnota := Some "50" |};
                     splaceni := None |} ])
    by (repeat constructor).
  split; [exact H |].
  exact (proj2 (proj2 (share_of_podil_list _)) H).
Defined.

End ParserRanges.

(* ================================================================== *)
(** ** Normalised ids *)

Section Ids.
Import AresVrExtract AresVrClient.

Lemma digits_of_digits (l : list ascii) :
  forallb Py.is_digit l = true -> digits_of l = l.
Proof.
  induction l as [|c l IH]; simpl; [reflexivity |].
  intros H. apply andb_true_iff in H as [Hc Hl]. now rewrite Hc, IH.
Qed.

Lemma normalize_ico_shape (x : option string) (r : string) :
  _normalize_ico x = Some r ->
  exists s, x = Some s /\ digits_of (Py.chars s) <> []
    /\ r = Py.str (repeat "0"%char (8 - length (digits_of (Py.chars s)))
                     ++ digits_of (Py.chars s)).
Proof.
  unfold _normalize_ico. destruct x as [[|c s']|]; try discriminate.
  rewrite digits_of_strip.
  remember (digits_of (Py.chars (String c s'))) as ds eqn:Hds.
  destruct (Py.nonempty (Py.str ds)) eqn:Hn; [| discriminate].
  intros [= <-]. exists (String c s'). rewrite <- Hds.
  split; [reflexivity |]. split.
  - intros ->. discriminate Hn.
  - apply zfill_digits. subst ds. apply digits_of_all_digits.
Qed.

Lemma norm_ico_of_digits (l : list ascii) :
  forallb Py.is_digit l = true -> length l <> 7%nat ->
  norm_ico (Py.str l) = Py.str l.
Proof.
  intros Hd Hl. unfold norm_ico. rewrite chars_str, (digits_of_digits _ Hd).
  destruct (Nat.eqb_spec (length l) 7); [contradiction | reflexivity].
Qed.

(** X3: normalising an id twice is normalising it once, for the client's
    [norm_ico] and for the extractor's [_normalize_ico]; the extractor
    gives no id exactly when the text has no digit, and otherwise the
    digits padded with zeros to eight characters, which the client's
    normaliser leaves as they are: the id of an owner in the trace is the
    key of its row in the cache. *)
Theorem normalised_ids_are_stable (s : string) :
  norm_ico (norm_ico s) = norm_ico s
  /\ (_normalize_ico (Some s) = None <-> digits_of (Py.chars s) = [])
  /\ forall r, _normalize_ico (Some s) = Some r ->
       forallb Py.is_digit (Py.chars r) = true
       /\ String.length r = Nat.max 8 (length (digits_of (Py.chars s)))
       /\ _normalize_ico (Some r) = Some r
       /\ norm_ico r = r.
Proof.
  split; [| split].
  - unfold norm_ico at 2 3.
    pose proof (digits_of_all_digits (Py.chars s)) as Hd.
    destruct (Nat.eqb_spec (length (digits_of (Py.chars s))) 7) as [H7|H7].
    + apply norm_ico_of_digits; [exact Hd | simpl; lia].
    + apply norm_ico_of_digits; [exact Hd | exact H7].
  - unfold _normalize_ico. destruct s as [|c s']; [now split |].
    rewrite digits_of_strip.
    destruct (digits_of (Py.chars (String c s'))); simpl; split; try easy.
  - intros r Hr. apply normalize_ico_shape in Hr as (s0 & [= <-] & Hne & ->).
    set (ds := digits_of (Py.chars s)) in *.
    set (l := repeat "0"%char (8 - length ds) ++ ds).
    assert (Hl : forallb Py.is_digit l = true).
    { apply forallb_app_true; [apply forallb_repeat_zero | apply digits_of_all_digits]. }
    assert (Hlen : length l = Nat.max 8 (length ds)).
    { unfold l. rewrite length_app, repeat_length. lia. }
    rewrite chars_str, length_str. split; [exact Hl |]. split; [exact Hlen |].
    split.
    + unfold _normalize_ico.
      destruct (Py.str l) as [|c0 s0] eqn:Hstr.
      { apply (f_equal String.length) in Hstr. rewrite length_str in Hstr. simpl in Hstr. lia. }
      rewrite <- Hstr. rewrite digits_of_strip, chars_str, (digits_of_digits _ Hl).
      assert (Hn : Py.nonempty (Py.str l) = true) by now rewrite Hstr.
      rewrite Hn, (zfill_digits 8 l Hl).
      replace (8 - length l)%nat with 0%nat by lia. reflexivity.
    + apply norm_ico_of_digits; [exact Hl | lia].
Qed.

Lemma normalised_ids_are_stable_witness :
  _normalize_ico (Some "CZ 123-45") = Some "00012345"
  /\ norm_ico "00012345" = "00012345"
  /\ _normalize_ico (Some "00012345") = Some "00012345".
Proof.
  assert (H : _normalize_ico (Some "CZ 123-45") = Some "00012345") by reflexivity.
  split; [exact H |].
  destruct (proj2 (proj2 (normalised_ids_are_stable "CZ 123-45")) _ H) as (_ & _ & H1 & H2).
  split; [exact H2 | exact H1].
Defined.

End Ids.

(* ================================================================== *)
(** ** The owners the extractor reports *)

Section ExtractFacts.
Import AresVrExtract.

Lemma or_str_nonempty (o : option string) (d : string) : d <> "" -> Py.or_str o d <> "".
Proof. intros Hd. destruct o as [[|c s]|]; simpl; try exact Hd. discriminate. Qed.

Lemma person_name_nonempty (fos : FyzickaOsoba) : _person_name fos <> "".
Proof.
  unfold _person_name.
  destruct (Py.nonempty (Py.strip _)) eqn:H; [| discriminate].
  intros E. rewrite E in H. discriminate H.
Qed.

Lemma company_of_ico (pos : PravnickaOsoba) (i : string) :
  snd (company_of pos) = Some i ->
  forallb Py.is_digit (Py.chars i) = true /\ (8 <= String.length i)%nat.
Proof.
  unfold company_of. cbv zeta. cbn [snd].
  destruct (_normalize_ico (po_ico pos)) as [r|] eqn:Hr; [| discriminate].
  intros [= ->].
  destruct (normalize_ico_shape _ _ Hr) as (s & _ & Hne & Hs). subst i.
  rewrite chars_str, length_str, length_app, repeat_length. split; [| lia].
  apply forallb_app_true; [apply forallb_repeat_zero | apply digits_of_all_digits].
Qed.

Lemma od_set_Forall {K V} `{EqDecision K} (P : K * V -> Prop) (k : K) (v : V)
    (d : list (K * V)) :
  P (k, v) -> Forall P d -> Forall P (OD.set k v d).
Proof.
  intros Hv. induction 1 as [|[k' v'] d Hx Hd IH]; simpl.
  - now repeat constructor.
  - destruct (decide (k = k')); constructor; auto.
Qed.

Lemma scan_spolecnik_filed_well (lbl : string) (latest : list ((string * string) * Latest))
    (sp : Spolecnik) :
  lbl <> "" -> Forall Notions.filed_well latest -> Forall Notions.filed_well (scan_spolecnik lbl latest sp).
Proof.
  intros Hl Hall. unfold scan_spolecnik.
  destruct (negb _); [exact Hall |].
  destruct (sp_osoba sp ≫= pravnickaOsoba) as [pos|] eqn:Hpos.
  - destruct (company_of pos) as [o_name o_ico] eqn:Hco.
    destruct (match OD.get _ latest with Some _ => _ | None => true end); [| exact Hall].
    apply od_set_Forall; [| exact Hall].
    split; [exact Hl |]. split; [discriminate |]. simpl.
    intros i Hi. split; [reflexivity |].
    apply (company_of_ico pos). now rewrite Hco.
  - destruct (sp_osoba sp ≫= fyzickaOsoba) as [fos|]; [| exact Hall].
    destruct (match OD.get _ latest with Some _ => _ | None => true end); [| exact Hall].
    apply od_set_Forall; [| exact Hall].
    split; [exact Hl |]. split; [| discriminate]. simpl.
    intros _. split; [reflexivity | apply person_name_nonempty].
Qed.

Lemma scan_blok_filed_well (latest : list ((string * string) * Latest)) (blok : SpolecniciBlok) :
  Forall Notions.filed_well latest -> Forall Notions.filed_well (scan_blok latest blok).
Proof.
  intros Hall. unfold scan_blok. destruct (negb _); [exact Hall |].
  assert (Hl : Py.or_str (blok_nazevOrganu blok) "Společníci" <> "")
    by (apply or_str_nonempty; discriminate).
  revert latest Hall. induction (blok_spolecnik blok) as [|sp sps IH]; intros latest Hall;
    simpl; [exact Hall |].
  apply IH. now apply scan_spolecnik_filed_well.
Qed.

Lemma fold_scan_blok_filed_well (bloks : list SpolecniciBlok)
    (latest : list ((string * string) * Latest)) :
  Forall Notions.filed_well latest -> Forall Notions.filed_well (fold_left scan_blok bloks latest).
Proof.
  revert latest. induction bloks as [|b bs IH]; intros latest Hall; simpl; [exact Hall |].
  apply IH. now apply scan_blok_filed_well.
Qed.

Lemma scan_org_well_formed (org : AkcionariOrgan) (o : Owner) :
  In o (scan_org org) -> Notions.well_formed_owner o.
Proof.
  unfold scan_org. destruct (negb _); [intros [] |].
  intros H. apply in_flat_map in H as (a & _ & H).
  assert (Hl : Py.or_str (org_nazevOrganu org) "Akcionáři" <> "")
    by (apply or_str_nonempty; discriminate).
  unfold scan_clen in H. destruct (negb _); [destruct H |].
  destruct (clen_pravnickaOsoba a) as [pos|].
  - destruct (company_of pos) as [o_name o_ico] eqn:Hco.
    destruct H as [<-|[]]. split; [exact Hl |]. split; [discriminate |]. simpl.
    intros i Hi. split; [reflexivity |]. apply (company_of_ico pos). now rewrite Hco.
  - destruct (clen_fyzickaOsoba a) as [fos|]; [| destruct H].
    destruct H as [<-|[]]. split; [exact Hl |]. split; [| discriminate]. simpl.
    intros _. split; [reflexivity | apply person_name_nonempty].
Qed.

(** X4: every owner the extractor reports has a label; a person has a
    name and no registry id; a registry id is carried by companies only,
    consists of digits and is at least eight characters long. *)
Theorem extracted_owners_are_well_formed (vr_payload : Payload) (o : Owner) :
  In o (snd (extract_current_owners vr_payload)) ->
  Notions.well_formed_owner o.
Proof.
  unfold extract_current_owners.
  destruct (_pick_primary_or_record (zaznamy vr_payload)) as [zaznam|]; [| intros []].
  simpl. intros H. apply in_app_or in H as [H|H].
  - apply in_map_iff in H as (kv & <- & Hkv).
    pose proof (fold_scan_blok_filed_well (spolecnici zaznam) [] (List.Forall_nil _)) as Hall.
    rewrite List.Forall_forall in Hall. specialize (Hall kv Hkv).
    destruct Hall as (H1 & H2 & H3). unfold owner_of_latest.
    destruct (_parse_share_from_podil_list _) as [share raw].
    split; [exact H1 |]. split; [exact H2 | exact H3].
  - apply in_flat_map in H as (org & _ & H). now apply (scan_org_well_formed org).
Qed.

Lemma extracted_owners_are_well_formed_witness :
  In (nth 0 (snd (extract_current_owners Examples.root_chain))
        {| kind := PERSON; name := ""; ico := None; share_pct := None;
           share_raw := None; label := "" |})
     (snd (extract_current_owners Examples.root_chain))
  /\ Notions.well_formed_owner
       (nth 0 (snd (extract_current_owners Examples.root_chain))
          {| kind := PERSON; name := ""; ico := None; share_pct := None;
             share_raw := None; label := "" |}).
Proof.
  assert (H : In (nth 0 (snd (extract_current_owners Examples.root_chain))
                    {| kind := PERSON; name := ""; ico := None; share_pct := None;
                       share_raw := None; label := "" |})
                 (snd (extract_current_owners Examples.root_chain)))
    by (vm_compute; left; reflexivity).
  split; [exact H |].
  exact (extracted_owners_are_well_formed Examples.root_chain _ H).
Defined.

Lemma fold_scan_spolecnik_dead (lbl : string) (sps : list Spolecnik)
    (latest : list ((string * string) * Latest)) :
  Forall (fun sp => Notions.is_deleted (sp_datumVymazu sp)) sps ->
  fold_left (scan_spolecnik lbl) sps latest = latest.
Proof.
  intros H. revert latest. induction H as [|sp sps Hsp _ IH]; intros latest; simpl;
    [reflexivity |].
  rewrite IH. unfold scan_spolecnik. unfold Notions.is_deleted in Hsp. now rewrite Hsp.
Qed.

Lemma fold_scan_blok_dead (bloks : list SpolecniciBlok)
    (latest : list ((string * string) * Latest)) :
  Forall Notions.blok_dead bloks -> fold_left scan_blok bloks latest = latest.
Proof.
  intros H. revert latest. induction H as [|b bs Hb _ IH]; intros latest; simpl;
    [reflexivity |].
  rewrite IH. unfold scan_blok. destruct Hb as [Hb|Hb].
  - unfold Notions.is_deleted in Hb. now rewrite Hb.
  - destruct (negb _); [reflexivity |]. now apply fold_scan_spolecnik_dead.
Qed.

Lemma flat_map_scan_org_dead (orgs : list AkcionariOrgan) :
  Forall Notions.org_dead orgs -> flat_map scan_org orgs = [].
Proof.
  induction 1 as [|g gs Hg _ IH]; simpl; [reflexivity |].
  rewrite IH, app_nil_r. unfold scan_org. destruct Hg as [Hg|Hg].
  - unfold Notions.is_deleted in Hg. now rewrite Hg.
  - destruct (negb _); [reflexivity |].
    induction Hg as [|a l Ha _ IHa]; simpl; [reflexivity |].
    rewrite IHa, app_nil_r. unfold scan_clen.
    unfold Notions.is_deleted in Ha. now rewrite Ha.
Qed.

(** X5: a payload without records, or whose primary record has only
    deleted member blocks, deleted members, deleted shareholder sections
    and deleted shareholders, yields no owner. *)
Theorem only_deleted_entries_give_no_owner (vr_payload : Payload) :
  (forall zaznam, _pick_primary_or_record (zaznamy vr_payload) = Some zaznam ->
     Forall Notions.blok_dead (spolecnici zaznam)
     /\ Forall Notions.org_dead (akcionari zaznam)) ->
  snd (extract_current_owners vr_payload) = [].
Proof.
  intros H. unfold extract_current_owners.
  destruct (_pick_primary_or_record (zaznamy vr_payload)) as [zaznam|]; [| reflexivity].
  destruct (H zaznam eq_refl) as [Hb Ho]. simpl.
  now rewrite (fold_scan_blok_dead _ _ Hb), (flat_map_scan_org_dead _ Ho).
Qed.

End ExtractFacts.

Lemma only_deleted_entries_give_no_owner_witness :
  snd (AresVrExtract.extract_current_owners MoreExamples.all_deleted) = [].
Proof.
  apply only_deleted_entries_give_no_owner.
  intros zaznam H. cbv in H. injection H as <-. split.
  - constructor; [| constructor]. right. constructor; [reflexivity | constructor].
  - constructor; [| constructor]. left. reflexivity.
Defined.

(* ================================================================== *)
(** ** Duplicates among the members *)

Section Dedup.
Import AresVrExtract.

Lemma od_set_keys {K V} `{EqDecision K} (k : K) (v : V) (d : list (K * V)) (k' : K) :
  In k' (map fst (OD.set k v d)) <-> k' = k \/ In k' (map fst d).
Proof.
  induction d as [|[k0 v0] d IH]; simpl.
  - intuition congruence.
  - destruct (decide (k = k0)) as [->|Hne]; simpl.
    + intuition congruence.
    + rewrite IH. intuition congruence.
Qed.

Lemma od_set_nodup {K V} `{EqDecision K} (k : K) (v : V) (d : list (K * V)) :
  List.NoDup (map fst d) -> List.NoDup (map fst (OD.set k v d)).
Proof.
  induction d as [|[k0 v0] d IH]; simpl; intros Hd.
  - constructor; [intros [] | constructor].
  - inversion Hd as [|? ? Hnin Hd']; subst.
    destruct (decide (k = k0)) as [->|Hne]; simpl.
    + now constructor.
    + constructor; [| now apply IH].
      rewrite od_set_keys. intros [->|H]; [contradiction | contradiction].
Qed.

Lemma od_get_in_nodup {K V} `{EqDecision K} (k : K) (v : V) (d : list (K * V)) :
  List.NoDup (map fst d) -> In (k, v) d -> OD.get k d = Some v.
Proof.
  induction d as [|[k0 v0] d IH]; simpl; intros Hd; [intros [] |].
  inversion Hd as [|? ? Hnin Hd']; subst.
  intros [[= -> ->]|Hin].
  - destruct (decide (k = k)); [reflexivity | contradiction].
  - destruct (decide (k = k0)) as [->|Hne]; [| now apply IH].
    exfalso. apply Hnin. apply in_map_iff. now exists (k0, v).
Qed.

(** The two outcomes of the loop body for one member: nothing is filed,
    or the member is filed under its key, in which case it is active and
    strictly newer than the record it replaces. *)
Lemma scan_spolecnik_cases (lbl : string) (latest : list ((string * string) * Latest))
    (sp : Spolecnik) :
  (scan_spolecnik lbl latest sp = latest
   /\ (_is_active_item (sp_datumVymazu sp) = true ->
       forall ident, Notions.member_ident sp = Some ident ->
         exists prev, OD.get (lbl, ident) latest = Some prev
           /\ (Notions.member_date (sp_datumZapisu sp)
               <= Notions.member_date (rec_datumZapisu prev))%Z))
  \/ (exists ident rec,
        _is_active_item (sp_datumVymazu sp) = true
        /\ Notions.member_ident sp = Some ident
        /\ scan_spolecnik lbl latest sp = OD.set (lbl, ident) rec latest
        /\ Notions.filed_key rec = (lbl, ident)
        /\ rec_spolecnik rec = sp
        /\ rec_datumZapisu rec = sp_datumZapisu sp
        /\ (forall prev, OD.get (lbl, ident) latest = Some prev ->
              (Notions.member_date (rec_datumZapisu prev)
               < Notions.member_date (sp_datumZapisu sp))%Z)).
Proof.
  unfold scan_spolecnik, Notions.member_ident.
  destruct (_is_active_item (sp_datumVymazu sp)) eqn:Hact; simpl negb; cbv iota;
    [| left; split; [reflexivity | discriminate]].
  destruct (sp_osoba sp ≫= pravnickaOsoba) as [pos|].
  - destruct (company_of pos) as [o_name o_ico].
    set (ident := "COMPANY:" +:+ Py.or_str o_ico o_name).
    destruct (OD.get (lbl, ident) latest) as [prev|] eqn:Hprev; simpl.
    + fold (Notions.member_date (rec_datumZapisu prev)).
      fold (Notions.member_date (sp_datumZapisu sp)).
      destruct (Z.ltb_spec (Notions.member_date (rec_datumZapisu prev))
                  (Notions.member_date (sp_datumZapisu sp))) as [Hlt|Hge].
      * right. eexists ident, _. repeat split; try reflexivity.
        intros p Hp. rewrite Hprev in Hp. injection Hp as <-. exact Hlt.
      * left. split; [reflexivity |]. intros _ i [= <-]. exists prev. now split.
    + right. eexists ident, _. repeat split; try reflexivity.
      intros p Hp. rewrite Hprev in Hp. discriminate Hp.
  - destruct (sp_osoba sp ≫= fyzickaOsoba) as [fos|];
      [| left; split; [reflexivity | intros _ i; discriminate]].
    set (ident := "PERSON:" +:+ _person_name fos).
    destruct (OD.get (lbl, ident) latest) as [prev|] eqn:Hprev; simpl.
    + fold (Notions.member_date (rec_datumZapisu prev)).
      fold (Notions.member_date (sp_datumZapisu sp)).
      destruct (Z.ltb_spec (Notions.member_date (rec_datumZapisu prev))
                  (Notions.member_date (sp_datumZapisu sp))) as [Hlt|Hge].
      * right. eexists ident, _. repeat split; try reflexivity.
        intros p Hp. rewrite Hprev in Hp. injection Hp as <-. exact Hlt.
      * left. split; [reflexivity |]. intros _ i [= <-]. exists prev. now split.
    + right. eexists ident, _. repeat split; try reflexivity.
      intros p Hp. rewrite Hprev in Hp. discriminate Hp.
Qed.

Lemma scan_spolecnik_tidy lbl latest sp : Notions.tidy latest -> Notions.tidy (scan_spolecnik lbl latest sp).
Proof.
  intros [Hn Hk].
  destruct (scan_spolecnik_cases lbl latest sp)
    as [[-> _]|(ident & rec & _ & _ & -> & Hkey & Hsp & Hdz & _)]; [now split |].
  split; [now apply od_set_nodup |]. apply od_set_Forall; [| exact Hk].
  simpl. split; [now rewrite Hkey | congruence].
Qed.

Lemma scan_blok_tidy latest blok : Notions.tidy latest -> Notions.tidy (scan_blok latest blok).
Proof.
  intros H. unfold scan_blok. destruct (negb _); [exact H |].
  revert latest H. induction (blok_spolecnik blok) as [|sp sps IH]; intros latest H; simpl;
    [exact H |].
  apply IH. now apply scan_spolecnik_tidy.
Qed.

Lemma fold_scan_blok_tidy bloks latest : Notions.tidy latest -> Notions.tidy (fold_left scan_blok bloks latest).
Proof.
  revert latest. induction bloks as [|b bs IH]; intros latest H; simpl; [exact H |].
  apply IH. now apply scan_blok_tidy.
Qed.

Lemma owner_key_of_latest (rec : Latest) :
  Notions.owner_key (owner_of_latest rec)
  = (rec_label rec, rec_kind rec, Py.or_str (rec_ico rec) (rec_name rec)).
Proof.
  unfold owner_of_latest. destruct (_parse_share_from_podil_list _). reflexivity.
Qed.

Lemma extract_members_only (vr_payload : Payload) (zaznam : Zaznam) :
  _pick_primary_or_record (zaznamy vr_payload) = Some zaznam ->
  snd (extract_current_owners vr_payload)
  = map (fun kv => owner_of_latest (snd kv)) (fold_left scan_blok (spolecnici zaznam) [])
    ++ flat_map scan_org (akcionari zaznam).
Proof. intros H. unfold extract_current_owners. rewrite H. reflexivity. Qed.

(** X6: among the owners of a company that has members only (no
    shareholder section), no two share label, kind and identity (the
    registry id or, without one, the name). *)
Theorem members_are_deduplicated (vr_payload : Payload) :
  (forall zaznam, _pick_primary_or_record (zaznamy vr_payload) = Some zaznam ->
     akcionari zaznam = []) ->
  List.NoDup (map Notions.owner_key (snd (extract_current_owners vr_payload))).
Proof.
  intros Hno.
  destruct (_pick_primary_or_record (zaznamy vr_payload)) as [zaznam|] eqn:Hpick.
  2:{ unfold extract_current_owners. rewrite Hpick. constructor. }
  rewrite (extract_members_only _ _ Hpick), (Hno zaznam eq_refl). simpl. rewrite app_nil_r.
  destruct (fold_scan_blok_tidy (spolecnici zaznam) [])
    as [Hn Hk]; [split; constructor |].
  set (latest := fold_left scan_blok (spolecnici zaznam) []) in *.
  rewrite map_map. apply NoDup_map_NoDup_ForallPairs; [| now apply NoDup_map_inv in Hn].
  intros [k1 r1] [k2 r2] H1 H2 Heq. simpl in Heq.
  rewrite !owner_key_of_latest in Heq. injection Heq as Hl Hkd Hid.
  rewrite List.Forall_forall in Hk.
  destruct (Hk _ H1) as [E1 _]. destruct (Hk _ H2) as [E2 _]. simpl in E1, E2.
  assert (Hkeys : k1 = k2).
  { rewrite E1, E2. unfold Notions.filed_key. now rewrite Hl, Hkd, Hid. }
  subst k2.
  pose proof (od_get_in_nodup _ _ _ Hn H1) as G1.
  pose proof (od_get_in_nodup _ _ _ Hn H2) as G2.
  congruence.
Qed.

(** Records only become newer. *)
Lemma scan_spolecnik_grows lbl latest sp k prev :
  OD.get k latest = Some prev ->
  exists rec, OD.get k (scan_spolecnik lbl latest sp) = Some rec
    /\ (Notions.member_date (rec_datumZapisu prev)
        <= Notions.member_date (rec_datumZapisu rec))%Z.
Proof.
  intros Hget.
  destruct (scan_spolecnik_cases lbl latest sp)
    as [[-> _]|(ident & rec & _ & _ & -> & _ & _ & Hdz & Hnew)].
  - exists prev. split; [exact Hget | lia].
  - destruct (decide ((lbl, ident) = k)) as [<-|Hne].
    + exists rec. rewrite od_get_set_eq. split; [reflexivity |].
      rewrite Hdz. specialize (Hnew _ Hget). lia.
    + exists prev. rewrite od_get_set_ne by exact Hne. split; [exact Hget | lia].
Qed.

Lemma fold_scan_spolecnik_grows lbl sps latest k prev :
  OD.get k latest = Some prev ->
  exists rec, OD.get k (fold_left (scan_spolecnik lbl) sps latest) = Some rec
    /\ (Notions.member_date (rec_datumZapisu prev)
        <= Notions.member_date (rec_datumZapisu rec))%Z.
Proof.
  revert latest prev. induction sps as [|sp sps IH]; intros latest prev Hget; simpl.
  - exists prev. split; [exact Hget | lia].
  - destruct (scan_spolecnik_grows lbl latest sp k prev Hget) as (r1 & H1 & L1).
    destruct (IH _ _ H1) as (r2 & H2 & L2). exists r2. split; [exact H2 | lia].
Qed.

Lemma fold_scan_blok_grows bloks latest k prev :
  OD.get k latest = Some prev ->
  exists rec, OD.get k (fold_left scan_blok bloks latest) = Some rec
    /\ (Notions.member_date (rec_datumZapisu prev)
        <= Notions.member_date (rec_datumZapisu rec))%Z.
Proof.
  revert latest prev. induction bloks as [|b bs IH]; intros latest prev Hget; simpl.
  - exists prev. split; [exact Hget | lia].
  - assert (H1 : exists r1, OD.get k (scan_blok latest b) = Some r1
                   /\ (Notions.member_date (rec_datumZapisu prev)
                       <= Notions.member_date (rec_datumZapisu r1))%Z).
    { unfold scan_blok. destruct (negb _).
      - exists prev. split; [exact Hget | lia].
      - now apply fold_scan_spolecnik_grows. }
    destruct H1 as (r1 & H1 & L1).
    destruct (IH _ _ H1) as (r2 & H2 & L2). exists r2. split; [exact H2 | lia].
Qed.

Lemma fold_scan_spolecnik_files lbl sps latest sp ident :
  In sp sps ->
  _is_active_item (sp_datumVymazu sp) = true ->
  Notions.member_ident sp = Some ident ->
  exists rec, OD.get (lbl, ident) (fold_left (scan_spolecnik lbl) sps latest) = Some rec
    /\ (Notions.member_date (sp_datumZapisu sp)
        <= Notions.member_date (rec_datumZapisu rec))%Z.
Proof.
  revert latest. induction sps as [|x sps IH]; intros latest; [intros [] |].
  intros [->|Hin] Hact Hid; simpl.
  - assert (H1 : exists r1, OD.get (lbl, ident) (scan_spolecnik lbl latest sp) = Some r1
                   /\ (Notions.member_date (sp_datumZapisu sp)
                       <= Notions.member_date (rec_datumZapisu r1))%Z).
    { destruct (scan_spolecnik_cases lbl latest sp)
        as [[-> Hkeep]|(ident' & rec & _ & Hid' & -> & _ & _ & Hdz & _)].
      - destruct (Hkeep Hact ident Hid) as (prev & Hp & Hle). now exists prev.
      - assert (ident' = ident) by congruence. subst ident'.
        exists rec. rewrite od_get_set_eq. split; [reflexivity |]. rewrite Hdz. lia. }
    destruct H1 as (r1 & H1 & L1).
    destruct (fold_scan_spolecnik_grows lbl sps _ _ _ H1) as (r2 & H2 & L2).
    exists r2. split; [exact H2 | lia].
  - now apply IH.
Qed.

(** X7: for every active member of an active block, the record kept under
    the member's label and identity is reported as an owner, and its
    registration date is not older than the member's own (an unreadable
    or missing date counting as the oldest). *)
Theorem newest_registration_is_kept (vr_payload : Payload) (zaznam : Zaznam)
    (blok : SpolecniciBlok) (sp : Spolecnik) (ident : string) :
  _pick_primary_or_record (zaznamy vr_payload) = Some zaznam ->
  In blok (spolecnici zaznam) ->
  _is_active_item (blok_datumVymazu blok) = true ->
  In sp (blok_spolecnik blok) ->
  _is_active_item (sp_datumVymazu sp) = true ->
  Notions.member_ident sp = Some ident ->
  exists rec,
    In (owner_of_latest rec) (snd (extract_current_owners vr_payload))
    /\ Notions.filed_key rec = (Py.or_str (blok_nazevOrganu blok) "Společníci", ident)
    /\ rec_datumZapisu rec = sp_datumZapisu (rec_spolecnik rec)
    /\ (Notions.member_date (sp_datumZapisu sp)
        <= Notions.member_date (rec_datumZapisu rec))%Z.
Proof.
  intros Hpick Hb Hbact Hsp Hact Hid.
  set (lbl := Py.or_str (blok_nazevOrganu blok) "Společníci").
  assert (Hfold : forall bloks latest, In blok bloks ->
            exists rec, OD.get (lbl, ident) (fold_left scan_blok bloks latest) = Some rec
              /\ (Notions.member_date (sp_datumZapisu sp)
                  <= Notions.member_date (rec_datumZapisu rec))%Z).
  { induction bloks as [|b bs IH]; intros latest; [intros [] |].
    intros [->|Hin]; simpl; [| now apply IH].
    assert (H1 : exists r1, OD.get (lbl, ident) (scan_blok latest blok) = Some r1
                   /\ (Notions.member_date (sp_datumZapisu sp)
                       <= Notions.member_date (rec_datumZapisu r1))%Z).
    { unfold scan_blok. rewrite Hbact. simpl. now apply fold_scan_spolecnik_files. }
    destruct H1 as (r1 & H1 & L1).
    destruct (fold_scan_blok_grows bs _ _ _ H1) as (r2 & H2 & L2).
    exists r2. split; [exact H2 | lia]. }
  destruct (Hfold (spolecnici zaznam) [] Hb) as (rec & Hget & Hle).
  destruct (fold_scan_blok_tidy (spolecnici zaznam) [])
    as [_ Hk]; [split; constructor |].
  apply od_get_In in Hget.
  rewrite List.Forall_forall in Hk. destruct (Hk _ Hget) as [Hkey Hdz]. simpl in Hkey, Hdz.
  exists rec. split; [| split; [now rewrite <- Hkey | split; [exact Hdz | exact Hle]]].
  rewrite (extract_members_only _ _ Hpick). apply in_or_app. left.
  apply in_map_iff. now exists (lbl, ident, rec).
Qed.

End Dedup.

(** Of two registrations of the same member, the one of 2022 is reported
    although the one of 2020 comes last. *)
Lemma newest_registration_is_kept_witness :
  exists rec,
    In (AresVrExtract.owner_of_latest rec)
       (snd (AresVrExtract.extract_current_owners MoreExamples.twice_registered))
    /\ (Notions.member_date (Some "2020-01-01")
        <= Notions.member_date (AresVrExtract.rec_datumZapisu rec))%Z
    /\ map AresVrExtract.share_pct
         (snd (AresVrExtract.extract_current_owners MoreExamples.twice_registered))
       = [Some 60%Q].
Proof.
  destruct (newest_registration_is_kept MoreExamples.twice_registered
              (nth 0 (AresVrExtract.zaznamy MoreExamples.twice_registered)
                 {| AresVrExtract.primarniZaznam := false; AresVrExtract.obchodniJmeno := [];
                    AresVrExtract.spolecnici := []; AresVrExtract.akcionari := [] |})
              {| AresVrExtract.blok_datumVymazu := None;
                 AresVrExtract.blok_nazevOrganu := Some "Společníci";
                 AresVrExtract.blok_spolecnik :=
                   [MoreExamples.registered "2022-06-01" "60";
                    MoreExamples.registered "2020-01-01" "40"] |}
              (MoreExamples.registered "2020-01-01" "40")
              "PERSON:Jan Novák")
    as (rec & Hin & _ & _ & Hle).
  - reflexivity.
  - left. reflexivity.
  - reflexivity.
  - right. left. reflexivity.
  - reflexivity.
  - reflexivity.
  - exists rec. split; [exact Hin |]. split; [exact Hle |]. vm_compute. reflexivity.
Defined.

Lemma members_are_deduplicated_witness :
  List.NoDup (map Notions.owner_key
                (snd (AresVrExtract.extract_current_owners MoreExamples.twice_registered)))
  /\ length (snd (AresVrExtract.extract_current_owners MoreExamples.twice_registered)) = 1%nat.
Proof.
  split; [| reflexivity].
  apply members_are_deduplicated. intros zaznam H. cbv in H. injection H as <-. reflexivity.
Defined.

(* ================================================================== *)
(** ** Owner groups and manual owners *)

Section Groups.
Import AresVrExtract AresVrClient OwnershipResolveOnline.

Local Abbreviation with_label l :=
  (List.filter (fun o : Owner => bool_decide (AresVrExtract.label o = l))).

Lemma group_fold_get (owners : list Owner) (d : list (string * list Owner)) (l : string) :
  OD.get l
    (fold_left
       (fun by_label o =>
          OD.set (AresVrExtract.label o)
            (default [] (OD.get (AresVrExtract.label o) by_label) ++ [o]) by_label)
       owners d)
  = match OD.get l d, with_label l owners with
    | None, [] => None
    | None, g => Some g
    | Some g0, g => Some (g0 ++ g)
    end.
Proof.
  revert d. induction owners as [|o owners IH]; intros d; simpl.
  - destruct (OD.get l d); [now rewrite app_nil_r | reflexivity].
  - rewrite IH. destruct (bool_decide_reflect (AresVrExtract.label o = l)) as [->|Hne].
    + rewrite od_get_set_eq. destruct (OD.get l d) as [g0|]; simpl.
      * now rewrite <- app_assoc.
      * reflexivity.
    + rewrite od_get_set_ne by exact Hne. reflexivity.
Qed.

Lemma group_fold_nodup (owners : list Owner) (d : list (string * list Owner)) :
  List.NoDup (map fst d) ->
  List.NoDup
    (map fst
       (fold_left
          (fun by_label o =>
             OD.set (AresVrExtract.label o)
               (default [] (OD.get (AresVrExtract.label o) by_label) ++ [o]) by_label)
          owners d)).
Proof.
  revert d. induction owners as [|o owners IH]; intros d Hd; simpl; [exact Hd |].
  apply IH. now apply od_set_nodup.
Qed.

(** X8: grouping by label loses and invents nothing: no label has two
    groups, and the group of a label holds exactly the owners with that
    label, in their order; a label without owner has no group. *)
Theorem groups_hold_the_owners_of_their_label (owners : list Owner) :
  List.NoDup (map fst (group_by_label owners))
  /\ forall l,
       OD.get l (group_by_label owners)
       = match with_label l owners with
         | [] => None
         | g => Some g
         end.
Proof.
  split.
  - apply group_fold_nodup. constructor.
  - intros l. unfold group_by_label. now rewrite group_fold_get.
Qed.

Variable server : Server.
Variable cfg : AresClientConfig.
Variable manual_overrides : gmap string (list (string * Q)).

Lemma manual_owners_shape (entries : list (string * Q)) (c : Client) :
  Forall2
    (fun o e =>
       kind o = COMPANY /\ AresVrExtract.label o = "Manuálně doplněno"
       /\ ico o = Some (Py.zfill 8 (fst e))
       /\ share_pct o = Some (snd e * 100)%Q)
    (fst (manual_owners server cfg entries c)) entries.
Proof.
  revert c. induction entries as [|[oi sh] es IH]; intros c; simpl; [constructor |].
  unfold manual_owner. destruct (get_vr server cfg oi false c) as [reply c1].
  specialize (IH c1). destruct (manual_owners server cfg es c1) as [os c2]. simpl in *.
  constructor; [| exact IH]. simpl. repeat split.
Qed.

(** X9: manual overrides are appended to the owners read from the
    registry and never replace them: the merged list is the registry's
    list followed by one company owner per override entry, labelled
    "Manuálně doplněno", with the entry's id padded to eight characters
    and the entry's fraction as a percentage. *)
Theorem manual_owners_are_appended (c_ico : string) (owners0 : list Owner) (c : Client) :
  exists manual,
    fst (merged_owners server cfg manual_overrides c_ico owners0 c) = owners0 ++ manual
    /\ Forall2
         (fun o e =>
            kind o = COMPANY /\ AresVrExtract.label o = "Manuálně doplněno"
            /\ ico o = Some (Py.zfill 8 (fst e))
            /\ share_pct o = Some (snd e * 100)%Q)
         manual (default [] (manual_overrides !! c_ico)).
Proof.
  unfold merged_owners.
  pose proof (manual_owners_shape (default [] (manual_overrides !! c_ico)) c) as H.
  destruct (manual_owners server cfg _ c) as [manual c1]. simpl in *.
  exists manual. split; [| exact H].
  destruct manual; [now rewrite app_nil_r | reflexivity].
Qed.

End Groups.

(* ================================================================== *)
(** ** The shape of the trace *)

Section TraceShape.
Import AresVrExtract AresVrClient OwnershipResolveOnline.
Variable server : Server.
Variable cfg : AresClientConfig.
Variable max_depth : Z.
Variable manual_overrides : gmap string (list (string * Q)).

Local Abbreviation walk := (walk server cfg max_depth manual_overrides).

(** The induction principle of the walk, with the depth guard in view:
    the truncation notice is emitted past [max_depth] only, everything
    else at a depth that does not exceed it. *)
Lemma walk_invariant_guarded (I : Z -> Q -> list NodeLine -> list Warning -> Prop) :
  (forall d pm, I d pm [] []) ->
  (forall d pm l1 w1 l2 w2, I d pm l1 w1 -> I d pm l2 w2 -> I d pm (l1 ++ l2) (w1 ++ w2)) ->
  (forall d pm, (d > max_depth)%Z -> I d pm [truncation_line d] []) ->
  (forall d pm ico payload, (d <= max_depth)%Z ->
     I d pm [ {| depth := d; label := ""; text := error_text ico payload; effective_pct := None |} ]
            [ {| w_kind := "error"; w_ico := ico; w_name := ""; w_text := error_text ico payload |} ]) ->
  (forall d pm c_name c_ico ws, (d <= max_depth)%Z ->
     I d pm [header_line d pm c_name c_ico] ws) ->
  (forall d pm lbl, (d <= max_depth)%Z ->
     I d pm [ {| depth := d + 1; label := lbl; text := lbl +:+ ":"; effective_pct := None |} ] []) ->
  (forall d pm lbl o, (d <= max_depth)%Z -> I d pm [owner_line d lbl pm o] []) ->
  (forall d pm o ls ws, (d <= max_depth)%Z -> is_company o = true ->
     I (d + 3)%Z (next_mult pm o) ls ws -> I d pm ls ws) ->
  forall fuel ico d pm c ls ws c',
    walk fuel ico d pm c = Done ls ws c' -> I d pm ls ws.
Proof.
  intros Hnil Happ Htrunc Herr Hhead Hlabel Howner Hdown.
  induction fuel as [|fuel IH]; intros ico d pm c ls ws c'; [discriminate |].
  destruct (Z_gt_le_dec d max_depth) as [Hd|Hd].
  { rewrite walk_guard by exact Hd. intros [= <- <- <-]. now apply Htrunc. }
  rewrite walk_no_guard by exact Hd. unfold expand.
  destruct (get_vr server cfg ico false c) as [[payload|] c1]; [| discriminate].
  destruct (Py.truthy (p_error payload)).
  { intros [= <- <- <-]. now apply Herr. }
  destruct (extract_current_owners payload) as [[c_ico c_name] owners0].
  destruct (merged_owners server cfg manual_overrides c_ico owners0 c1) as [owners c2].
  intros H. apply then_run_done in H as (l1 & w1 & c3 & l2 & w2 & H1 & H2 & -> & ->).
  apply Happ.
  { injection H1 as <- <- <-. now apply Hhead. }
  revert H2. apply (for_each_inv (I d pm)); [apply Hnil | apply Happ |].
  intros g c4 ls ws c4' _ H.
  apply then_run_done in H as (l3 & w3 & c5 & l4 & w4 & H3 & H4 & -> & ->).
  apply Happ.
  { injection H3 as <- <- <-. now apply Hlabel. }
  revert H4. apply (for_each_inv (I d pm)); [apply Hnil | apply Happ |].
  intros o c6 ls ws c6' _ H.
  apply then_run_done in H as (l5 & w5 & c7 & l6 & w6 & H5 & H6 & -> & ->).
  apply Happ.
  { injection H5 as <- <- <-. now apply Howner. }
  destruct (is_company o) eqn:Hco.
  - apply (Hdown d pm o); [exact Hd | exact Hco |]. eapply IH. exact H6.
  - injection H6 as <- <- <-. apply Hnil.
Qed.

Lemma walk_depths (fuel : nat) (ico : string) (d : Z) (pm : Q) (c : Client) ls ws c' :
  walk fuel ico d pm c = Done ls ws c' ->
  Forall (fun ln => (d <= depth ln <= Z.max d (max_depth + 3))%Z) ls.
Proof.
  apply (walk_invariant_guarded
           (fun d _ ls _ => Forall (fun ln => (d <= depth ln <= Z.max d (max_depth + 3))%Z) ls)).
  - intros; constructor.
  - intros d0 _ l1 _ l2 _ H1 H2. apply Forall_app. now split.
  - intros d0 _ Hd. repeat constructor; simpl; lia.
  - intros d0 _ i p Hd. repeat constructor; simpl; lia.
  - intros d0 pm0 n i w Hd. repeat constructor; simpl; lia.
  - intros d0 _ lbl Hd. repeat constructor; simpl; lia.
  - intros d0 pm0 lbl o Hd. repeat constructor; rewrite depth_owner_line; lia.
  - intros d0 pm0 o l w Hd _ Hl. eapply Forall_impl; [exact Hl |].
    intros ln Hln. simpl in Hln. lia.
Qed.

(** X10: [max_depth] bounds the trace: every line of a resolved trace has
    a depth between 0 and [max_depth + 3] (0 when [max_depth] is
    negative). *)
Theorem trace_depth_is_bounded (root_ico : string) (c : Client) ls ws c' (ln : NodeLine) :
  resolve_tree_online server cfg max_depth manual_overrides root_ico c = Done ls ws c' ->
  In ln ls ->
  (0 <= depth ln <= Z.max 0 (max_depth + 3))%Z.
Proof.
  intros Hrun Hin. apply walk_depths in Hrun.
  rewrite List.Forall_forall in Hrun. now apply Hrun.
Qed.

Lemma walk_null_percentages (fuel : nat) (ico : string) (d : Z) (pm : Q) (c : Client)
    ls ws c' :
  walk fuel ico d pm c = Done ls ws c' ->
  (0 <= d)%Z ->
  Forall (fun ln => (d <= depth ln)%Z
                    /\ (((depth ln - d) mod 3 <> 2)%Z ->
                        ((0 < depth ln)%Z -> effective_pct ln = None)
                        /\ (depth ln = 0%Z ->
                            effective_pct ln = None
                            \/ effective_pct ln = Some (pm * 100)%Q))) ls.
Proof.
  apply (walk_invariant server cfg max_depth manual_overrides
           (fun d pm ls _ =>
              (0 <= d)%Z ->
              Forall (fun ln => (d <= depth ln)%Z
                        /\ (((depth ln - d) mod 3 <> 2)%Z ->
                            ((0 < depth ln)%Z -> effective_pct ln = None)
                            /\ (depth ln = 0%Z ->
                                effective_pct ln = None
                                \/ effective_pct ln = Some (pm * 100)%Q))) ls)).
  - intros; constructor.
  - intros d0 pm0 l1 _ l2 _ H1 H2 Hd. apply Forall_app. split; auto.
  - intros d0 pm0 Hd. constructor; [| constructor]. simpl.
    split; [lia |]. intros _. split; [reflexivity | now left].
  - intros d0 pm0 i p Hd. constructor; [| constructor]. simpl.
    split; [lia |]. intros _. split; [reflexivity | now left].
  - intros d0 pm0 n i Hd. constructor; [| constructor]. simpl.
    split; [lia |]. intros _. split.
    + intros Hpos. destruct (Z.eqb_spec d0 0); [lia | reflexivity].
    + intros ->. now right.
  - intros d0 pm0 n i Hd. constructor; [| constructor]. simpl.
    split; [lia |]. intros _. split.
    + intros Hpos. destruct (Z.eqb_spec d0 0); [lia | reflexivity].
    + intros ->. now right.
  - intros d0 pm0 lbl Hd. constructor; [| constructor]. simpl.
    split; [lia |]. intros _. split; [reflexivity | now left].
  - intros d0 pm0 lbl o Hd. constructor; [| constructor].
    rewrite depth_owner_line. split; [lia |].
    replace (d0 + 2 - d0)%Z with 2%Z by lia. intros H. now contradiction H.
  - intros d0 pm0 o l _ _ Hl Hd. eapply Forall_impl; [apply Hl; lia |].
    intros ln [Hge Hln]. split; [lia |]. intros Hmod. rewrite <- mod3_shift in Hmod.
    destruct (Hln Hmod) as [Hpos _]. split; [exact Hpos | lia].
Qed.

(** X11: in a resolved trace the computed percentage sits on the owner
    lines: a line that is not an owner line (a header, a label of a
    group, an error or truncation notice) carries no [effective_pct],
    except at depth 0, where the header of the root carries 100. *)
Theorem percentages_sit_on_owner_lines (root_ico : string) (c : Client) ls ws c'
    (ln : NodeLine) :
  resolve_tree_online server cfg max_depth manual_overrides root_ico c = Done ls ws c' ->
  In ln ls ->
  (depth ln mod 3 <> 2)%Z ->
  ((0 < depth ln)%Z -> effective_pct ln = None)
  /\ (depth ln = 0%Z ->
      effective_pct ln = None \/ exists e, effective_pct ln = Some e /\ (e == 100)%Q).
Proof.
  intros Hrun Hin Hmod. apply walk_null_percentages in Hrun; [| lia].
  rewrite List.Forall_forall in Hrun. destruct (Hrun ln Hin) as [_ H].
  rewrite Z.sub_0_r in H. destruct (H Hmod) as [H1 H2]. split; [exact H1 |].
  intros H0. destruct (H2 H0) as [Hn|Hs]; [now left |].
  right. eexists. split; [exact Hs | reflexivity].
Qed.

(** The walk never nests more calls than [max_depth] allows: with any
    fuel beyond that of [resolve_tree_online] the walk is the same. *)
Lemma more_fuel_changes_nothing (fuel : nat) (root_ico : string) (c : Client) :
  (enough_fuel max_depth <= fuel)%nat ->
  walk fuel root_ico 0 1 c
  = resolve_tree_online server cfg max_depth manual_overrides root_ico c
  /\ resolve_tree_online server cfg max_depth manual_overrides root_ico c <> NoFuel.
Proof.
  intros Hf. split; [| apply resolve_has_fuel].
  unfold resolve_tree_online.
  assert (Hgen : forall f1 f2 ico d pm c0,
            (Z.max 1 (max_depth - d + 2) <= Z.of_nat f1)%Z ->
            (Z.max 1 (max_depth - d + 2) <= Z.of_nat f2)%Z ->
            walk f1 ico d pm c0 = walk f2 ico d pm c0).
  { induction f1 as [|f1 IH]; intros f2 ico d pm c0 H1 H2; [lia |].
    destruct f2 as [|f2]; [lia |].
    destruct (Z_gt_le_dec d max_depth) as [Hd|Hd].
    - now rewrite !walk_guard by exact Hd.
    - rewrite !walk_no_guard by exact Hd. apply expand_ext.
      intros i m c1. apply IH; lia. }
  apply Hgen; unfold enough_fuel in *; lia.
Qed.

End TraceShape.

Section TraceWitnesses.
Import AresVrExtract AresVrClient OwnershipResolveOnline.

Lemma chain_run :
  resolve_tree_online Examples.offline Examples.cfg4 25 ∅ "00000001" Examples.chain_cache
  = Done Examples.chain_lines [] Examples.chain_cache.
Proof. vm_compute. reflexivity. Qed.

(** The last line of the chain's trace sits at depth 5, within 0..28. *)
Lemma trace_depth_is_bounded_witness :
  In Examples.svoboda_line Examples.chain_lines
  /\ (0 <= depth Examples.svoboda_line <= Z.max 0 (25 + 3))%Z.
Proof.
  assert (Hin : In Examples.svoboda_line Examples.chain_lines)
    by (vm_compute; do 5 right; left; reflexivity).
  split; [exact Hin |].
  exact (trace_depth_is_bounded Examples.offline Examples.cfg4 25 ∅ "00000001"
           Examples.chain_cache _ _ _ _ chain_run Hin).
Defined.

(** The header of the child company, at depth 3, carries no percentage. *)
Lemma percentages_sit_on_owner_lines_witness :
  In (nth 3 Examples.chain_lines (truncation_line 0)) Examples.chain_lines
  /\ (depth (nth 3 Examples.chain_lines (truncation_line 0)) mod 3 <> 2)%Z
  /\ effective_pct (nth 3 Examples.chain_lines (truncation_line 0)) = None.
Proof.
  assert (Hin : In (nth 3 Examples.chain_lines (truncation_line 0)) Examples.chain_lines)
    by (vm_compute; do 3 right; left; reflexivity).
  assert (Hmod : (depth (nth 3 Examples.chain_lines (truncation_line 0)) mod 3 <> 2)%Z)
    by (vm_compute; discriminate).
  split; [exact Hin |]. split; [exact Hmod |].
  apply (proj1 (percentages_sit_on_owner_lines Examples.offline Examples.cfg4 25 ∅
                  "00000001" Examples.chain_cache _ _ _ _ chain_run Hin Hmod)).
  vm_compute. reflexivity.
Defined.

End TraceWitnesses.

(* ================================================================== *)
(** ** The cache under the client and under the walk *)

Section CacheFacts.
Import AresVrExtract AresVrClient OwnershipResolveOnline.
Variable server : Server.
Variable cfg : AresClientConfig.

(** X13: a call for one id leaves the cached rows of all other ids as
    they are, and only ever adds to the log of requests; an unforced call
    never changes a row that exists: the cache after it contains the cache
    before it. *)
Theorem get_vr_touches_one_row (ico : string) (force : bool) (c : Client)
    (r : Reply) (c' : Client) :
  get_vr server cfg ico force c = (r, c') ->
  (forall other, other <> norm_ico ico -> cache c' !! other = cache c !! other)
  /\ sent c `prefix_of` sent c'
  /\ (force = false -> cache c ⊆ cache c').
Proof.
  unfold get_vr, _cache_get. set (i := norm_ico ico).
  destruct (if force then None else cache c !! i) as [p|] eqn:Hlook.
  - intros [= <- <-]. split; [reflexivity |]. split; reflexivity.
  - intros Hrun. destruct (attempts_spec _ _ _ _ _ _ Hrun) as (k & _ & Hs & Hr).
    assert (Hcache : cache c' = cache c \/ exists p, cache c' = <[i := p]> (cache c)).
    { destruct r as [p|]; [right; exists p; tauto | left; tauto]. }
    split; [| split].
    + intros other Hne. destruct Hcache as [->|[p ->]]; [reflexivity |].
      now rewrite lookup_insert_ne.
    + rewrite Hs. now apply prefix_app_r.
    + intros ->. simpl in Hlook. destruct Hcache as [->|[p ->]]; [reflexivity |].
      now apply insert_subseteq.
Qed.

End CacheFacts.

(** A fetched row is added beside the row that was there. *)
Lemma get_vr_touches_one_row_witness :
  let run := AresVrClient.get_vr (Examples.flaky Examples.root_novak) Examples.cfg4 "00000001" false
               (Examples.cached [("00000002", Examples.child_chain)]) in
  AresVrClient.cache (snd run) !! "00000002" = Some Examples.child_chain
  /\ AresVrClient.cache (snd run) !! "00000001" = Some Examples.root_novak.
Proof.
  intros run.
  destruct (get_vr_touches_one_row (Examples.flaky Examples.root_novak) Examples.cfg4
              "00000001" false
              (Examples.cached [("00000002", Examples.child_chain)])
              (fst run) (snd run)) as (Hother & _ & Hsub).
  - unfold run. apply surjective_pairing.
  - split; [| vm_compute; reflexivity].
    rewrite Hother; [vm_compute; reflexivity | vm_compute; discriminate].
Defined.


Section Retries.
Import AresVrExtract AresVrClient OwnershipResolveOnline.
Variable server : Server.
Variable cfg : AresClientConfig.

Lemma attempts_all_fail (n : nat) (ico : string) (c : Client) :
  (forall j, (j < n)%nat ->
     Spec.definitive (ARES_VR_URL ico) (server (length (sent c) + j)%nat (ARES_VR_URL ico))
     = None) ->
  attempts server n ico c
  = (RuntimeError, {| cache := cache c; sent := sent c ++ repeat (ARES_VR_URL ico) n |}).
Proof.
  revert c. induction n as [|n IH]; intros c Hfail; simpl.
  - rewrite app_nil_r. now destruct c.
  - pose proof (Hfail 0%nat ltac:(lia)) as H0. rewrite Nat.add_0_r in H0.
    assert (Hnext : attempts server n ico (request (ARES_VR_URL ico) c)
                    = (RuntimeError,
                       {| cache := cache c;
                          sent := sent c ++ ARES_VR_URL ico :: repeat (ARES_VR_URL ico) n |})).
    { rewrite IH.
      - simpl. now rewrite <- app_assoc.
      - intros j Hj. simpl. rewrite length_app. simpl.
        replace (length (sent c) + 1 + j)%nat with (length (sent c) + S j)%nat by lia.
        apply Hfail. lia. }
    unfold Spec.definitive in H0.
    destruct (server (length (sent c)) (ARES_VR_URL ico)) as [code json|]; [| exact Hnext].
    destruct (code =? 200)%N.
    + destruct json; [discriminate | exact Hnext].
    + destruct ((code =? 400) || (code =? 404))%N; [discriminate | exact Hnext].
Qed.

(** X14: a call that has to ask the registry and gets no 200 with a JSON
    body and no 400 or 404 in [max_retries + 1] answers sends exactly
    [max_retries + 1] requests, raises, and leaves the cache as it was. *)
Theorem unanswered_call_gives_up (ico : string) (force : bool) (c : Client) :
  force = true \/ cache c !! norm_ico ico = None ->
  (forall j, (j < S (max_retries cfg))%nat ->
     Spec.definitive (ARES_VR_URL (norm_ico ico))
       (server (length (sent c) + j)%nat (ARES_VR_URL (norm_ico ico))) = None) ->
  get_vr server cfg ico force c
  = (RuntimeError,
     {| cache := cache c;
        sent := sent c ++ repeat (ARES_VR_URL (norm_ico ico)) (S (max_retries cfg)) |}).
Proof.
  intros Hmiss Hfail. unfold get_vr, _cache_get.
  assert (Hlook : (if force then None else cache c !! norm_ico ico) = None).
  { destruct Hmiss as [->|H]; [reflexivity | now destruct force]. }
  rewrite Hlook. now apply attempts_all_fail.
Qed.

Lemma grows_refl (c : Client) : Notions.grows c c.
Proof. split; reflexivity. Qed.

Lemma grows_trans (c1 c2 c3 : Client) :
  Notions.grows c1 c2 -> Notions.grows c2 c3 -> Notions.grows c1 c3.
Proof. intros [H1 H2] [H3 H4]. split; etransitivity; eassumption. Qed.

Lemma get_vr_grows (ico : string) (c : Client) :
  Notions.grows c (snd (get_vr server cfg ico false c)).
Proof.
  unfold get_vr, _cache_get.
  destruct (cache c !! norm_ico ico) as [p|] eqn:Hlook; [apply grows_refl |].
  destruct (attempts server (S (max_retries cfg)) (norm_ico ico) c) as [r c'] eqn:Hrun.
  destruct (attempts_spec _ _ _ _ _ _ Hrun) as (k & _ & Hs & Hr). simpl.
  split.
  - destruct r as [p|]; destruct Hr as [_ ->]; [now apply insert_subseteq | reflexivity].
  - rewrite Hs. now apply prefix_app_r.
Qed.

Variable max_depth : Z.
Variable manual_overrides : gmap string (list (string * Q)).

Lemma manual_owners_grow (entries : list (string * Q)) (c : Client) :
  Notions.grows c (snd (manual_owners server cfg entries c)).
Proof.
  revert c. induction entries as [|[oi sh] es IH]; intros c; simpl; [apply grows_refl |].
  unfold manual_owner. pose proof (get_vr_grows oi c) as H1.
  destruct (get_vr server cfg oi false c) as [reply c1]. simpl in H1.
  specialize (IH c1). destruct (manual_owners server cfg es c1) as [os c2]. simpl in *.
  now apply (grows_trans c c1 c2).
Qed.

Lemma then_run_grows (r : Run) (k : Client -> Run) (c c' : Client) :
  (forall c1, Notions.final_client r = Some c1 -> Notions.grows c c1) ->
  (forall c1 c2, Notions.final_client (k c1) = Some c2 -> Notions.grows c1 c2) ->
  Notions.final_client (then_run r k) = Some c' -> Notions.grows c c'.
Proof.
  intros Hr Hk. unfold then_run. destruct r as [ls ws c1|c1|]; simpl; [| apply Hr | discriminate].
  specialize (Hr c1 eq_refl). specialize (Hk c1).
  destruct (k c1) as [ls' ws' c2|c2|]; simpl in *; intros [= <-] || discriminate;
    apply (grows_trans c c1); auto.
Qed.

Lemma for_each_grows {A : Type} (xs : list A) (body : A -> Client -> Run) :
  (forall x c1 c2, Notions.final_client (body x c1) = Some c2 -> Notions.grows c1 c2) ->
  forall c c', Notions.final_client (for_each xs body c) = Some c' -> Notions.grows c c'.
Proof.
  intros Hb. induction xs as [|x xs IH]; intros c c'; simpl.
  - intros [= <-]. apply grows_refl.
  - apply then_run_grows; [apply Hb | apply IH].
Qed.

Lemma walk_grows (fuel : nat) (ico : string) (d : Z) (pm : Q) (c c' : Client) :
  Notions.final_client (walk server cfg max_depth manual_overrides fuel ico d pm c) = Some c' ->
  Notions.grows c c'.
Proof.
  revert ico d pm c c'. induction fuel as [|fuel IH]; intros ico d pm c c'; [discriminate |].
  simpl. unfold visit. destruct (d >? max_depth)%Z.
  { intros [= <-]. apply grows_refl. }
  unfold expand. pose proof (get_vr_grows ico c) as H1.
  destruct (get_vr server cfg ico false c) as [[payload|] c1]; simpl in H1;
    [| now intros [= <-]].
  destruct (Py.truthy (p_error payload)); [now intros [= <-] |].
  destruct (extract_current_owners payload) as [[c_ico c_name] owners0].
  unfold merged_owners.
  pose proof (manual_owners_grow (default [] (manual_overrides !! c_ico)) c1) as H2.
  destruct (manual_owners server cfg _ c1) as [manual c2]. simpl in H2.
  intros H. apply (grows_trans c c2); [now apply (grows_trans c c1) |].
  revert H. apply then_run_grows; [intros c3 [= <-]; apply grows_refl |].
  apply for_each_grows. intros g c3 c4.
  apply then_run_grows; [intros c5 [= <-]; apply grows_refl |].
  apply for_each_grows. intros o c5 c6.
  apply then_run_grows; [intros c7 [= <-]; apply grows_refl |].
  intros c7 c8. destruct (is_company o); [apply IH | intros [= <-]; apply grows_refl].
Qed.

(** X15: whether a resolve ends with a trace or with the error of a
    fetch, it has only added to the cache and to the log of requests:
    every row that was cached before is cached unchanged after. *)
Theorem resolve_only_adds_to_the_cache (root_ico : string) (c c' : Client) :
  Notions.final_client
    (resolve_tree_online server cfg max_depth manual_overrides root_ico c) = Some c' ->
  cache c ⊆ cache c'
  /\ sent c `prefix_of` sent c'
  /\ forall id p, cache c !! id = Some p -> cache c' !! id = Some p.
Proof.
  intros H. apply walk_grows in H as [Hc Hs]. split; [exact Hc |]. split; [exact Hs |].
  intros id p Hp. eapply lookup_weaken; eassumption.
Qed.

End Retries.

(** A registry that is never reached costs five requests per call. *)
Lemma unanswered_call_gives_up_witness :
  AresVrClient.get_vr Examples.offline Examples.cfg4 "1234567" false Examples.fresh
  = (AresVrClient.RuntimeError,
     {| AresVrClient.cache := ∅;
        AresVrClient.sent := repeat (AresVrClient.ARES_VR_URL "01234567") 5 |}).
Proof.
  apply (unanswered_call_gives_up Examples.offline Examples.cfg4 "1234567" false Examples.fresh).
  - right. reflexivity.
  - intros j _. reflexivity.
Defined.

(** A resolve that fetches the root from a flaky registry keeps the row
    that was cached. *)
Lemma resolve_only_adds_to_the_cache_witness :
  exists c',
    Notions.final_client
      (OwnershipResolveOnline.resolve_tree_online (Examples.flaky Examples.root_novak)
         Examples.cfg4 25 ∅ "00000001"
         (Examples.cached [("00000002", Examples.child_chain)])) = Some c'
    /\ AresVrClient.cache c' !! "00000002" = Some Examples.child_chain
    /\ length (AresVrClient.sent c') = 2%nat.
Proof.
  eexists. split; [vm_compute; reflexivity |]. split; [| vm_compute; reflexivity].
  refine (proj2 (proj2 (resolve_only_adds_to_the_cache (Examples.flaky Examples.root_novak)
                          Examples.cfg4 25 ∅ "00000001"
                          (Examples.cached [("00000002", Examples.child_chain)]) _ _))
            "00000002" Examples.child_chain _).
  - vm_compute. reflexivity.
  - reflexivity.
Defined.

(* ================================================================== *)
(** ** The aggregates of a person *)

Section Aggregates.
Import OwnershipResolveOnline App.

Lemma paths_total_snoc (ps : list (Z * option Q * string)) (p : Z * option Q * string) :
  (Notions.paths_total (ps ++ [p]) == Notions.paths_total ps + default 0 (snd (fst p)))%Q.
Proof.
  induction ps as [|x ps IH]; simpl; [ring |]. rewrite IH. ring.
Qed.

Lemma clamp_proper (hi x y : Q) : (x == y)%Q -> (Num.clamp hi x == Num.clamp hi y)%Q.
Proof.
  intros H. unfold Num.clamp, Num.Qmax', Num.Qmin'.
  destruct (Qlt_le_dec x hi), (Qlt_le_dec y hi);
    repeat (match goal with |- context [Qlt_le_dec ?a ?b] => destruct (Qlt_le_dec a b) end);
    lra.
Qed.

Lemma add_path_balanced (e : Entry) pd pm contribution t :
  Notions.balanced e -> Notions.balanced (add_path e pd pm contribution t).
Proof.
  intros (Hv & Ho & Hl). destruct contribution as [[ls eff] src]. unfold add_path.
  split; [| split]; simpl.
  - destruct eff; now rewrite Hv.
  - rewrite paths_total_snoc. simpl. destruct eff; simpl; rewrite Ho; ring.
  - rewrite !length_app, Hl. reflexivity.
Qed.

Lemma new_entry_balanced : Notions.balanced new_entry.
Proof. split; [reflexivity | split; reflexivity]. Qed.

Lemma scan_line_balanced (st : Scan) (ln : NodeLine) :
  Forall (fun kv => Notions.balanced (snd kv)) (persons st) ->
  Forall (fun kv => Notions.balanced (snd kv)) (persons (scan_line st ln)).
Proof.
  intros H. unfold scan_line. destruct (classify (text ln)); simpl; try exact H.
  apply od_set_Forall; [| exact H]. simpl. apply add_path_balanced.
  destruct (OD.get _ (persons st)) as [e|] eqn:He; simpl; [| apply new_entry_balanced].
  apply od_get_In in He. rewrite List.Forall_forall in H. exact (H _ He).
Qed.

Lemma scan_lines_balanced (l : list NodeLine) (st : Scan) :
  Forall (fun kv => Notions.balanced (snd kv)) (persons st) ->
  Forall (fun kv => Notions.balanced (snd kv)) (persons (fold_left scan_line l st)).
Proof.
  revert st. induction l as [|ln l IH]; intros st H; simpl; [exact H |].
  apply IH. now apply scan_line_balanced.
Qed.

(** X16: for every person of the result, the voting share is the
    ownership share (voting defaults to capital), the ownership share is
    the sum of the effective values of the person's recorded paths (a
    path without value counting for nothing) clamped to [0,1], and there
    is one debug record per path. *)
Theorem aggregate_is_the_clamped_sum_of_paths (lines : list NodeLine) (name : string)
    (e : Entry) :
  In (name, e) (compute_effective_persons lines) ->
  voting e = ownership e
  /\ (ownership e == Num.clamp 1 (Notions.paths_total (paths e)))%Q
  /\ length (paths e) = length (debug_paths e).
Proof.
  intros H. unfold compute_effective_persons in H.
  apply in_map_iff in H as ([k v] & [= <- <-] & Hin).
  pose proof (scan_lines_balanced lines
                {| persons := []; header_stack := []; pending_next_header_mult := None |}
                (List.Forall_nil _)) as Hall.
  rewrite List.Forall_forall in Hall. destruct (Hall _ Hin) as (Hv & Ho & Hl).
  simpl in *. split; [now rewrite Hv |]. split; [now apply clamp_proper | exact Hl].
Qed.

(** The texts of the paths recorded under a name *)
Lemma paths_of_scan_line (st : Scan) (ln : NodeLine) (name : string) :
  match OD.get name (persons (scan_line st ln)) with
  | Some e => map snd (paths e)
  | None => []
  end
  = match OD.get name (persons st) with
    | Some e => map snd (paths e)
    | None => []
    end ++ (if Notions.named name ln then [text ln] else []).
Proof.
  unfold scan_line, Notions.named.
  destruct (classify (text ln)) eqn:Hc; simpl; try now rewrite app_nil_r.
  destruct (bool_decide_reflect (owner_name (text ln) = name)) as [<-|Hne].
  - rewrite od_get_set_eq.
    destruct (person_contribution _ _ _) as [[ls eff] src].
    unfold add_path. simpl. rewrite map_app. simpl.
    destruct (OD.get _ (persons st)); reflexivity.
  - rewrite od_get_set_ne by exact Hne. now rewrite app_nil_r.
Qed.

Lemma paths_of_scan_lines (l : list NodeLine) (st : Scan) (name : string) :
  match OD.get name (persons (fold_left scan_line l st)) with
  | Some e => map snd (paths e)
  | None => []
  end
  = match OD.get name (persons st) with
    | Some e => map snd (paths e)
    | None => []
    end ++ map text (List.filter (Notions.named name) l).
Proof.
  revert st. induction l as [|ln l IH]; intros st; simpl; [now rewrite app_nil_r |].
  rewrite IH, paths_of_scan_line, <- app_assoc.
  destruct (Notions.named name ln); reflexivity.
Qed.

Lemma mem_of_scan_line (st : Scan) (ln : NodeLine) (name : string) :
  OD.mem name (persons (scan_line st ln))
  = OD.mem name (persons st) || Notions.named name ln.
Proof.
  unfold scan_line, Notions.named, OD.mem.
  destruct (classify (text ln)) eqn:Hc; simpl; try now rewrite orb_false_r.
  destruct (bool_decide_reflect (owner_name (text ln) = name)) as [<-|Hne].
  - rewrite od_get_set_eq. now rewrite orb_true_r.
  - rewrite od_get_set_ne by exact Hne. now rewrite orb_false_r.
Qed.

Lemma mem_of_scan_lines (l : list NodeLine) (st : Scan) (name : string) :
  OD.mem name (persons (fold_left scan_line l st))
  = OD.mem name (persons st) || existsb (Notions.named name) l.
Proof.
  revert st. induction l as [|ln l IH]; intros st; simpl; [now rewrite orb_false_r |].
  rewrite IH, mem_of_scan_line. now rewrite orb_assoc.
Qed.

(** X17: the result has an entry for a name exactly when the trace has a
    line classified as a person owner with that name, and the texts of
    the paths recorded in the entry are the texts of these lines, in the
    order of the trace. *)
Theorem entries_record_the_lines_of_their_person (lines : list NodeLine) (name : string) :
  OD.mem name (compute_effective_persons lines) = existsb (Notions.named name) lines
  /\ match OD.get name (compute_effective_persons lines) with
     | Some e => map snd (paths e)
     | None => []
     end = map text (List.filter (Notions.named name) lines).
Proof.
  unfold compute_effective_persons. split.
  - unfold OD.mem. rewrite (od_get_map clamp_entry).
    pose proof (mem_of_scan_lines lines
                  {| persons := []; header_stack := []; pending_next_header_mult := None |}
                  name) as H.
    unfold OD.mem in H. simpl in H. fold (scan_lines lines) in H.
    destruct (OD.get name (persons (scan_lines lines))); exact H.
  - rewrite (od_get_map clamp_entry).
    pose proof (paths_of_scan_lines lines
                  {| persons := []; header_stack := []; pending_next_header_mult := None |}
                  name) as H.
    simpl in H. fold (scan_lines lines) in H.
    destruct (OD.get name (persons (scan_lines lines))); exact H.
Qed.

End Aggregates.

(** Scenario 2 of the specification: the person at the end of the chain
    is aggregated at an effective 40 %. *)
Lemma aggregate_is_the_clamped_sum_of_paths_witness :
  exists e,
    In ("Petr Svoboda", e) (App.compute_effective_persons Examples.chain_lines)
    /\ (App.ownership e == 40 # 100)%Q
    /\ App.voting e = App.ownership e.
Proof.
  assert (H : exists e, OD.get "Petr Svoboda" (App.compute_effective_persons Examples.chain_lines)
                        = Some e /\ (App.ownership e == 40 # 100)%Q).
  { eexists. split; [vm_compute; reflexivity | reflexivity]. }
  destruct H as (e & Hget & Ho). exists e. apply od_get_In in Hget.
  split; [exact Hget |]. split; [exact Ho |].
  exact (proj1 (aggregate_is_the_clamped_sum_of_paths _ _ _ Hget)).
Defined.

(* ================================================================== *)
(** ** The decision on the persons *)

Section Criteria.
Import App.
Variable block_members : list string.
Variable block_name : string.
Variable threshold_pct : Q.

Local Abbreviation T := (thr threshold_pct).
Local Abbreviation judge := (judge threshold_pct).

Lemma od_get_not_in {K V} `{EqDecision K} (k : K) (d : list (K * V)) :
  ~ In k (map fst d) -> OD.get k d = None.
Proof.
  induction d as [|[k0 v0] d IH]; simpl; [reflexivity |].
  intros H. destruct (decide (k = k0)) as [->|Hne]; [exfalso; apply H; now left |].
  apply IH. intros Hin. apply H. now right.
Qed.

Lemma is_ubo_criteria (v : Vals) :
  is_ubo threshold_pct v = true
  <-> (T < cap v)%Q \/ (T < vote v)%Q \/ veto v = true \/ org_majority v = true
      \/ substitute_ubo v = true.
Proof.
  unfold is_ubo. rewrite !orb_true_iff, !Qgtb_true. tauto.
Qed.

Lemma fst_judge ubo reasons n vals :
  fst (judge (ubo, reasons) (n, vals))
  = if is_ubo threshold_pct vals then OD.set n vals ubo else ubo.
Proof. reflexivity. Qed.

Lemma judge_loop_ubo (fp : list (string * Vals))
    (acc : list (string * Vals) * list (string * list string)) (n : string) :
  List.NoDup (map fst fp) ->
  OD.get n (fst (fold_left judge fp acc))
  = match OD.get n fp with
    | Some v => if is_ubo threshold_pct v then Some v else OD.get n (fst acc)
    | None => OD.get n (fst acc)
    end.
Proof.
  revert acc. induction fp as [|[m vals] fp IH]; intros [ubo reasons] Hnd; [reflexivity |].
  inversion Hnd as [|? ? Hnin Hnd']; subst.
  change (fold_left judge ((m, vals) :: fp) (ubo, reasons))
    with (fold_left judge fp (judge (ubo, reasons) (m, vals))).
  rewrite IH by exact Hnd'. rewrite fst_judge.
  change (OD.get n ((m, vals) :: fp))
    with (if decide (n = m) then Some vals else OD.get n fp).
  change (fst (ubo, reasons)) with ubo.
  destruct (decide (n = m)) as [->|Hne].
  - rewrite (od_get_not_in m fp Hnin).
    destruct (is_ubo threshold_pct vals); [apply od_get_set_eq | reflexivity].
  - assert (Hu : OD.get n (if is_ubo threshold_pct vals then OD.set m vals ubo else ubo)
                 = OD.get n ubo).
    { destruct (is_ubo threshold_pct vals); [apply od_get_set_ne; congruence | reflexivity]. }
    rewrite Hu. reflexivity.
Qed.

(** X18: with the strict threshold T, a person of the final set is found
    a UBO by the individual criteria exactly when its capital exceeds T,
    or its votes exceed T, or it has a veto, appoints the majority of the
    body or is the statutory substitute; a share equal to T does not
    qualify. *)
Theorem individual_criteria_are_strict (final_persons : list (string * Vals))
    (n : string) (v : Vals) :
  List.NoDup (map fst final_persons) ->
  (OD.get n (fst (individual_criteria final_persons threshold_pct)) = Some v
   <-> OD.get n final_persons = Some v
       /\ ((T < cap v)%Q \/ (T < vote v)%Q \/ veto v = true \/ org_majority v = true
           \/ substitute_ubo v = true)).
Proof.
  intros Hnd. unfold individual_criteria. rewrite (judge_loop_ubo _ _ n Hnd).
  rewrite <- is_ubo_criteria. simpl.
  destruct (OD.get n final_persons) as [v0|]; [| split; [discriminate | intros [? _]; discriminate]].
  destruct (is_ubo threshold_pct v0) eqn:Hu.
  - split; [intros [= <-]; now split | intros [[= <-] _]; reflexivity].
  - split; [discriminate | intros [[= <-] Hv]; congruence].
Qed.

(** Reasons are only ever added. *)
Lemma add_reason_if_keeps (b : bool) (m r n : string) (rs : list (string * list string)) :
  reasons_of n rs `prefix_of` reasons_of n (add_reason_if b m r rs).
Proof.
  unfold add_reason_if. destruct b; [| reflexivity].
  rewrite reasons_of_add. destruct (decide (m = n)); [now apply prefix_app_r | reflexivity].
Qed.

Lemma add_reason_if_adds (m r : string) (rs : list (string * list string)) :
  reasons_of m (add_reason_if true m r rs) <> [].
Proof.
  simpl. rewrite reasons_of_add. destruct (decide (m = m)); [| contradiction].
  now destruct (reasons_of m rs).
Qed.

Lemma prefix_nonempty {A} (l1 l2 : list A) : l1 `prefix_of` l2 -> l1 <> [] -> l2 <> [].
Proof. intros [k ->] H. now destruct l1. Qed.

Lemma judge_reasons (ubo : list (string * Vals)) (reasons : list (string * list string))
    (m : string) (vals : Vals) (n : string) :
  reasons_of n reasons `prefix_of` reasons_of n (snd (judge (ubo, reasons) (m, vals)))
  /\ (is_ubo threshold_pct vals = true ->
      reasons_of m (snd (judge (ubo, reasons) (m, vals))) <> []).
Proof.
  unfold App.judge. simpl snd. split.
  - repeat (etransitivity; [| apply add_reason_if_keeps]). reflexivity.
  - unfold is_ubo. intros Hu.
    destruct (Num.Qgtb (cap vals) T) eqn:H1.
    { do 4 (eapply prefix_nonempty; [apply add_reason_if_keeps |]).
      apply add_reason_if_adds. }
    destruct (Num.Qgtb (vote vals) T) eqn:H2.
    { do 3 (eapply prefix_nonempty; [apply add_reason_if_keeps |]).
      apply add_reason_if_adds. }
    destruct (veto vals) eqn:H3.
    { do 2 (eapply prefix_nonempty; [apply add_reason_if_keeps |]).
      apply add_reason_if_adds. }
    destruct (org_majority vals) eqn:H4.
    { eapply prefix_nonempty; [apply add_reason_if_keeps |].
      apply add_reason_if_adds. }
    destruct (substitute_ubo vals) eqn:H5; [| discriminate Hu].
    apply add_reason_if_adds.
Qed.

Lemma od_mem_set_inv {K V} `{EqDecision K} (k k' : K) (v : V) (d : list (K * V)) :
  OD.mem k' (OD.set k v d) = true -> k' = k \/ OD.mem k' d = true.
Proof.
  unfold OD.mem. destruct (decide (k = k')) as [->|Hne]; [now left |].
  rewrite od_get_set_ne by exact Hne. now right.
Qed.

Lemma judge_justified acc nv : Notions.justified acc -> Notions.justified (judge acc nv).
Proof.
  destruct acc as [ubo reasons], nv as [m vals]. intros Hj n Hn.
  destruct (judge_reasons ubo reasons m vals n) as [Hpre _].
  destruct (judge_reasons ubo reasons m vals m) as [_ Hadd].
  rewrite fst_judge in Hn. destruct (is_ubo threshold_pct vals) eqn:Hu.
  - apply od_mem_set_inv in Hn as [->|Hn]; [now apply Hadd |].
    eapply prefix_nonempty; [exact Hpre | now apply Hj].
  - eapply prefix_nonempty; [exact Hpre | now apply Hj].
Qed.

Lemma promote_justified fp acc n :
  Notions.justified acc -> Notions.justified (promote fp block_members block_name threshold_pct acc n).
Proof.
  destruct acc as [ubo reasons]. intros Hj k Hk. unfold promote in *.
  destruct (OD.get n fp) as [vals|]; [| now apply Hj]. simpl in *.
  rewrite reasons_of_add. destruct (decide (n = k)) as [->|Hne].
  - now destruct (reasons_of k reasons).
  - apply od_mem_set_inv in Hk as [->|Hk]; [contradiction | now apply Hj].
Qed.

(** X19: every person of the UBO set, whether found by an individual
    criterion or promoted with the voting block, carries at least one
    reason. *)
Theorem every_ubo_has_a_reason (final_persons : list (string * Vals)) (n : string) :
  OD.mem n (fst (evaluate final_persons block_members block_name threshold_pct)) = true ->
  reasons_of n (snd (evaluate final_persons block_members block_name threshold_pct)) <> [].
Proof.
  assert (Hind : Notions.justified (individual_criteria final_persons threshold_pct)).
  { unfold individual_criteria.
    assert (Hgen : forall fp acc, Notions.justified acc -> Notions.justified (fold_left judge fp acc)).
    { induction fp as [|nv fp IH]; intros acc Hacc; simpl; [exact Hacc |].
      apply IH. now apply judge_justified. }
    apply Hgen. intros k Hk. discriminate Hk. }
  assert (Hblock : Notions.justified (evaluate final_persons block_members block_name threshold_pct)).
  { unfold evaluate, voting_block. destruct (block_applies _ _ _); [| exact Hind].
    assert (Hgen : forall ms acc, Notions.justified acc ->
              Notions.justified (fold_left (promote final_persons block_members block_name
                                      threshold_pct) ms acc)).
    { induction ms as [|m ms IH]; intros acc Hacc; simpl; [exact Hacc |].
      apply IH. now apply promote_justified. }
    now apply Hgen. }
  apply Hblock.
Qed.

Lemma promote_loop_keeps fp (ms : list string)
    (acc : list (string * Vals) * list (string * list string)) (n : string) :
  reasons_of n (snd acc)
    `prefix_of` reasons_of n (snd (fold_left (promote fp block_members block_name threshold_pct) ms acc))
  /\ (forall v, OD.get n (fst acc) = Some v -> OD.get n fp = Some v ->
        OD.get n (fst (fold_left (promote fp block_members block_name threshold_pct) ms acc))
        = Some v).
Proof.
  revert acc. induction ms as [|m ms IH]; intros [ubo reasons]; simpl.
  - split; [reflexivity | auto].
  - destruct (IH (promote fp block_members block_name threshold_pct (ubo, reasons) m))
      as [IH1 IH2].
    split.
    + etransitivity; [| exact IH1]. unfold promote.
      destruct (OD.get m fp); simpl; [| reflexivity].
      rewrite reasons_of_add. destruct (decide (m = n)); [now apply prefix_app_r | reflexivity].
    + intros v Hu Hv. apply IH2; [| exact Hv]. unfold promote.
      destruct (OD.get m fp) as [vm|] eqn:Hm; simpl; [| exact Hu].
      destruct (decide (m = n)) as [->|Hne].
      * rewrite od_get_set_eq. congruence.
      * now rewrite od_get_set_ne.
Qed.

(** X20: the voting block only adds: a person found a UBO by the
    individual criteria stays one with the same values, and the reasons
    of the individual criteria stay, in their order, in front of the
    reason of the block. *)
Theorem voting_block_only_adds (final_persons : list (string * Vals)) (n : string) :
  List.NoDup (map fst final_persons) ->
  reasons_of n (snd (individual_criteria final_persons threshold_pct))
    `prefix_of`
    reasons_of n (snd (evaluate final_persons block_members block_name threshold_pct))
  /\ forall v,
       OD.get n (fst (individual_criteria final_persons threshold_pct)) = Some v ->
       OD.get n (fst (evaluate final_persons block_members block_name threshold_pct)) = Some v.
Proof.
  intros Hnd. unfold evaluate, voting_block.
  destruct (block_applies _ _ _); [| split; [reflexivity | auto]].
  destruct (promote_loop_keeps final_persons block_members
              (individual_criteria final_persons threshold_pct) n) as [H1 H2].
  split; [exact H1 |]. intros v Hv. apply H2; [exact Hv |].
  unfold individual_criteria in Hv. rewrite (judge_loop_ubo _ _ n Hnd) in Hv.
  destruct (OD.get n final_persons) as [v0|]; [| discriminate Hv].
  destruct (is_ubo threshold_pct v0); [exact Hv | discriminate Hv].
Qed.

End Criteria.

Lemma at_and_above_keys : List.NoDup (map fst MoreExamples.at_and_above).
Proof.
  constructor; [| constructor; [intros [] | constructor]].
  intros [H|[]]. discriminate H.
Qed.

(** At a threshold of 25 %, the holder of 30 % of the capital is a UBO
    and the holder of exactly 25 % is not. *)
Lemma individual_criteria_are_strict_witness :
  List.NoDup (map fst MoreExamples.at_and_above)
  /\ (exists v, OD.get "Bára" (fst (App.individual_criteria MoreExamples.at_and_above 25))
                = Some v)
  /\ OD.get "Adam" (fst (App.individual_criteria MoreExamples.at_and_above 25)) = None.
Proof.
  split; [exact at_and_above_keys |]. split.
  - eexists.
    apply (proj2 (individual_criteria_are_strict 25 MoreExamples.at_and_above "Bára" _
                    at_and_above_keys)).
    split; [reflexivity |]. left. vm_compute. reflexivity.
  - vm_compute. reflexivity.
Defined.

Lemma every_ubo_has_a_reason_witness :
  OD.mem "Cyril"
    (fst (App.evaluate UboExamples.three_at_ten ["Adam"; "Bára"; "Cyril"] "Voting Block 1" 25))
  = true
  /\ App.reasons_of "Cyril"
       (snd (App.evaluate UboExamples.three_at_ten ["Adam"; "Bára"; "Cyril"]
               "Voting Block 1" 25)) <> [].
Proof.
  assert (H : OD.mem "Cyril"
                (fst (App.evaluate UboExamples.three_at_ten ["Adam"; "Bára"; "Cyril"]
                        "Voting Block 1" 25)) = true) by (vm_compute; reflexivity).
  split; [exact H |].
  exact (every_ubo_has_a_reason ["Adam"; "Bára"; "Cyril"] "Voting Block 1" 25
           UboExamples.three_at_ten "Cyril" H).
Defined.

(** The holder of 30 % stays a UBO when a block of both persons, at 35 %
    of the votes, is declared, and keeps its first reason in front. *)
Lemma voting_block_only_adds_witness :
  List.NoDup (map fst MoreExamples.at_and_above)
  /\ (exists v, OD.get "Bára" (fst (App.evaluate MoreExamples.at_and_above ["Adam"; "Bára"]
                                     "Voting Block 1" 25)) = Some v)
  /\ length (App.reasons_of "Bára"
               (snd (App.evaluate MoreExamples.at_and_above ["Adam"; "Bára"]
                       "Voting Block 1" 25))) = 2%nat.
Proof.
  split; [exact at_and_above_keys |]. split; [| vm_compute; reflexivity].
  eexists.
  refine (proj2 (voting_block_only_adds ["Adam"; "Bára"] "Voting Block 1" 25
                   MoreExamples.at_and_above "Bára" at_and_above_keys) _ _).
  cbv. reflexivity.
Defined.

(* ================================================================== *)
(** ** Records and error records *)

Section Records.
Import AresVrExtract AresVrClient OwnershipResolveOnline.

(** X21: the record the extractor reads is one of the payload's records:
    the first one flagged as primary when there is one, the first one
    otherwise; there is none only when the payload has no record. *)
Theorem primary_record_is_picked (zs : list Zaznam) :
  (_pick_primary_or_record zs = None <-> zs = [])
  /\ forall z, _pick_primary_or_record zs = Some z ->
       In z zs
       /\ (existsb primarniZaznam zs = true -> primarniZaznam z = true)
       /\ (existsb primarniZaznam zs = false -> head zs = Some z).
Proof.
  unfold _pick_primary_or_record. destruct zs as [|z0 zs]; [split; [tauto | discriminate] |].
  split; [split; [| discriminate] |].
  { destruct (List.filter primarniZaznam (z0 :: zs)); discriminate. }
  intros z Hz.
  destruct (List.filter primarniZaznam (z0 :: zs)) as [|p ps] eqn:Hf.
  - injection Hz as <-. split; [now left |].
    assert (He : existsb primarniZaznam (z0 :: zs) = false).
    { apply not_true_is_false. intros He. apply existsb_exists in He as (x & Hx & Hp).
      assert (Hin : In x (List.filter primarniZaznam (z0 :: zs)))
        by (apply List.filter_In; now split).
      rewrite Hf in Hin. destruct Hin. }
    split; [intros H; congruence | reflexivity].
  - injection Hz as <-.
    assert (Hin : In p (List.filter primarniZaznam (z0 :: zs))) by (rewrite Hf; now left).
    apply List.filter_In in Hin as [Hin Hp].
    split; [exact Hin |]. split; [intros _; exact Hp |].
    intros He. exfalso.
    assert (existsb primarniZaznam (z0 :: zs) = true)
      by (apply existsb_exists; now exists p).
    congruence.
Qed.

Variable server : Server.
Variable cfg : AresClientConfig.
Variable max_depth : Z.
Variable manual_overrides : gmap string (list (string * Q)).

(** A node for which the client returns an error record contributes one
    line and one warning of kind "error" with the same text; the walk does
    not descend below it. *)
Lemma walk_error_record (fuel : nat) (ico : string) (d : Z) (pm : Q)
    (c c1 : Client) (payload : Payload) (err : string) :
  (d <= max_depth)%Z ->
  get_vr server cfg ico false c = (Returned payload, c1) ->
  p_error payload = Some err -> err <> "" ->
  exists t,
    walk server cfg max_depth manual_overrides (S fuel) ico d pm c
    = Done [ {| depth := d; label := ""; text := t; effective_pct := None |} ]
           [ {| w_kind := "error"; w_ico := ico; w_name := ""; w_text := t |} ] c1
    /\ t = "⚠️ Nelze načíst ARES VR pro " +:+ ico +:+ ": " +:+ err.
Proof.
  intros Hd Hget Herr Hne. eexists. split; [| reflexivity].
  rewrite walk_no_guard by exact Hd. unfold expand. rewrite Hget.
  assert (Ht : Py.truthy (p_error payload) = true)
    by (rewrite Herr; destruct err; [contradiction | reflexivity]).
  rewrite Ht. unfold error_text. rewrite Herr.
  destruct err; [contradiction | reflexivity].
Qed.

(** X22: an id that the registry refuses with 400 or 404 is reported and
    remembered.  When the id is not cached and the registry answers the
    request with 400 or 404, the walk of that node sends this one request
    and gives one line and one warning of kind "error" with the same text,
    naming the id as it was asked for and the status; the refusal is
    cached, so that walking the node again gives the same report without
    any request. *)
Theorem refused_id_is_reported_and_remembered (fuel fuel' : nat) (ico : string) (d : Z)
    (pm : Q) (c : Client) (status : N) (json : option Payload) :
  (d <= max_depth)%Z ->
  cache c !! norm_ico ico = None ->
  server (length (sent c)) (ARES_VR_URL (norm_ico ico)) = Http status json ->
  status = 400%N \/ status = 404%N ->
  let t := "⚠️ Nelze načíst ARES VR pro " +:+ ico +:+ ": ARES HTTP "
           +:+ Num.string_of_N status in
  let report :=
    Done [ {| depth := d; label := ""; text := t; effective_pct := None |} ]
         [ {| w_kind := "error"; w_ico := ico; w_name := ""; w_text := t |} ] in
  exists c1,
    walk server cfg max_depth manual_overrides (S fuel) ico d pm c = report c1
    /\ sent c1 = sent c ++ [ARES_VR_URL (norm_ico ico)]
    /\ walk server cfg max_depth manual_overrides (S fuel') ico d pm c1 = report c1.
Proof.
  intros Hd Hmiss Hans Hst t report.
  set (url := ARES_VR_URL (norm_ico ico)) in *.
  set (payload := error_record status url).
  set (c1 := _cache_put (norm_ico ico) payload (request url c)).
  assert (Hget : get_vr server cfg ico false c = (Returned payload, c1)).
  { unfold get_vr, _cache_get. rewrite Hmiss. cbn [attempts].
    fold url. rewrite Hans.
    destruct Hst as [-> | ->]; reflexivity. }
  assert (Hagain : get_vr server cfg ico false c1 = (Returned payload, c1)).
  { apply get_vr_hit. unfold c1, _cache_put. cbn [cache].
    apply lookup_insert_eq. }
  assert (Herr : p_error payload = Some ("ARES HTTP " +:+ Num.string_of_N status))
    by reflexivity.
  assert (Hne : "ARES HTTP " +:+ Num.string_of_N status <> "") by discriminate.
  exists c1. split; [| split].
  - destruct (walk_error_record fuel ico d pm c c1 payload _ Hd Hget Herr Hne)
      as (t' & Hw & ->). exact Hw.
  - reflexivity.
  - destruct (walk_error_record fuel' ico d pm c1 c1 payload _ Hd Hagain Herr Hne)
      as (t' & Hw & ->). exact Hw.
Qed.

End Records.

Lemma primary_record_is_picked_witness :
  exists z, AresVrExtract._pick_primary_or_record
              (AresVrExtract.zaznamy Examples.root_novak) = Some z
            /\ In z (AresVrExtract.zaznamy Examples.root_novak)
            /\ AresVrExtract.primarniZaznam z = true.
Proof.
  eexists. split; [reflexivity |].
  destruct (proj2 (primary_record_is_picked (AresVrExtract.zaznamy Examples.root_novak))
              _ eq_refl) as (Hin & Hp & _).
  split; [exact Hin | apply Hp; reflexivity].
Defined.

(** An id that the registry does not know, asked for with seven digits *)
Lemma refused_id_is_reported_and_remembered_witness :
  exists c1,
    OwnershipResolveOnline.walk MoreExamples.unknown Examples.cfg4 25 ∅ 1 "0000007" 3 1
      Examples.fresh
    = OwnershipResolveOnline.Done
        [ {| OwnershipResolveOnline.depth := 3; OwnershipResolveOnline.label := "";
             OwnershipResolveOnline.text :=
               "⚠️ Nelze načíst ARES VR pro 0000007: ARES HTTP 404";
             OwnershipResolveOnline.effective_pct := None |} ]
        [ {| OwnershipResolveOnline.w_kind := "error"; OwnershipResolveOnline.w_ico := "0000007";
             OwnershipResolveOnline.w_name := "";
             OwnershipResolveOnline.w_text :=
               "⚠️ Nelze načíst ARES VR pro 0000007: ARES HTTP 404" |} ]
        c1
    /\ AresVrClient.sent c1
       = ["https://ares.gov.cz/ekonomicke-subjekty-v-be/rest/ekonomicke-subjekty-vr/00000007"].
Proof.
  destruct (refused_id_is_reported_and_remembered MoreExamples.unknown Examples.cfg4 25 ∅
              0 0 "0000007" 3 1 Examples.fresh 404 None)
    as (c1 & Hw & Hs & _).
  - lia.
  - vm_compute. reflexivity.
  - reflexivity.
  - right. reflexivity.
  - exists c1. split; [exact Hw | exact Hs].
Defined.

(* ================================================================== *)
(** ** The rendered trace *)

Section Rendered.
Import OwnershipResolveOnline AppLines.

Lemma run_star {R : Type} (r : Re.regex) (s : list ascii) (cs : Re.caps)
    (k : list ascii -> Re.caps -> option R) :
  Re.run (Re.Star r) s cs k = star_loop r k (S (length s)) s cs.
Proof. reflexivity. Qed.

(** A starred character class is greedy: it takes the longest run of
    characters of the class when the rest of the pattern accepts what
    follows. *)
Lemma star_loop_class {R : Type} (p : ascii -> bool) (pre rest : list ascii)
    (cs : Re.caps) (k : list ascii -> Re.caps -> option R) (x : R) (n : nat) :
  List.Forall (fun c => p c = true) pre ->
  match rest with c :: _ => p c = false | [] => True end ->
  k rest cs = Some x ->
  (length pre < n)%nat ->
  star_loop (Re.Cls p) k n (pre ++ rest) cs = Some x.
Proof.
  intros Hpre Hrest Hk. revert n.
  induction Hpre as [| c pre Hc Hpre IH]; intros n Hlen.
  - destruct n as [| n]; [exact Hk |].
    cbn [app star_loop Re.run]. destruct rest as [| c rest]; [exact Hk |].
    rewrite Hrest. exact Hk.
  - destruct n as [| n]; [simpl in Hlen; lia |].
    cbn [app star_loop Re.run]. rewrite Hc.
    replace (length (pre ++ rest) <? length (c :: pre ++ rest))%nat with true
      by (symmetry; apply Nat.ltb_lt; simpl; lia).
    rewrite IH by (simpl in Hlen; lia). reflexivity.
Qed.

Lemma star_class_run {R : Type} (p : ascii -> bool) (pre rest : list ascii)
    (cs : Re.caps) (k : list ascii -> Re.caps -> option R) (x : R) :
  List.Forall (fun c => p c = true) pre ->
  match rest with c :: _ => p c = false | [] => True end ->
  k rest cs = Some x ->
  Re.run (Re.Star (Re.Cls p)) (pre ++ rest) cs k = Some x.
Proof.
  intros Hpre Hrest Hk. rewrite run_star.
  apply star_loop_class; auto. rewrite length_app. lia.
Qed.

Lemma length_lstrip_l (l : list ascii) : (length (Py.lstrip_l l) <= length l)%nat.
Proof.
  induction l as [| c l IH]; simpl; [lia |].
  destruct (Py.is_space c); simpl; lia.
Qed.

Lemma length_strip_l (l : list ascii) : (length (Py.strip_l l) <= length l)%nat.
Proof.
  unfold Py.strip_l, Py.rstrip_l. rewrite length_rev.
  etransitivity; [apply length_lstrip_l |]. rewrite length_rev.
  apply length_lstrip_l.
Qed.

Lemma stripped_head (l : list ascii) :
  Py.strip_l l = l ->
  match l with c :: _ => Ascii.eqb " " c = false | [] => True end.
Proof.
  destruct l as [| c l]; [trivial |]. intros H.
  destruct (Ascii.eqb " " c) eqn:E; [| reflexivity].
  apply Ascii.eqb_eq in E. subst c. exfalso.
  assert (Hl : (length (Py.strip_l (" "%char :: l)) <= length l)%nat).
  { unfold Py.strip_l. cbn [Py.lstrip_l]. change (Py.is_space " ") with true.
    cbn iota. apply (length_strip_l l). }
  rewrite H in Hl. simpl in Hl. lia.
Qed.

Lemma chars_append (a b : string) : Py.chars (a +:+ b) = Py.chars a ++ Py.chars b.
Proof.
  unfold Py.chars. induction a as [| c a IH]; [reflexivity |].
  simpl. f_equal. exact IH.
Qed.

Lemma lstrip_newlines_head (l : list ascii) :
  match l with c :: _ => Ascii.eqb c "010" = false | [] => True end ->
  lstrip_newlines l = l.
Proof. destruct l as [| c l]; [reflexivity |]. simpl. intros ->. reflexivity. Qed.

Lemma rstrip_newlines_none (l : list ascii) :
  List.Forall (fun c => Ascii.eqb c "010" = false) l ->
  rstrip_newlines (Py.str l) = Py.str l.
Proof.
  intros H. unfold rstrip_newlines. rewrite chars_str.
  rewrite lstrip_newlines_head; [rewrite rev_involutive; reflexivity |].
  destruct (rev l) as [| c r] eqn:E; [trivial |].
  apply (proj1 (List.Forall_forall _ _) H c).
  apply in_rev. rewrite E. left. reflexivity.
Qed.

(** The indentation pattern on an indented line: group 1 is the run of
    blanks, group 2 the rest. *)
Lemma indent_match (m : nat) (tc : list ascii) :
  match tc with c :: _ => Ascii.eqb " " c = false | [] => True end ->
  List.Forall (fun c => negb (Ascii.eqb c "010") = true) tc ->
  Re.match_at INDENT_RE (repeat " "%char (S m) ++ tc)
  = Some ([], [(2%nat, tc); (1%nat, repeat " "%char (S m))]).
Proof.
  intros Hhead Hnl. unfold Re.match_at, INDENT_RE, Re.seq, Re.plus, Re.chr, Re.dot.
  cbn [foldr repeat app].
  change (Re.run (Re.Cat ?a ?b) ?s ?cs ?k) with (Re.run a s cs (fun s' cs' => Re.run b s' cs' k)).
  change (Re.run (Re.Grp 1 ?a) ?s ?cs ?k)
    with (Re.run a s cs (fun s' cs' => k s' ((1%nat, take (length s - length s') s) :: cs'))).
  change (Re.run (Re.Cat ?a ?b) ?s ?cs ?k) with (Re.run a s cs (fun s' cs' => Re.run b s' cs' k)).
  change (Re.run (Re.Cls ?p) (?c :: ?s) ?cs ?k) with (if p c then k s cs else None).
  change (Ascii.eqb " " " ") with true. cbn iota. cbn beta.
  apply star_class_run.
  - apply List.Forall_forall. intros c Hc. apply repeat_spec in Hc. subst c. reflexivity.
  - exact Hhead.
  - change (Re.run (Re.Cat ?a ?b) ?s ?cs ?k) with (Re.run a s cs (fun s' cs' => Re.run b s' cs' k)).
    change (Re.run (Re.Grp 2 ?a) ?s ?cs ?k)
      with (Re.run a s cs (fun s' cs' => k s' ((2%nat, take (length s - length s') s) :: cs'))).
    pose proof (star_class_run (R := list ascii * Re.caps)
                  (fun x => negb (Ascii.eqb x "010")) tc []) as Hs.
    rewrite app_nil_r in Hs. apply Hs; [exact Hnl | exact I |].
    cbn [Re.run length]. rewrite !Nat.sub_0_r, firstn_all.
    replace (S (length (repeat " "%char m ++ tc)) - length tc)%nat with (S m)
      by (rewrite length_app, repeat_length; lia).
    cbn [take]. rewrite take_app_length' by (symmetry; apply repeat_length).
    reflexivity.
Qed.

Lemma indent_no_match (tc : list ascii) :
  match tc with c :: _ => Ascii.eqb " " c = false | [] => True end ->
  Re.match_at INDENT_RE tc = None.
Proof.
  intros Hhead. unfold Re.match_at, INDENT_RE, Re.seq, Re.plus, Re.chr.
  cbn [foldr Re.run]. destruct tc as [| c tc]; [reflexivity |].
  rewrite Hhead. reflexivity.
Qed.

Lemma render_line_reads_back (ln : NodeLine) :
  (0 <= depth ln)%Z -> plain (text ln) = true ->
  _line_depth_text_str (render_line ln) = _line_depth_text ln.
Proof.
  intros Hd Hp. unfold plain in Hp. apply andb_prop in Hp as [Hs Hn].
  apply String.eqb_eq in Hs.
  assert (Hnl : List.Forall (fun c => negb (Ascii.eqb c "010") = true) (Py.chars (text ln))).
  { apply List.Forall_forall. intros c Hc.
    exact (proj1 (forallb_forall _ _) Hn c Hc). }
  assert (Hhead : match Py.chars (text ln) with
                  | c :: _ => Ascii.eqb " " c = false | [] => True end).
  { apply stripped_head. unfold Py.strip in Hs.
    apply (f_equal Py.chars) in Hs. rewrite chars_str in Hs. exact Hs. }
  unfold render_line, _line_depth_text, _line_depth_text_str.
  rewrite Z.max_r by exact Hd.
  set (n := Z.to_nat (depth ln)).
  assert (Hn' : depth ln = Z.of_nat n) by (subst n; lia).
  assert (Hr : rstrip_newlines (Py.str (repeat " "%char (4 * n)) +:+ text ln)
               = Py.str (repeat " "%char (4 * n)) +:+ text ln).
  { rewrite <- (str_chars (Py.str (repeat " "%char (4 * n)) +:+ text ln)).
    apply rstrip_newlines_none. rewrite chars_append, chars_str.
    apply List.Forall_app. split.
    - apply List.Forall_forall. intros c Hc. apply repeat_spec in Hc. subst c. reflexivity.
    - eapply List.Forall_impl; [| exact Hnl]. intros c Hc.
      apply negb_true_iff in Hc. exact Hc. }
  rewrite Hr, chars_append, chars_str.
  destruct n as [| n'].
  - cbn [Nat.mul repeat app]. rewrite indent_no_match by exact Hhead.
    rewrite Hn'. reflexivity.
  - replace (4 * S n')%nat with (S (4 * n' + 3)) by lia.
    rewrite indent_match by assumption.
    unfold Pat.grp. cbn [Re.group Nat.eqb default from_option]. unfold id.
    rewrite length_str, repeat_length, str_chars, Hs.
    f_equal. rewrite Hn'. f_equal.
    replace (S (4 * n' + 3)) with (S n' * 4)%nat by lia.
    apply Nat.div_mul. lia.
Qed.

End Rendered.

(** X12: a trace rendered as text reads back as it was.  For lines of
    non-negative depth whose text has no white space at either end and no
    newline, reading each line written by [render_lines] with the text
    branch of [_line_depth_text] (the indentation pattern, four blanks a
    level) gives the depth and the text that the line had. *)
Theorem rendered_trace_reads_back (lines : list OwnershipResolveOnline.NodeLine) :
  List.Forall (fun ln => (0 <= OwnershipResolveOnline.depth ln)%Z
                         /\ AppLines.plain (OwnershipResolveOnline.text ln) = true) lines ->
  map AppLines._line_depth_text_str (AppLines.render_lines lines)
  = map AppLines._line_depth_text lines.
Proof.
  intros H. unfold AppLines.render_lines. rewrite map_map.
  induction H as [| ln lines [Hd Hp] _ IH]; [reflexivity |].
  cbn [map]. rewrite IH. f_equal. apply render_line_reads_back; assumption.
Qed.

Lemma rendered_trace_reads_back_witness :
  map AppLines._line_depth_text_str (AppLines.render_lines Examples.chain_lines)
  = map AppLines._line_depth_text Examples.chain_lines.
Proof.
  apply rendered_trace_reads_back.
  repeat (apply List.Forall_cons; [split; [vm_compute; discriminate | vm_compute; reflexivity] |]).
  apply List.Forall_nil.
Defined.

(* ================================================================== *)
(** ** A person line without share (C10) *)

Section PersonWithoutShare.
Import OwnershipResolveOnline App.

Local Abbreviation start :=
  {| persons := []; header_stack := []; pending_next_header_mult := None |}.

Lemma scan_lines_app (l1 l2 : list NodeLine) :
  scan_lines (l1 ++ l2) = fold_left scan_line l2 (scan_lines l1).
Proof. unfold scan_lines. apply fold_left_app. Qed.

(** The paths recorded under a name are never removed or changed. *)
Lemma scan_line_paths_kept (st : Scan) (ln : NodeLine) (name : string) (e : Entry) :
  OD.get name (persons st) = Some e ->
  exists e', OD.get name (persons (scan_line st ln)) = Some e'
             /\ paths e `prefix_of` paths e'.
Proof.
  intros He. unfold scan_line.
  destruct (classify (text ln)); simpl; try (exists e; split; [exact He | reflexivity]).
  destruct (decide (owner_name (text ln) = name)) as [Heq|Hne].
  - rewrite Heq, od_get_set_eq. eexists. split; [reflexivity |].
    rewrite He. simpl.
    match goal with |- context [add_path e ?a ?b ?c ?d] => destruct c as [[x y] z] end.
    unfold add_path. simpl. now apply prefix_app_r.
  - rewrite od_get_set_ne by exact Hne. exists e. split; [exact He | reflexivity].
Qed.

Lemma scan_lines_paths_kept (l : list NodeLine) (st : Scan) (name : string) (e : Entry) :
  OD.get name (persons st) = Some e ->
  exists e', OD.get name (persons (fold_left scan_line l st)) = Some e'
             /\ paths e `prefix_of` paths e'.
Proof.
  revert st e. induction l as [|ln l IH]; intros st e He; simpl.
  - exists e. split; [exact He | reflexivity].
  - destruct (scan_line_paths_kept st ln name e He) as (e1 & He1 & Hp1).
    destruct (IH _ _ He1) as (e2 & He2 & Hp2).
    exists e2. split; [exact He2 | now transitivity (paths e1)].
Qed.

(** C10: a line classified as a person owner always leaves an entry under
    the person's name, in the running table and in the result.  When the
    line has no [effective_pct], no parseable share and no [efektivně]
    marker, the entry's two sums after the line are those before it (zero
    for a new entry), while a path with a null effective value and a
    debug record are appended, and that path is still in the entry of the
    result.  The result is the running table after the last line with
    both sums of every person clamped to [0,1] and nothing else changed:
    a sum within [0,1] is kept, a larger one becomes 1, a negative one 0;
    the running sum of a person is the sum of the values of the person's
    paths, a null value counting for nothing. *)
Theorem person_entry_without_share (pre post : list NodeLine) (ln : NodeLine) :
  classify (text ln) = PersonOwner ->
  let name := owner_name (text ln) in
  let lines := pre ++ ln :: post in
  let before := default new_entry (OD.get name (persons (scan_lines pre))) in
  (exists after final,
     OD.get name (persons (scan_lines (pre ++ [ln]))) = Some after
     /\ OD.get name (compute_effective_persons lines) = Some final
     /\ (effective_pct ln = None ->
         App.parse_pct_from_text (text ln) = None ->
         efektivne_pct (text ln) = None ->
         ownership after = ownership before
         /\ voting after = voting before
         /\ exists parent_depth dp,
              paths after = paths before ++ [(parent_depth, None, text ln)]
              /\ debug_paths after = debug_paths before ++ [dp]
              /\ dp_eff dp = None /\ dp_local_share dp = None /\ dp_text dp = text ln
              /\ In (parent_depth, None, text ln) (paths final)))
  /\ (forall n,
        match OD.get n (compute_effective_persons lines),
              OD.get n (persons (scan_lines lines)) with
        | Some e, Some running =>
            (ownership e == Num.Qmax' 0 (Num.Qmin' 1 (ownership running)))%Q
            /\ (voting e == Num.Qmax' 0 (Num.Qmin' 1 (voting running)))%Q
            /\ (0 <= ownership e <= 1)%Q /\ (0 <= voting e <= 1)%Q
            /\ ((0 <= ownership running <= 1)%Q -> (ownership e == ownership running)%Q)
            /\ ((1 < ownership running)%Q -> (ownership e == 1)%Q)
            /\ ((ownership running < 0)%Q -> (ownership e == 0)%Q)
            /\ paths e = paths running /\ debug_paths e = debug_paths running
            /\ voting running = ownership running
            /\ (ownership running == Notions.paths_total (paths running))%Q
        | None, None => True
        | _, _ => False
        end).
Proof.
  intros Hc name lines before. split.
  - assert (Hafter : OD.get name (persons (scan_lines (pre ++ [ln])))
                     = Some (add_path before
                               (top_depth (pop_while (fun d => (d >? Z.max 0 (depth ln - 2))%Z)
                                             (header_stack (scan_lines pre))))
                               (top_mult (pop_while (fun d => (d >? Z.max 0 (depth ln - 2))%Z)
                                            (header_stack (scan_lines pre))))
                               (person_contribution
                                  (match effective_pct ln with
                                   | Some e => Some (e / 100)%Q | None => None end)
                                  (top_mult (pop_while (fun d => (d >? Z.max 0 (depth ln - 2))%Z)
                                               (header_stack (scan_lines pre))))
                                  (text ln))
                               (text ln))).
    { rewrite scan_lines_app. simpl. apply (scan_line_person _ _ Hc). }
    destruct (scan_lines_paths_kept post _ name _ Hafter) as (running & Hrun & Hpre).
    assert (Hlines : scan_lines lines
                     = fold_left scan_line post (scan_lines (pre ++ [ln]))).
    { unfold lines. rewrite <- scan_lines_app, <- app_assoc. reflexivity. }
    rewrite <- Hlines in Hrun.
    eexists. exists (clamp_entry running). split; [exact Hafter |]. split.
    { unfold compute_effective_persons. rewrite (od_get_map clamp_entry), Hrun. reflexivity. }
    intros He Hp Hm. rewrite He in Hpre |- *. unfold person_contribution in Hpre |- *.
    rewrite Hp, Hm in Hpre |- *. simpl in Hpre |- *.
    split; [reflexivity |]. split; [reflexivity |].
    eexists. eexists. split; [reflexivity |]. split; [reflexivity |].
    split; [reflexivity |]. split; [reflexivity |]. split; [reflexivity |].
    destruct Hpre as [rest ->]. apply in_or_app. left. apply in_or_app. right. now left.
  - intros n. unfold compute_effective_persons. rewrite (od_get_map clamp_entry).
    destruct (OD.get n (persons (scan_lines lines))) as [running|] eqn:Hrun; [| exact I].
    pose proof (scan_lines_balanced lines start (List.Forall_nil _)) as Hall.
    rewrite List.Forall_forall in Hall.
    destruct (Hall _ (od_get_In _ _ _ Hrun)) as (Hv & Ho & _). simpl in Hv, Ho.
    simpl. fold (Num.clamp 1 (ownership running)). fold (Num.clamp 1 (voting running)).
    split; [reflexivity |]. split; [reflexivity |].
    split; [apply clamp_range |]. split; [apply clamp_range |].
    split; [| split; [| split]].
    + intros [H0 H1]. unfold Num.clamp, Num.Qmax', Num.Qmin'.
      destruct (Qlt_le_dec (ownership running) 1);
        match goal with |- context [Qlt_le_dec ?a ?b] => destruct (Qlt_le_dec a b) end; lra.
    + intros H1. unfold Num.clamp, Num.Qmax', Num.Qmin'.
      destruct (Qlt_le_dec (ownership running) 1);
        match goal with |- context [Qlt_le_dec ?a ?b] => destruct (Qlt_le_dec a b) end; lra.
    + intros H0. unfold Num.clamp, Num.Qmax', Num.Qmin'.
      destruct (Qlt_le_dec (ownership running) 1);
        match goal with |- context [Qlt_le_dec ?a ?b] => destruct (Qlt_le_dec a b) end; lra.
    + split; [reflexivity |]. split; [reflexivity |]. split; [exact Hv | exact Ho].
Qed.

End PersonWithoutShare.

(** The chain's person on a second line without any share: the entry
    keeps its 40 % and gains a path without value. *)
Lemma person_entry_without_share_witness :
  App.classify (OwnershipResolveOnline.text TraceExamples.bare_svoboda_line) = App.PersonOwner
  /\ exists after final,
       OD.get "Petr Svoboda"
         (App.persons (App.scan_lines (Examples.chain_lines ++ [TraceExamples.bare_svoboda_line])))
       = Some after
       /\ OD.get "Petr Svoboda"
            (App.compute_effective_persons
               (Examples.chain_lines ++ [TraceExamples.bare_svoboda_line]))
          = Some final
       /\ (App.ownership after == 4 # 10)%Q
       /\ In (3%Z, None, "Petr Svoboda") (App.paths final).
Proof.
  assert (Hc : App.classify (OwnershipResolveOnline.text TraceExamples.bare_svoboda_line)
               = App.PersonOwner) by (vm_compute; reflexivity).
  split; [exact Hc |].
  destruct (proj1 (person_entry_without_share Examples.chain_lines []
                     TraceExamples.bare_svoboda_line Hc))
    as (after & final & Hafter & Hfinal & Hnone).
  exists after, final. split; [exact Hafter |]. split; [exact Hfinal |].
  destruct Hnone as (_ & _ & pd & dp & Hpaths & _ & _ & _ & _ & Hin);
    [reflexivity | vm_compute; reflexivity | vm_compute; reflexivity |].
  vm_compute in Hafter. injection Hafter as <-.
  split; [vm_compute; reflexivity |].
  vm_compute in Hpaths. injection Hpaths as Hpd. rewrite <- Hpd in Hin. exact Hin.
Defined.

(* ================================================================== *)
(** ** The warning for a node without owners (C8) *)

Section Unresolved.
Import AresVrExtract AresVrClient OwnershipResolveOnline.
Variable server : Server.
Variable cfg : AresClientConfig.
Variable max_depth : Z.
Variable manual_overrides : gmap string (list (string * Q)).

Local Abbreviation walk := (walk server cfg max_depth manual_overrides).

Lemma calls_app (w : string -> Z -> Q -> Client -> Run) (d : Z) (pm : Q)
    (os1 os2 : list Owner) (c c1 c2 : Client) (ws1 ws2 : list Warning) :
  Descent.calls w d pm os1 c ws1 c1 ->
  Descent.calls w d pm os2 c1 ws2 c2 ->
  Descent.calls w d pm (os1 ++ os2) c (ws1 ++ ws2) c2.
Proof.
  induction 1 as [c|o os c c1 c1' ls ws ws' Hw Hrest IH]; intros H2; [exact H2 |].
  simpl. rewrite <- app_assoc. econstructor; [exact Hw | now apply IH].
Qed.

(** The warnings of the loop over the owners of a group are those of the
    recursive calls for its companies. *)
Lemma owners_calls (w : string -> Z -> Q -> Client -> Run) (d : Z) (lbl : string) (pm : Q)
    (os : list Owner) (c : Client) ls ws c' :
  for_each os (visit_owner w d lbl pm) c = Done ls ws c' ->
  Descent.calls w d pm (List.filter is_company os) c ws c'.
Proof.
  revert c ls ws. induction os as [|o os IH]; intros c ls ws; simpl.
  - intros [= <- <- <-]. constructor.
  - intros H. apply then_run_done in H as (l1 & w1 & c1 & l2 & w2 & H1 & H2 & -> & ->).
    unfold visit_owner in H1.
    apply then_run_done in H1 as (l3 & w3 & c3 & l4 & w4 & H3 & H4 & -> & ->).
    injection H3 as <- <- <-. simpl.
    destruct (is_company o).
    + econstructor; [exact H4 | eapply IH; exact H2].
    + injection H4 as <- <- <-. simpl. eapply IH; exact H2.
Qed.

Lemma groups_calls (w : string -> Z -> Q -> Client -> Run) (d : Z) (pm : Q)
    (gs : list (string * list Owner)) (c : Client) ls ws c' :
  for_each gs (visit_group w d pm) c = Done ls ws c' ->
  Descent.calls w d pm (List.filter is_company (concat (map snd gs))) c ws c'.
Proof.
  revert c ls ws. induction gs as [|g gs IH]; intros c ls ws; simpl.
  - intros [= <- <- <-]. constructor.
  - intros H. apply then_run_done in H as (l1 & w1 & c1 & l2 & w2 & H1 & H2 & -> & ->).
    unfold visit_group in H1.
    apply then_run_done in H1 as (l3 & w3 & c3 & l4 & w4 & H3 & H4 & -> & ->).
    injection H3 as <- <- <-. simpl.
    rewrite List.filter_app. eapply calls_app.
    + eapply owners_calls. exact H4.
    + eapply IH. exact H2.
Qed.

Lemma manual_owners_length (entries : list (string * Q)) (c : Client) :
  length (fst (manual_owners server cfg entries c)) = length entries.
Proof.
  revert c. induction entries as [|e es IH]; intros c; [reflexivity |].
  simpl. destruct (manual_owner server cfg e c) as [o c1].
  specialize (IH c1). destruct (manual_owners server cfg es c1) as [os c2].
  simpl in *. now rewrite IH.
Qed.

(** C8: at a node that is fetched and expanded, the owners after the
    merge are none exactly when the registry lists none and the overrides
    have no entry for the node.  Then the walk of the node is its header
    line and exactly one warning, of kind "unresolved", with the node's
    id and name.  When there is an owner, the node itself raises no
    warning: the warnings of its walk are those of the recursive calls
    for its company owners, in the order of these calls, and nothing
    else. *)
Theorem unresolved_warning_iff_no_owner
    (fuel : nat) (ico : string) (d : Z) (pm : Q) (c c1 c2 : Client)
    (payload : Payload) (c_ico c_name : string) (owners0 owners : list Owner) :
  (d <= max_depth)%Z ->
  get_vr server cfg ico false c = (Returned payload, c1) ->
  Py.truthy (p_error payload) = false ->
  extract_current_owners payload = (c_ico, c_name, owners0) ->
  merged_owners server cfg manual_overrides c_ico owners0 c1 = (owners, c2) ->
  (owners = [] <-> owners0 = [] /\ default [] (manual_overrides !! c_ico) = [])
  /\ (owners = [] ->
      walk (S fuel) ico d pm c
      = Done [header_line d pm c_name c_ico]
             [ {| w_kind := "unresolved"; w_ico := c_ico; w_name := c_name;
                  w_text := "⚠️ Nepodařilo se dohledat vlastníka v OR pro " +:+ c_name
                            +:+ " (IČO " +:+ c_ico +:+ ")" |} ] c2)
  /\ (owners <> [] ->
      forall ls ws c',
        walk (S fuel) ico d pm c = Done ls ws c' ->
        head ls = Some (header_line d pm c_name c_ico)
        /\ Descent.calls (walk fuel) d pm (Descent.companies owners) c2 ws c').
Proof.
  intros Hd Hget Herr Hext Hmerge. split; [| split].
  - unfold merged_owners in Hmerge.
    pose proof (manual_owners_length (default [] (manual_overrides !! c_ico)) c1) as Hlen.
    destruct (manual_owners server cfg (default [] (manual_overrides !! c_ico)) c1)
      as [manual c3].
    simpl in Hlen. injection Hmerge as <- <-.
    destruct manual as [|m manual].
    + destruct (default [] (manual_overrides !! c_ico)); [| discriminate]. tauto.
    + destruct (default [] (manual_overrides !! c_ico)); [discriminate |].
      split; [| intros [_ [=]]].
      intros H. apply app_eq_nil in H as [_ [=]].
  - intros ->. rewrite walk_no_guard by exact Hd. unfold expand.
    rewrite Hget, Herr, Hext, Hmerge. reflexivity.
  - intros Hne ls ws c'. rewrite walk_no_guard by exact Hd. unfold expand.
    rewrite Hget, Herr, Hext, Hmerge. intros H.
    destruct owners as [|o owners']; [contradiction |].
    apply then_run_done in H as (l1 & w1 & c3 & l2 & w2 & H1 & H2 & -> & ->).
    injection H1 as <- <- <-. split; [reflexivity |].
    simpl app. unfold Descent.companies. eapply groups_calls. exact H2.
Qed.

End Unresolved.

(** Scenario 5 of the specification: the root has no owner in the
    registry, but an override names company B; no warning is raised for
    the root, and the recursive call for B raises none either. *)
Lemma unresolved_warning_iff_no_owner_witness :
  (0 <= 25)%Z
  /\ AresVrExtract.extract_current_owners Examples.no_owner = ("00000001", "Root", [])
  /\ exists owners c2 ls c',
       OwnershipResolveOnline.merged_owners Examples.offline Examples.cfg4
         OverrideExamples.overrides "00000001" [] OverrideExamples.rows = (owners, c2)
       /\ owners <> []
       /\ OwnershipResolveOnline.walk Examples.offline Examples.cfg4 25
            OverrideExamples.overrides 9 "00000001" 0 1 OverrideExamples.rows
          = OwnershipResolveOnline.Done ls [] c'
       /\ Descent.calls
            (OwnershipResolveOnline.walk Examples.offline Examples.cfg4 25
               OverrideExamples.overrides 8)
            0 1 (Descent.companies owners) c2 [] c'.
Proof.
  split; [lia |]. split; [vm_compute; reflexivity |].
  destruct (OwnershipResolveOnline.merged_owners Examples.offline Examples.cfg4
              OverrideExamples.overrides "00000001" [] OverrideExamples.rows)
    as [owners c2] eqn:Hmerge.
  destruct (OwnershipResolveOnline.walk Examples.offline Examples.cfg4 25
              OverrideExamples.overrides 9 "00000001" 0 1 OverrideExamples.rows)
    as [ls ws c'| |] eqn:Hwalk; try (vm_compute in Hwalk; discriminate Hwalk).
  assert (Hws : ws = []) by (vm_compute in Hwalk; injection Hwalk as _ <- _; reflexivity).
  assert (Hne : owners <> [])
    by (vm_compute in Hmerge; injection Hmerge as <- _; discriminate).
  exists owners, c2, ls, c'. split; [reflexivity |]. split; [exact Hne |].
  subst ws. split; [reflexivity |].
  refine (proj2 (proj2 (proj2 (unresolved_warning_iff_no_owner Examples.offline Examples.cfg4
                   25 OverrideExamples.overrides 8 "00000001" 0 1
                   OverrideExamples.rows OverrideExamples.rows c2
                   Examples.no_owner "00000001" "Root" [] owners _ _ _ _ Hmerge))
                 Hne ls [] c' Hwalk)).
  - lia.
  - vm_compute. reflexivity.
  - reflexivity.
  - vm_compute. reflexivity.
Defined.

(* ================================================================== *)
(** ** The voting block at the threshold (C6) *)

(** C6: the block rule is meant to be strict, and it compares the sum of
    the stored votes with the threshold strictly; but both are computed
    in binary floating point, and a block whose shares, as entered, add up
    to the threshold exactly is promoted.  Three persons are entered with
    10 % of the votes each and declared a block, the threshold entered is
    30 %: 10 + 10 + 10 = 30.  The form stores each vote as [10 / 100.0];
    their sum, added from left to right, is 0.30000000000000004
    ([5404319552844596 / 2^54]), the threshold [30 / 100.0] is
    0.3 ([5404319552844595 / 2^54]), one unit in the last place below.
    No person qualifies by an individual criterion, yet all three are
    made UBOs by the block, with a reason that reads
    "30.00% > 30.00%". *)
Theorem voting_block_promotes_at_threshold :
  let persons := UboExamples.entered UboExamples.entered_votes in
  let members := ["Adam"; "Bára"; "Cyril"] in
  let reason := "účast v voting blocku „Voting Block 1“ s 30.00% > 30.00%" in
  (fold_right Qplus 0 (map snd UboExamples.entered_votes) == 30)%Q
  /\ map (fun nv => App.vote (snd nv)) persons
     = [Num.fdiv 10 100; Num.fdiv 10 100; Num.fdiv 10 100]
  /\ (Num.fdiv 10 100 == 3602879701896397 # 36028797018963968)%Q
  /\ (App.thr 30 == 5404319552844595 # 18014398509481984)%Q
  /\ (App.block_total persons members == 5404319552844596 # 18014398509481984)%Q
  /\ (App.thr 30 < App.block_total persons members)%Q
  /\ App.block_applies persons members 30 = true
  /\ App.individual_criteria persons 30 = ([], [])
  /\ App.evaluate persons members "Voting Block 1" 30
     = (persons, [ ("Adam", [reason]); ("Bára", [reason]); ("Cyril", [reason]) ]).
Proof.
  cbv zeta. repeat split; vm_compute; reflexivity.
Qed.

(** The same form with shares of 10 % and 15 % of the votes at a
    threshold of 25 %: here the computed sum is the threshold, and the
    block promotes nobody. *)
Example block_at_threshold_not_promoted_as_entered :
  let persons := UboExamples.entered [("Adam", 10); ("Bára", 15)]%Q in
  (App.block_total persons ["Adam"; "Bára"] == App.thr 25)%Q
  /\ App.evaluate persons ["Adam"; "Bára"] "Voting Block 1" 25 = ([], []).
Proof. cbv zeta. split; vm_compute; reflexivity. Qed.

(* ================================================================== *)
(** ** Effective percentages along the ancestors of a line (C2) *)

Section Ancestors.
Import AresVrExtract AresVrClient OwnershipResolveOnline.

Lemma ancestors_app (t : Z) (l1 l2 : list NodeLine) :
  Lineage.ancestors t (l1 ++ l2)
  = Lineage.ancestors t l1
    ++ Lineage.ancestors (t - 3 * Z.of_nat (length (Lineage.ancestors t l1))) l2.
Proof.
  revert t. induction l1 as [|a l1 IH]; intros t; simpl.
  - f_equal. lia.
  - destruct (depth a =? t)%Z; [| apply IH].
    simpl. f_equal. rewrite IH. f_equal. f_equal. lia.
Qed.

Lemma ancestors_none (t : Z) (l : list NodeLine) :
  List.Forall (fun ln => (t < depth ln)%Z) l -> Lineage.ancestors t l = [].
Proof.
  induction 1 as [|a l Ha _ IH]; [reflexivity |]. simpl.
  destruct (Z.eqb_spec (depth a) t); [lia | exact IH].
Qed.

(** The multiplier handed down by a company is the one that its line
    shows. *)
Lemma multiplier_of_company_line (d : Z) (lbl : string) (pm : Q) (o : Owner) :
  is_company o = true ->
  (Lineage.multiplier pm [owner_line d lbl pm o] == next_mult pm o)%Q.
Proof.
  intros Hco. unfold owner_line, next_mult. rewrite Hco. simpl.
  destruct (local_share o) as [s|]; [simpl; field |].
  destruct (eff_share o) as [es|]; simpl; [field | reflexivity].
Qed.

Lemma multiplier_snoc (d : Z) (lbl : string) (pm : Q) (o : Owner) (anc : list NodeLine) :
  is_company o = true ->
  (Lineage.multiplier (next_mult pm o) anc
   == Lineage.multiplier pm (anc ++ [owner_line d lbl pm o]))%Q.
Proof.
  intros Hco. induction anc as [|a anc IH].
  - symmetry. now apply multiplier_of_company_line.
  - simpl. destruct (effective_pct a); [reflexivity | exact IH].
Qed.

Lemma node_of_snoc (top : string) (o : Owner) (path : list Owner) :
  Lineage.node_of (Py.or_str (ico o) "") path = Lineage.node_of top (path ++ [o]).
Proof. destruct path; reflexivity. Qed.

Variable server : Server.
Variable cfg : AresClientConfig.
Variable max_depth : Z.
Variable manual_overrides : gmap string (list (string * Q)).

Local Abbreviation walk := (walk server cfg max_depth manual_overrides).
Local Abbreviation reported := (Lineage.reported server cfg manual_overrides).
Local Abbreviation lineage := (Lineage.lineage server cfg manual_overrides).
Local Abbreviation explained := (Lineage.explained server cfg manual_overrides).

(** The ancestors found below a company, with the line of the company
    behind them, are ancestors under the company's parent. *)
Lemma lineage_lift (top : string) (d : Z) (lbl : string) (pm : Q) (o : Owner)
    (anc : list NodeLine) (path : list Owner) :
  is_company o = true ->
  reported top o ->
  lineage (Py.or_str (ico o) "") (d + 3)%Z (next_mult pm o) anc path ->
  lineage top d pm (anc ++ [owner_line d lbl pm o]) (path ++ [o]).
Proof.
  intros Hco Hrep. induction 1 as [|a anc o' path m Hl IH Hco' Hrep' Hm Ha].
  - simpl. apply (Lineage.lineage_cons _ _ _ top d pm _ [] o [] pm).
    + constructor.
    + exact Hco.
    + exact Hrep.
    + reflexivity.
    + rewrite label_owner_line. simpl. f_equal. lia.
  - simpl. apply (Lineage.lineage_cons _ _ _ top d pm a _ o' _ m).
    + exact IH.
    + exact Hco'.
    + rewrite <- node_of_snoc. exact Hrep'.
    + rewrite Hm. now apply multiplier_snoc.
    + rewrite Ha at 1. f_equal. rewrite length_app. simpl. lia.
Qed.

Lemma explained_nil (top : string) (d : Z) (pm : Q) : explained top d pm [].
Proof.
  split; [constructor |]. intros pre ln post H. now destruct pre.
Qed.

(** A single line that does not sit two levels below a header *)
Lemma explained_other (top : string) (d : Z) (pm : Q) (x : NodeLine) :
  (d <= depth x)%Z -> ((depth x - d) mod 3 <> 2)%Z -> explained top d pm [x].
Proof.
  intros Hd Hmod. split; [now repeat constructor |].
  intros pre ln post H Hln. destruct pre as [|y pre].
  - injection H as <- _. contradiction.
  - injection H as _ H. now destruct pre.
Qed.

Lemma depth_explained (top : string) (d : Z) (pm : Q) (ls pre post : list NodeLine)
    (ln : NodeLine) :
  explained top d pm ls -> ls = pre ++ ln :: post -> ((depth ln - d) mod 3 = 2)%Z ->
  depth ln = (d + 3 * Z.of_nat (length (Lineage.ancestors (depth ln - 3) (rev pre))) + 2)%Z.
Proof.
  intros [_ H] Hls Hmod. destruct (H pre ln post Hls Hmod) as (path & o & m & _ & _ & _ & Hln).
  rewrite Hln at 1. apply depth_owner_line.
Qed.

Lemma explained_app (top : string) (d : Z) (pm : Q) (l1 l2 : list NodeLine) :
  explained top d pm l1 -> explained top d pm l2 -> explained top d pm (l1 ++ l2).
Proof.
  intros H1 H2. split; [apply List.Forall_app; split; [apply H1 | apply H2] |].
  intros pre ln post Heq Hmod.
  assert (Hin2 : forall pre2, pre = l1 ++ pre2 -> l2 = pre2 ++ ln :: post ->
            exists path o m,
              lineage top d pm (Lineage.ancestors (depth ln - 3) (rev pre)) path
              /\ reported (Lineage.node_of top path) o
              /\ (m == Lineage.multiplier pm (Lineage.ancestors (depth ln - 3) (rev pre)))%Q
              /\ ln = owner_line
                        (d + 3 * Z.of_nat (length (Lineage.ancestors (depth ln - 3) (rev pre))))
                        (label ln) m o).
  { intros pre2 -> Hl2.
    pose proof (depth_explained _ _ _ _ _ _ _ H2 Hl2 Hmod) as Hdepth.
    rewrite rev_app_distr, ancestors_app.
    rewrite (ancestors_none _ (rev l1)), app_nil_r; [exact (proj2 H2 pre2 ln post Hl2 Hmod) |].
    apply List.Forall_rev. eapply List.Forall_impl; [| exact (proj1 H1)].
    intros x Hx. simpl in Hx. lia. }
  apply List.app_eq_app in Heq as [l [[Hl1 Hl2]|[Hpre Hl2]]].
  - destruct l as [|x l].
    + simpl in Hl2. rewrite app_nil_r in Hl1. apply (Hin2 []).
      * now rewrite app_nil_r, Hl1.
      * now symmetry.
    + injection Hl2 as <- Hpost. exact (proj2 H1 pre ln l Hl1 Hmod).
  - now apply (Hin2 l).
Qed.

(** One turn of the loop over the owners: the line of the owner, and
    below it the lines of the walk of the owner when it is a company. *)
Lemma explained_turn (top : string) (d : Z) (lbl : string) (pm : Q) (o : Owner)
    (sub : list NodeLine) :
  reported top o ->
  (if is_company o
   then explained (Py.or_str (ico o) "") (d + 3)%Z (next_mult pm o) sub
   else sub = []) ->
  explained top d pm (owner_line d lbl pm o :: sub).
Proof.
  intros Hrep Hsub. split.
  - constructor; [rewrite depth_owner_line; lia |].
    destruct (is_company o); [| subst sub; constructor].
    eapply List.Forall_impl; [| exact (proj1 Hsub)]. intros x Hx. simpl in Hx. lia.
  - intros pre ln post Heq Hmod. destruct pre as [|a pre].
    + injection Heq as <- _. simpl.
      exists [], o, pm. split; [constructor |]. split; [exact Hrep |].
      split; [reflexivity |]. rewrite label_owner_line. simpl. f_equal. lia.
    + injection Heq as <- Hs.
      destruct (is_company o) eqn:Hco; [| subst sub; now destruct pre].
      assert (Hmod' : ((depth ln - (d + 3)) mod 3 = 2)%Z) by (now rewrite mod3_shift).
      pose proof (depth_explained _ _ _ _ _ _ _ Hsub Hs Hmod') as Hdepth.
      destruct (proj2 Hsub pre ln post Hs Hmod') as (path & o' & m & Hl & Hrep' & Hm & Hln).
      set (anc := Lineage.ancestors (depth ln - 3) (rev pre)) in *.
      assert (Hanc : Lineage.ancestors (depth ln - 3) (rev (owner_line d lbl pm o :: pre))
                     = anc ++ [owner_line d lbl pm o]).
      { simpl rev. rewrite ancestors_app. fold anc. f_equal. simpl.
        rewrite depth_owner_line.
        destruct (Z.eqb_spec (d + 2) (depth ln - 3 - 3 * Z.of_nat (length anc))); [reflexivity | lia]. }
      rewrite Hanc. exists (path ++ [o]), o', m.
      split; [now apply lineage_lift |].
      split; [rewrite <- node_of_snoc; exact Hrep' |].
      split; [rewrite Hm; now apply multiplier_snoc |].
      rewrite Hln at 1. f_equal. rewrite length_app. simpl. lia.
Qed.

(** The owners of every group are owners of the node. *)
Lemma group_members (owners : list Owner) (g : string * list Owner) (o : Owner) :
  In g (group_by_label owners) -> In o (snd g) -> In o owners.
Proof.
  unfold group_by_label.
  assert (Hgen : forall (acc : list (string * list Owner)),
            List.Forall (fun kv => List.Forall (fun x => In x owners) (snd kv)) acc ->
            forall os, (forall x, In x os -> In x owners) ->
            List.Forall (fun kv => List.Forall (fun x => In x owners) (snd kv))
              (fold_left
                 (fun by_label x =>
                    OD.set (AresVrExtract.label x)
                      (default [] (OD.get (AresVrExtract.label x) by_label) ++ [x]) by_label)
                 os acc)).
  { intros acc Hacc os. revert acc Hacc. induction os as [|x os IH]; intros acc Hacc Hos.
    - exact Hacc.
    - simpl. apply IH; [| intros y Hy; apply Hos; now right].
      apply od_set_Forall; [| exact Hacc]. simpl.
      apply List.Forall_app. split; [| constructor; [apply Hos; now left | constructor]].
      destruct (OD.get (AresVrExtract.label x) acc) as [old|] eqn:Hold; [| constructor].
      apply od_get_In in Hold. rewrite List.Forall_forall in Hacc.
      exact (Hacc _ Hold). }
  intros Hg Ho. specialize (Hgen [] (List.Forall_nil _) owners (fun x H => H)).
  rewrite List.Forall_forall in Hgen. specialize (Hgen g Hg).
  rewrite List.Forall_forall in Hgen. exact (Hgen o Ho).
Qed.

(** The invariant of the walk. *)
Lemma walk_explained (fuel : nat) (ico : string) (d : Z) (pm : Q) (c : Client) ls ws c' :
  walk fuel ico d pm c = Done ls ws c' -> explained ico d pm ls.
Proof.
  revert ico d pm c ls ws c'.
  induction fuel as [|fuel IH]; intros ico d pm c ls ws c'; [discriminate |].
  destruct (Z_gt_le_dec d max_depth) as [Hd|Hd].
  { rewrite walk_guard by exact Hd. intros [= <- <- <-].
    apply explained_other; simpl; [lia | rewrite Z.sub_diag; discriminate]. }
  rewrite walk_no_guard by exact Hd. unfold expand.
  destruct (get_vr server cfg ico false c) as [[payload|] c1] eqn:Hget; [| discriminate].
  destruct (Py.truthy (p_error payload)) eqn:Herr.
  { intros [= <- <- <-].
    apply explained_other; simpl; [lia | rewrite Z.sub_diag; discriminate]. }
  destruct (extract_current_owners payload) as [[c_ico c_name] owners0] eqn:Hext.
  destruct (merged_owners server cfg manual_overrides c_ico owners0 c1) as [owners c2] eqn:Hmerge.
  assert (Hrep : forall o, In o owners -> reported ico o).
  { intros o Ho. exists c, payload, c1. split; [exact Hget |]. split; [exact Herr |].
    rewrite Hext. simpl. rewrite Hmerge. exact Ho. }
  intros H. apply then_run_done in H as (l1 & w1 & c3 & l2 & w2 & H1 & H2 & -> & ->).
  injection H1 as <- <- <-. apply explained_app.
  { apply explained_other.
    - unfold header_line. simpl. lia.
    - unfold header_line. simpl. rewrite Z.sub_diag. discriminate. }
  revert H2. apply (for_each_inv (fun ls _ => explained ico d pm ls)).
  { apply explained_nil. }
  { intros l3 _ l4 _. apply explained_app. }
  intros g c4 ls ws c4' Hg H.
  apply then_run_done in H as (l3 & w3 & c5 & l4 & w4 & H3 & H4 & -> & ->).
  injection H3 as <- <- <-. apply explained_app.
  { apply explained_other; simpl; [lia |].
    replace (d + 1 - d)%Z with 1%Z by lia. discriminate. }
  revert H4. apply (for_each_inv (fun ls _ => explained ico d pm ls)).
  { apply explained_nil. }
  { intros l5 _ l6 _. apply explained_app. }
  intros o c6 ls ws c6' Ho H.
  apply then_run_done in H as (l5 & w5 & c7 & l6 & w6 & H5 & H6 & -> & ->).
  injection H5 as <- <- <-. simpl app.
  apply explained_turn.
  - apply Hrep. eapply group_members; [exact Hg | exact Ho].
  - destruct (is_company o).
    + eapply IH. exact H6.
    + now injection H6 as <- _ _.
Qed.

(** Under known shares the multiplier that the trace shows is the product
    of the shares. *)
Lemma lineage_product (top : string) (d : Z) (pm : Q) (anc : list NodeLine)
    (path : list Owner) (ss : list Q) :
  lineage top d pm anc path ->
  map local_share path = map Some ss ->
  (Lineage.multiplier pm anc == pm * Spec.product ss)%Q.
Proof.
  intros Hl. revert ss. induction Hl as [|a anc o path m Hl IH Hco Hrep Hm Ha]; intros ss Hss.
  - destruct ss; [| discriminate]. simpl. ring.
  - destruct ss as [|s ss]; [discriminate |]. injection Hss as Hs Hss.
    apply (f_equal effective_pct) in Ha.
    rewrite (proj1 (owner_line_known_share _ _ _ _ _ Hs)) in Ha.
    simpl. rewrite Ha, Hm, (IH _ Hss). field.
Qed.

(** C2: in a resolved trace, take a line two levels below a header and
    its ancestors in the trace: the nearest line before it three levels
    up, the nearest line before that one three levels higher, and so on.
    The line is the line of an owner [o] of the company that these
    ancestors lead to from the root, each ancestor being the line of a
    company owner of the company before it.  The parent multiplier under
    which the line is written is the one the trace shows above it: the
    percentage of its nearest ancestor that carries one, as a fraction, 1
    at the top.  When the local share [s] of [o] is known, the line
    carries [effective_pct = 100 * m * s] (exactly, hence within 1e-9),
    and when the shares of the ancestors are known too, that is 100 times
    the product of the local shares from the root down to [o]. *)
Theorem effective_pct_is_path_product
    (root_ico : string) (c : Client) (pre post : list NodeLine) (ln : NodeLine) ws c' :
  resolve_tree_online server cfg max_depth manual_overrides root_ico c
  = Done (pre ++ ln :: post) ws c' ->
  (depth ln mod 3 = 2)%Z ->
  let anc := Lineage.ancestors (depth ln - 3) (rev pre) in
  let m := Lineage.multiplier 1 anc in
  exists path o m0,
    lineage root_ico 0 1 anc path
    /\ reported (Lineage.node_of root_ico path) o
    /\ (m0 == m)%Q
    /\ ln = owner_line (3 * Z.of_nat (length anc)) (label ln) m0 o
    /\ forall s, local_share o = Some s ->
         exists e,
           effective_pct ln = Some e
           /\ (e == 100 * m * s)%Q
           /\ (Qabs (e - 100 * m * s) <= 1 # 1000000000)%Q
           /\ forall ss, map local_share path = map Some ss ->
                (e == 100 * Spec.product (s :: ss))%Q.
Proof.
  intros Hrun Hmod anc m. apply walk_explained in Hrun as [_ Hrun].
  destruct (Hrun pre ln post eq_refl) as (path & o & m0 & Hl & Hrep & Hm & Hln).
  { now rewrite Z.sub_0_r. }
  fold anc in Hl, Hm, Hln. fold m in Hm.
  exists path, o, m0. split; [exact Hl |]. split; [exact Hrep |]. split; [exact Hm |].
  split; [exact Hln |]. intros s Hs.
  exists (m0 * s * 100)%Q.
  split; [rewrite Hln at 1; apply (owner_line_known_share _ _ _ _ _ Hs) |].
  split; [rewrite Hm; ring |]. split.
  - assert (Hz : (m0 * s * 100 - 100 * m * s == 0)%Q) by (rewrite Hm; ring).
    rewrite Hz. unfold Qle. simpl. lia.
  - intros ss Hss. rewrite Hm. unfold m.
    rewrite (lineage_product _ _ _ _ _ _ Hl Hss). simpl. ring.
Qed.

End Ancestors.

(** A chain with a parent at 50 %: the person who owns 40 % of company B
    has the line of B as its only ancestor in the trace, is written under
    the multiplier 1/2 that this line shows, and carries 20 %. *)
Lemma effective_pct_is_path_product_witness :
  OwnershipResolveOnline.resolve_tree_online Examples.offline Examples.cfg4 25 ∅ "00000001"
    Lineage.half_cache
  = OwnershipResolveOnline.Done (Lineage.half_before ++ Lineage.half_person :: []) []
      Lineage.half_cache
  /\ (OwnershipResolveOnline.depth Lineage.half_person mod 3 = 2)%Z
  /\ map OwnershipResolveOnline.text
       (Lineage.ancestors (OwnershipResolveOnline.depth Lineage.half_person - 3)
          (rev Lineage.half_before))
     = ["B — 50.00% (IČO 00000002)"]
  /\ (exists e, OwnershipResolveOnline.effective_pct Lineage.half_person = Some e
                /\ (e == 20)%Q)
  /\ exists o m0,
       (m0 == 1 # 2)%Q
       /\ Lineage.half_person
          = OwnershipResolveOnline.owner_line 3
              (OwnershipResolveOnline.label Lineage.half_person) m0 o
       /\ forall s, OwnershipResolveOnline.local_share o = Some s ->
            exists e, OwnershipResolveOnline.effective_pct Lineage.half_person = Some e
                      /\ (e == 100 * (1 # 2) * s)%Q.
Proof.
  assert (Hrun : OwnershipResolveOnline.resolve_tree_online Examples.offline Examples.cfg4 25
                   ∅ "00000001" Lineage.half_cache
                 = OwnershipResolveOnline.Done
                     (Lineage.half_before ++ Lineage.half_person :: []) []
                     Lineage.half_cache)
    by (vm_compute; reflexivity).
  assert (Hmod : (OwnershipResolveOnline.depth Lineage.half_person mod 3 = 2)%Z)
    by (vm_compute; reflexivity).
  split; [exact Hrun |]. split; [exact Hmod |].
  split; [vm_compute; reflexivity |].
  split; [eexists; split; vm_compute; reflexivity |].
  destruct (effective_pct_is_path_product _ _ _ _ _ _ _ _ _ _ _ Hrun Hmod)
    as (path & o & m0 & _ & _ & Hm & Hln & Hs).
  exists o, m0.
  assert (Hhalf : (Lineage.multiplier 1
                     (Lineage.ancestors (OwnershipResolveOnline.depth Lineage.half_person - 3)
                        (rev Lineage.half_before)) == 1 # 2)%Q)
    by (vm_compute; reflexivity).
  split; [rewrite Hm; exact Hhalf |]. split; [exact Hln |].
  intros s Hsh. destruct (Hs s Hsh) as (e & He & Heq & _).
  exists e. split; [exact He |]. rewrite Heq, Hhalf. reflexivity.
Defined.
